(** * GPU-assisted validation: descriptor heap and descriptor-set state

    A shallow embedding of [layers/gpu/descriptor_validation/gpuav_descriptor_set.cpp]:
    the identifier heap ([DescriptorHeap]), the layout buffer, the state
    snapshot and the read-back of used descriptors ([DescriptorSet]).

    [uint32_t] values are integers of [Z] with the wrap-around written out
    ([wrap32]); mapped device memory is a list of cells, and an access past
    its end, like the dereference of a null pointer, is undefined behaviour
    of the C++ source and an [Undefined] outcome here.

    The functions run under the lock of their object, so each is modelled as
    one step on the state of that object. The device memory service is taken
    to succeed: a buffer that is created is mapped with the cells asked for,
    and the reports of [InternalError] change no state that is modelled. *)

From stdpp Require Import base numbers list sorting gmap fin_maps fin_sets.

Local Open Scope Z_scope.

(* [naive_solver] clears hypotheses it has already used. *)
Local Set Warnings "-clear-no-such-hyp".

(** ** Machine integers *)

Definition u32 (z : Z) : Prop := 0 ≤ z < 2 ^ 32.

Global Instance u32_dec z : Decision (u32 z).
Proof. unfold u32. apply _. Defined.

Definition wrap32 (z : Z) : Z := z `mod` 2 ^ 32.

(** Modelled from the spec: [vvl::kU32Max] is declared outside this file; the
    spec calls it the reserved max-unsigned sentinel, the largest
    [uint32_t]. *)
Definition kU32Max : Z := 4294967295.

(** ** Outcomes of the modelled functions *)

(** Why a call has no result: undefined behaviour of one of three kinds, or
    an [assert] that fails and stops the program. *)
Inductive ub : Set :=
| NullDereference
| OutOfBounds
| DivisionByZero
| AssertionFailed.

Inductive outcome (A : Type) : Type :=
| Done (a : A)
| Undefined (why : ub)
| OutOfFuel.

Arguments Done {A} a.
Arguments Undefined {A} why.
Arguments OutOfFuel {A}.

(** Sequencing stops at the first outcome that is not [Done]. *)
Global Instance outcome_bind : MBind outcome := λ A B k m,
  match m with
  | Done a => k a
  | Undefined why => Undefined why
  | OutOfFuel => OutOfFuel
  end.

Global Instance outcome_ret : MRet outcome := λ A a, Done a.

(** Reading cell [i] of a mapped buffer. *)
Definition load {A : Type} (mem : list A) (i : Z) : outcome A :=
  match mem !! Z.to_nat i with
  | Some a => Done a
  | None => Undefined OutOfBounds
  end.

(** Writing cell [i] of a mapped buffer. *)
Definition store {A : Type} (mem : list A) (i : Z) (a : A) : outcome (list A) :=
  if decide (Z.to_nat i < length mem)%nat then Done (<[Z.to_nat i := a]> mem)
  else Undefined OutOfBounds.

(** ** The identifier heap *)

(** Modelled from the spec: the "owning handle reference" recorded for a live
    identifier. [VulkanTypedHandle] is declared outside this file, and the
    heap only stores it. *)
Record VulkanTypedHandle : Set := { handle : Z; object_type : Z }.

Global Instance VulkanTypedHandle_eq_dec : EqDecision VulkanTypedHandle.
Proof. solve_decision. Defined.

Definition kBitsPerWord : Z := 32.

(** [BitBufferSize]: the bytes of a 32-bit aligned array of [num_bits] bits,
    in [uint32_t] arithmetic. *)
Definition BitBufferSize (num_bits : Z) : Z :=
  wrap32
    (Z.land (wrap32 (num_bits + (kBitsPerWord - 1))) (wrap32 (Z.lnot (kBitsPerWord - 1)))
       `div` kBitsPerWord * 4).

Record DescriptorHeap : Type := {
  max_descriptors_ : Z;
  next_id_ : Z;
  alloc_map_ : gmap Z VulkanTypedHandle;
  gpu_heap_state_ : list Z
}.

(** Modelled from the spec: the member initialiser of [next_id_] is in the
    class declaration, outside this file. Identifiers are "in
    [1, max_identifiers]" and the scan wraps "from capacity back to 1, never
    revisiting 0": the cursor starts at 1. *)
Definition next_id_initial : Z := 1.

(** The constructor. With [max_descriptors = 0] it returns before any buffer
    is made, and [gpu_heap_state_] maps no word; otherwise the bitmap is
    [BitBufferSize (max_descriptors + 1)] bytes, zero filled. *)
Definition DescriptorHeap_new (max_descriptors : Z) : DescriptorHeap :=
  if decide (max_descriptors = 0) then
    {| max_descriptors_ := max_descriptors; next_id_ := next_id_initial; alloc_map_ := ∅;
       gpu_heap_state_ := [] |}
  else
    {| max_descriptors_ := max_descriptors; next_id_ := next_id_initial; alloc_map_ := ∅;
       gpu_heap_state_ :=
         replicate (Z.to_nat (BitBufferSize (wrap32 (max_descriptors + 1)) `div` 4)) 0 |}.

(** One pass of the body of the [do ... while] loop of [NextId]: the
    candidate is the cursor, the cursor moves on and wraps to 1 after
    [max_descriptors_]. *)
Definition advance (max_descriptors next_id : Z) : Z :=
  let next_id := wrap32 (next_id + 1) in
  if decide (max_descriptors < next_id) then 1 else next_id.

(** The [do ... while (alloc_map_.count(result) > 0)] loop, at most [fuel]
    passes: the candidate found and the cursor left behind. *)
Fixpoint NextId_scan (fuel : nat) (max_descriptors : Z)
    (alloc_map : gmap Z VulkanTypedHandle) (next_id : Z) : option (Z * Z) :=
  match fuel with
  | O => None
  | S fuel =>
      let result := next_id in
      let next_id := advance max_descriptors next_id in
      match alloc_map !! result with
      | Some _ => NextId_scan fuel max_descriptors alloc_map next_id
      | None => Some (result, next_id)
      end
  end.

(** [NextId]: the identifier returned and the heap after the call. [fuel]
    bounds the passes of the loop; [NextId_scan_terminates] shows that
    [max_descriptors_] passes are enough. *)
Definition NextId (fuel : nat) (h : DescriptorHeap) (owner : VulkanTypedHandle)
    : outcome (Z * DescriptorHeap) :=
  if decide (max_descriptors_ h = 0) then Done (0, h)
  else if decide (max_descriptors_ h ≤ Z.of_nat (size (alloc_map_ h))) then Done (0, h)
  else
    match NextId_scan fuel (max_descriptors_ h) (alloc_map_ h) (next_id_ h) with
    | None => OutOfFuel
    | Some (result, next_id) =>
        word ← load (gpu_heap_state_ h) (result `div` 32);
        bitmap ← store (gpu_heap_state_ h) (result `div` 32)
                   (Z.lor word (Z.shiftl 1 (Z.land result 31)));
        Done (result,
              {| max_descriptors_ := max_descriptors_ h;
                 next_id_ := next_id;
                 alloc_map_ := <[result := owner]> (alloc_map_ h);
                 gpu_heap_state_ := bitmap |})
    end.

(** [DeleteId]: the heap after the call. *)
Definition DeleteId (h : DescriptorHeap) (id : Z) : outcome DescriptorHeap :=
  if decide (0 < max_descriptors_ h) then
    word ← load (gpu_heap_state_ h) (id `div` 32);
    bitmap ← store (gpu_heap_state_ h) (id `div` 32)
               (Z.land word (wrap32 (Z.lnot (Z.shiftl 1 (Z.land id 31)))));
    Done {| max_descriptors_ := max_descriptors_ h;
            next_id_ := next_id_ h;
            alloc_map_ := delete id (alloc_map_ h);
            gpu_heap_state_ := bitmap |}
  else Done h.

(** Bit [i] of the bitmap: word [i / 32], bit [i mod 32]; a word the buffer
    does not hold has no bit set. *)
Definition bit_set (bitmap : list Z) (i : Z) : bool :=
  match bitmap !! Z.to_nat (i `div` 32) with
  | Some word => Z.testbit word (i `mod` 32)
  | None => false
  end.

Definition live (h : DescriptorHeap) (i : Z) : Prop := is_Some (alloc_map_ h !! i).

(** The bitmap mirrors the live-identifier map on [0 .. max_descriptors_]. *)
Definition coherent (h : DescriptorHeap) : Prop :=
  ∀ i, 0 ≤ i ≤ max_descriptors_ h → bit_set (gpu_heap_state_ h) i = true ↔ live h i.

(** The states of a heap in use: a cursor in [1 .. max_descriptors_], live
    identifiers in the same range, and a bitmap with a bit for each of
    [0 .. max_descriptors_]. *)
Record heap_ok (h : DescriptorHeap) : Prop := {
  ok_capacity : 0 < max_descriptors_ h < 2 ^ 32 - 1;
  ok_cursor : 1 ≤ next_id_ h ≤ max_descriptors_ h;
  ok_live : ∀ i, live h i → 1 ≤ i ≤ max_descriptors_ h;
  ok_bitmap : max_descriptors_ h < 32 * Z.of_nat (length (gpu_heap_state_ h))
}.

(** The heaps a session can hold: the constructed one, and what calls of
    [NextId] and [DeleteId] that stay inside the bitmap buffer make of it. *)
Inductive reachable (C : Z) : DescriptorHeap → Prop :=
| reach_new : reachable C (DescriptorHeap_new C)
| reach_NextId h fuel owner result h' :
    reachable C h → NextId fuel h owner = Done (result, h') → reachable C h'
| reach_DeleteId h id h' :
    reachable C h → u32 id → DeleteId h id = Done h' → reachable C h'.

(** The candidates the scan looks at in its first [n] passes. *)
Fixpoint visited (n : nat) (max_descriptors next_id : Z) : list Z :=
  match n with
  | O => []
  | S n => next_id :: visited n max_descriptors (advance max_descriptors next_id)
  end.

(** ** Descriptors and the resources behind them *)

(** [vvl::DescriptorClass]. *)
Inductive DescriptorClass : Set :=
| PlainSampler
| ImageSampler
| Image
| TexelBuffer
| GeneralBuffer
| InlineUniform
| AccelerationStructure
| Mutable
| NoDescriptorClass.

Global Instance DescriptorClass_eq_dec : EqDecision DescriptorClass.
Proof. solve_decision. Defined.

(** [VkDescriptorType], of the Vulkan headers. *)
Inductive VkDescriptorType : Set :=
| VK_DESCRIPTOR_TYPE_SAMPLER
| VK_DESCRIPTOR_TYPE_COMBINED_IMAGE_SAMPLER
| VK_DESCRIPTOR_TYPE_SAMPLED_IMAGE
| VK_DESCRIPTOR_TYPE_STORAGE_IMAGE
| VK_DESCRIPTOR_TYPE_UNIFORM_TEXEL_BUFFER
| VK_DESCRIPTOR_TYPE_STORAGE_TEXEL_BUFFER
| VK_DESCRIPTOR_TYPE_UNIFORM_BUFFER
| VK_DESCRIPTOR_TYPE_STORAGE_BUFFER
| VK_DESCRIPTOR_TYPE_UNIFORM_BUFFER_DYNAMIC
| VK_DESCRIPTOR_TYPE_STORAGE_BUFFER_DYNAMIC
| VK_DESCRIPTOR_TYPE_INPUT_ATTACHMENT
| VK_DESCRIPTOR_TYPE_INLINE_UNIFORM_BLOCK_EXT
| VK_DESCRIPTOR_TYPE_ACCELERATION_STRUCTURE_KHR
| VK_DESCRIPTOR_TYPE_ACCELERATION_STRUCTURE_NV
| VK_DESCRIPTOR_TYPE_MUTABLE_EXT.

Global Instance VkDescriptorType_eq_dec : EqDecision VkDescriptorType.
Proof. solve_decision. Defined.

(** Modelled from the spec: [glsl::DescriptorState], the descriptor record
    of the snapshot, is declared in a header that is not part of this file.
    The spec gives it as [{ class_tag, primary_id, extent }], "extent
    defaults to 0 for classes with no extent semantics", and the default
    record as "{0,0,0}-equivalent": no class tag, identifier 0, extent 0. *)
Record DescriptorState : Set := {
  class_tag : option DescriptorClass;
  primary_id : Z;
  extent : Z
}.

Global Instance DescriptorState_eq_dec : EqDecision DescriptorState.
Proof. solve_decision. Defined.

(** [glsl::DescriptorState()]. *)
Definition DescriptorState_0 : DescriptorState :=
  {| class_tag := None; primary_id := 0; extent := 0 |}.

(** [glsl::DescriptorState(dc, id)]. *)
Definition DescriptorState_2 (dc : DescriptorClass) (id : Z) : DescriptorState :=
  {| class_tag := Some dc; primary_id := id; extent := 0 |}.

(** [glsl::DescriptorState(dc, id, extent)]. *)
Definition DescriptorState_3 (dc : DescriptorClass) (id extent : Z) : DescriptorState :=
  {| class_tag := Some dc; primary_id := id; extent := extent |}.

(** The state objects of the resources, as far as this file reads them:
    the identifier of each, [create_info.size] of a buffer, [Size()] of a
    buffer view and [vkuFormatElementSize(create_info.format)] of its
    format. *)
Record Buffer : Set := { Buffer_id : Z; Buffer_create_info_size : Z }.
Record BufferView : Set := {
  BufferView_id : Z;
  BufferView_Size : Z;
  BufferView_format_element_size : Z
}.
Record ImageView : Set := { ImageView_id : Z }.
Record Sampler : Set := { Sampler_id : Z }.
Record AccelerationStructureKHR : Set := { AccelerationStructureKHR_id : Z }.
Record AccelerationStructureNV : Set := { AccelerationStructureNV_id : Z }.

(** The descriptors of [vvl], by what their accessors return; [None] is a
    null state pointer. [Buffer_GetEffectiveRange] is the value of
    [GetEffectiveRange()], a [VkDeviceSize]. *)
Record BufferDescriptor : Set := {
  Buffer_GetBufferState : option Buffer;
  Buffer_GetEffectiveRange : Z
}.
Record TexelDescriptor : Set := { Texel_GetBufferViewState : option BufferView }.
Record ImageDescriptor : Set := { Image_GetImageViewState : option ImageView }.
Record SamplerDescriptor : Set := { Sampler_GetSamplerState : option Sampler }.
Record ImageSamplerDescriptor : Set := {
  ImageSampler_GetImageViewState : option ImageView;
  ImageSampler_GetSamplerState : option Sampler
}.
Record AccelerationStructureDescriptor : Set := {
  is_khr : bool;
  AS_GetAccelerationStructureStateKHR : option AccelerationStructureKHR;
  AS_GetAccelerationStructureStateNV : option AccelerationStructureNV
}.
Record MutableDescriptor : Set := {
  ActiveClass : DescriptorClass;
  GetSharedBufferState : option Buffer;
  GetSharedBufferViewState : option BufferView;
  GetSharedSamplerState : option Sampler;
  GetSharedImageViewState : option ImageView;
  IsAccelerationStructureKHR : bool;
  GetAccelerationStructureStateKHR : option AccelerationStructureKHR;
  GetAccelerationStructureStateNV : option AccelerationStructureNV
}.
Inductive InlineUniformDescriptor : Set := inline_uniform_descriptor.

(** ** Bindings *)

(** [vvl::DescriptorBindingImpl<T>]: the members of [vvl::DescriptorBinding]
    that this file reads, and the descriptors. *)
Record DescriptorBindingImpl (T : Type) : Type := {
  type : VkDescriptorType;
  binding : Z;
  count : Z;
  updated : list bool;
  descriptors : list T
}.

Arguments type {T} _.
Arguments binding {T} _.
Arguments count {T} _.
Arguments updated {T} _.
Arguments descriptors {T} _.

(** A binding of a set, by its dynamic type; the type fixes
    [descriptor_class]. *)
Inductive DescriptorBinding : Type :=
| InlineUniformBinding (b : DescriptorBindingImpl InlineUniformDescriptor)
| BufferBinding (b : DescriptorBindingImpl BufferDescriptor)
| TexelBinding (b : DescriptorBindingImpl TexelDescriptor)
| MutableBinding (b : DescriptorBindingImpl MutableDescriptor)
| SamplerBinding (b : DescriptorBindingImpl SamplerDescriptor)
| ImageSamplerBinding (b : DescriptorBindingImpl ImageSamplerDescriptor)
| ImageBinding (b : DescriptorBindingImpl ImageDescriptor)
| AccelerationStructureBinding (b : DescriptorBindingImpl AccelerationStructureDescriptor)
| UnclassifiedBinding (b : DescriptorBindingImpl Empty_set).

Definition descriptor_class (b : DescriptorBinding) : DescriptorClass :=
  match b with
  | InlineUniformBinding _ => InlineUniform
  | BufferBinding _ => GeneralBuffer
  | TexelBinding _ => TexelBuffer
  | MutableBinding _ => Mutable
  | SamplerBinding _ => PlainSampler
  | ImageSamplerBinding _ => ImageSampler
  | ImageBinding _ => Image
  | AccelerationStructureBinding _ => AccelerationStructure
  | UnclassifiedBinding _ => NoDescriptorClass
  end.

(** A member of the base class [vvl::DescriptorBinding], read through a
    pointer to the base. *)
Definition base_member {R : Type} (member : ∀ T, DescriptorBindingImpl T → R)
    (b : DescriptorBinding) : R :=
  match b with
  | InlineUniformBinding i => member _ i
  | BufferBinding i => member _ i
  | TexelBinding i => member _ i
  | MutableBinding i => member _ i
  | SamplerBinding i => member _ i
  | ImageSamplerBinding i => member _ i
  | ImageBinding i => member _ i
  | AccelerationStructureBinding i => member _ i
  | UnclassifiedBinding i => member _ i
  end.

Definition binding_type : DescriptorBinding → VkDescriptorType := base_member (@type).
Definition binding_index : DescriptorBinding → Z := base_member (@binding).
Definition binding_count : DescriptorBinding → Z := base_member (@count).

(** What a binding adds to the running offset of the layout and to the
    number of records of a snapshot. *)
Definition element_count (b : DescriptorBinding) : Z :=
  if decide (binding_type b = VK_DESCRIPTOR_TYPE_INLINE_UNIFORM_BLOCK_EXT) then 1
  else binding_count b.

(** The elements of a list of bindings, added up as a [uint32_t]: the
    running offset of the layout, and the number of records of a snapshot. *)
Definition count_descriptors (bindings : list DescriptorBinding) : Z :=
  foldl (λ descriptor_count b, wrap32 (descriptor_count + element_count b)) 0 bindings.

(** ** Device buffers and snapshots *)

(** An [AddressBuffer] whose memory is read as an array of [T]: the
    allocation, when there is one, with its cells, and the device address. *)
Record AddressBuffer (T : Type) : Type := {
  allocation : option (list T);
  device_addr : Z
}.

Arguments allocation {T} _.
Arguments device_addr {T} _.

(** [glsl::BindingLayout]. *)
Record BindingLayout : Set := { layout_count : Z; state_start : Z }.

Global Instance BindingLayout_eq_dec : EqDecision BindingLayout.
Proof. solve_decision. Defined.

(** [DescriptorSet::State]. *)
Record State (T : Type) : Type := {
  set : Z;
  version : Z;
  buffer : AddressBuffer T
}.

Arguments set {T} _.
Arguments version {T} _.
Arguments buffer {T} _.

(** A [std::shared_ptr]: the address of the object it shares, and the
    object. Two pointers are the same reference when the addresses agree. *)
Record shared_ptr (A : Type) : Type := { ptr : positive; pointee : A }.

Arguments ptr {A} _.
Arguments pointee {A} _.

(** [std::make_shared]: an address no live object has. *)
Definition make_shared {A : Type} (objects : gset positive) (a : A)
    : shared_ptr A * gset positive :=
  let p := fresh objects in ({| ptr := p; pointee := a |}, {[p]} ∪ objects).

(** A cell of a mapped snapshot buffer: [None] until it is written. *)
Abbreviation cell := (option DescriptorState).

(** [gpuav::DescriptorSet]. [GetBindingCount] and [GetMaxBinding] are what
    the set and its layout answer; their code is outside this file. *)
Record DescriptorSet : Type := {
  VkHandle : Z;
  GetBindingCount : Z;
  GetMaxBinding : Z;
  bindings_ : list DescriptorBinding;
  layout_ : AddressBuffer BindingLayout;
  current_version_ : Z;
  last_used_state_ : option (shared_ptr (State cell));
  output_state_ : option (shared_ptr (State Z))
}.

(** A loop body run over a list, stopping at the first undefined step. *)
Fixpoint for_each {A B : Type} (body : B → A → outcome B) (b : B) (l : list A) : outcome B :=
  match l with
  | [] => Done b
  | a :: l => b ← body b a; for_each body b l
  end.

(** ** The layout buffer *)

(** The body of the loop of [GetLayoutState]. *)
Definition GetLayoutState_step (st : list BindingLayout * Z) (b : DescriptorBinding)
    : outcome (list BindingLayout * Z) :=
  let '(layout_data, start) := st in
  if decide (VK_DESCRIPTOR_TYPE_INLINE_UNIFORM_BLOCK_EXT = binding_type b) then
    layout_data ← store layout_data (wrap32 (binding_index b + 1))
                    {| layout_count := 1; state_start := start |};
    Done (layout_data, wrap32 (start + 1))
  else
    layout_data ← store layout_data (wrap32 (binding_index b + 1))
                    {| layout_count := binding_count b; state_start := start |};
    Done (layout_data, wrap32 (start + binding_count b)).

(** The local [num_bindings] of [GetLayoutState]. *)
Definition num_bindings (ds : DescriptorSet) : Z :=
  if decide (0 < GetBindingCount ds) then wrap32 (GetMaxBinding ds + 1) else 0.

(** [GetLayoutState]; [addr] is the device address the new buffer gets. *)
Definition GetLayoutState (addr : Z) (ds : DescriptorSet) : outcome (Z * DescriptorSet) :=
  if decide (device_addr (layout_ ds) ≠ 0) then Done (device_addr (layout_ ds), ds)
  else
    let num_bindings := num_bindings ds in
    let layout_data :=
      replicate (Z.to_nat (wrap32 (1 + num_bindings)))
        {| layout_count := 0; state_start := 0 |} in
    layout_data ← store layout_data 0 {| layout_count := num_bindings; state_start := 0 |};
    '(layout_data, _) ← for_each GetLayoutState_step (layout_data, 0) (bindings_ ds);
    Done (addr,
          {| VkHandle := VkHandle ds;
             GetBindingCount := GetBindingCount ds;
             GetMaxBinding := GetMaxBinding ds;
             bindings_ := bindings_ ds;
             layout_ := {| allocation := Some layout_data; device_addr := addr |};
             current_version_ := current_version_ ds;
             last_used_state_ := last_used_state_ ds;
             output_state_ := output_state_ ds |}).

(** ** The snapshot of the descriptors of a set *)

Section Snapshot.

(** [glsl::kDebugInputBindlessSkipId], the identifier written for a
    descriptor to skip. The constant is declared in a header of the shaders;
    nothing here depends on its value. *)
Variable kDebugInputBindlessSkipId : Z.

Definition GetInData_Buffer (desc : BufferDescriptor) : outcome DescriptorState :=
  match Buffer_GetBufferState desc with
  | None => Done (DescriptorState_3 GeneralBuffer kDebugInputBindlessSkipId kU32Max)
  | Some buffer_state =>
      Done (DescriptorState_3 GeneralBuffer (Buffer_id buffer_state)
              (wrap32 (Buffer_GetEffectiveRange desc)))
  end.

Definition GetInData_Texel (desc : TexelDescriptor) : outcome DescriptorState :=
  match Texel_GetBufferViewState desc with
  | None => Done (DescriptorState_3 TexelBuffer kDebugInputBindlessSkipId kU32Max)
  | Some buffer_view_state =>
      let view_size := BufferView_Size buffer_view_state in
      if decide (BufferView_format_element_size buffer_view_state = 0)
      then Undefined DivisionByZero
      else
        let res_size :=
          wrap32 (view_size `div` BufferView_format_element_size buffer_view_state) in
        Done (DescriptorState_3 TexelBuffer (BufferView_id buffer_view_state) res_size)
  end.

Definition GetInData_Image (desc : ImageDescriptor) : outcome DescriptorState :=
  Done (DescriptorState_2 Image
          (match Image_GetImageViewState desc with
           | Some image_state => ImageView_id image_state
           | None => kDebugInputBindlessSkipId
           end)).

Definition GetInData_Sampler (desc : SamplerDescriptor) : outcome DescriptorState :=
  match Sampler_GetSamplerState desc with
  | Some sampler_state => Done (DescriptorState_2 PlainSampler (Sampler_id sampler_state))
  | None => Undefined NullDereference
  end.

Definition GetInData_ImageSampler (desc : ImageSamplerDescriptor) : outcome DescriptorState :=
  Done (DescriptorState_3 ImageSampler
          (match ImageSampler_GetImageViewState desc with
           | Some image_state => ImageView_id image_state
           | None => kDebugInputBindlessSkipId
           end)
          (match ImageSampler_GetSamplerState desc with
           | Some sampler_state => Sampler_id sampler_state
           | None => 0
           end)).

Definition GetInData_AccelerationStructure (ac : AccelerationStructureDescriptor)
    : outcome DescriptorState :=
  let id :=
    if is_khr ac then
      match AS_GetAccelerationStructureStateKHR ac with
      | Some ac_state => AccelerationStructureKHR_id ac_state
      | None => kDebugInputBindlessSkipId
      end
    else
      match AS_GetAccelerationStructureStateNV ac with
      | Some ac_state => AccelerationStructureNV_id ac_state
      | None => kDebugInputBindlessSkipId
      end in
  Done (DescriptorState_2 AccelerationStructure id).

(** Whether the file is compiled with [NDEBUG], which turns [assert] into
    nothing. *)
Variable NDEBUG : bool.

(** The [default] case is [assert(false)]: the program stops there, unless
    assertions are compiled out and the function goes on to its last
    [return]. *)
Definition GetInData_Mutable (desc : MutableDescriptor) : outcome DescriptorState :=
  let desc_class := ActiveClass desc in
  match desc_class with
  | GeneralBuffer =>
      match GetSharedBufferState desc with
      | None => Done (DescriptorState_3 desc_class kDebugInputBindlessSkipId kU32Max)
      | Some buffer_state =>
          Done (DescriptorState_3 desc_class (Buffer_id buffer_state)
                  (wrap32 (Buffer_create_info_size buffer_state)))
      end
  | TexelBuffer =>
      match GetSharedBufferViewState desc with
      | None => Done (DescriptorState_3 desc_class kDebugInputBindlessSkipId kU32Max)
      | Some buffer_view_state =>
          let view_size := BufferView_Size buffer_view_state in
          if decide (BufferView_format_element_size buffer_view_state = 0)
          then Undefined DivisionByZero
          else
            let res_size :=
              wrap32 (view_size `div` BufferView_format_element_size buffer_view_state) in
            Done (DescriptorState_3 desc_class (BufferView_id buffer_view_state) res_size)
      end
  | PlainSampler =>
      match GetSharedSamplerState desc with
      | Some sampler_state => Done (DescriptorState_2 desc_class (Sampler_id sampler_state))
      | None => Undefined NullDereference
      end
  | ImageSampler =>
      Done (DescriptorState_3 desc_class
              (match GetSharedImageViewState desc with
               | Some image_state => ImageView_id image_state
               | None => kDebugInputBindlessSkipId
               end)
              (match GetSharedSamplerState desc with
               | Some sampler_state => Sampler_id sampler_state
               | None => 0
               end))
  | Image =>
      Done (DescriptorState_2 desc_class
              (match GetSharedImageViewState desc with
               | Some image_state => ImageView_id image_state
               | None => kDebugInputBindlessSkipId
               end))
  | AccelerationStructure =>
      let id :=
        if IsAccelerationStructureKHR desc then
          match GetAccelerationStructureStateKHR desc with
          | Some ac_state => AccelerationStructureKHR_id ac_state
          | None => kDebugInputBindlessSkipId
          end
        else
          match GetAccelerationStructureStateNV desc with
          | Some ac_state => AccelerationStructureNV_id ac_state
          | None => kDebugInputBindlessSkipId
          end in
      Done (DescriptorState_2 desc_class id)
  | _ =>
      if NDEBUG then Done (DescriptorState_3 desc_class kDebugInputBindlessSkipId kU32Max)
      else Undefined AssertionFailed
  end.

(** The body of the loop of the template [FillBindingInData], for the
    element [di]. *)
Definition FillBindingInData_step {T : Type} (GetInData : T → outcome DescriptorState)
    (binding : DescriptorBindingImpl T) (st : list cell * Z) (di : Z)
    : outcome (list cell * Z) :=
  let '(data, index) := st in
  is_updated ← load (updated binding) di;
  if negb is_updated then
    data ← store data index (Some DescriptorState_0);
    Done (data, wrap32 (index + 1))
  else
    desc ← load (descriptors binding) di;
    in_data ← GetInData desc;
    data ← store data index (Some in_data);
    Done (data, wrap32 (index + 1)).

(** The template [FillBindingInData]: the cells written and the index left. *)
Definition FillBindingInData {T : Type} (GetInData : T → outcome DescriptorState)
    (binding : DescriptorBindingImpl T) (data : list cell) (index : Z)
    : outcome (list cell * Z) :=
  for_each (FillBindingInData_step GetInData binding) (data, index)
    (seqZ 0 (count binding)).

(** Its specialisation for [vvl::InlineUniformBinding]. *)
Definition FillBindingInData_InlineUniform
    (binding : DescriptorBindingImpl InlineUniformDescriptor) (data : list cell) (index : Z)
    : outcome (list cell * Z) :=
  data ← store data index
           (Some (DescriptorState_3 InlineUniform kDebugInputBindlessSkipId kU32Max));
  Done (data, wrap32 (index + 1)).

(** The [switch] of [GetCurrentState] on the class of a binding. For
    [NoDescriptorClass] an internal error is reported and nothing is
    written. *)
Definition fill_binding (st : list cell * Z) (b : DescriptorBinding)
    : outcome (list cell * Z) :=
  let '(data, index) := st in
  match b with
  | InlineUniformBinding binding => FillBindingInData_InlineUniform binding data index
  | BufferBinding binding => FillBindingInData GetInData_Buffer binding data index
  | TexelBinding binding => FillBindingInData GetInData_Texel binding data index
  | MutableBinding binding => FillBindingInData GetInData_Mutable binding data index
  | SamplerBinding binding => FillBindingInData GetInData_Sampler binding data index
  | ImageSamplerBinding binding => FillBindingInData GetInData_ImageSampler binding data index
  | ImageBinding binding => FillBindingInData GetInData_Image binding data index
  | AccelerationStructureBinding binding =>
      FillBindingInData GetInData_AccelerationStructure binding data index
  | UnclassifiedBinding _ => Done (data, index)
  end.

Definition set_last_used_state_ (ds : DescriptorSet) (s : shared_ptr (State cell))
    : DescriptorSet :=
  {| VkHandle := VkHandle ds;
     GetBindingCount := GetBindingCount ds;
     GetMaxBinding := GetMaxBinding ds;
     bindings_ := bindings_ ds;
     layout_ := layout_ ds;
     current_version_ := current_version_ ds;
     last_used_state_ := Some s;
     output_state_ := output_state_ ds |}.

(** The write of [next_state->buffer], through the shared pointer. *)
Definition set_buffer {T : Type} (s : shared_ptr (State T)) (b : AddressBuffer T)
    : shared_ptr (State T) :=
  {| ptr := ptr s;
     pointee := {| set := set (pointee s); version := version (pointee s); buffer := b |} |}.

(** [GetCurrentState] from [std::make_shared] on: the snapshot is built
    anew. [objects] are the addresses of the live objects and [addr] the
    device address a new buffer gets. *)
Definition build_current_state (objects : gset positive) (addr : Z) (ds : DescriptorSet)
    : outcome (shared_ptr (State cell) * DescriptorSet * gset positive) :=
  let cur_version := current_version_ ds in
  let '(next_state, objects) :=
    make_shared objects
      {| set := VkHandle ds; version := cur_version;
         buffer := {| allocation := None; device_addr := 0 |} |} in
  let descriptor_count :=
    if decide (0 < GetBindingCount ds) then count_descriptors (bindings_ ds) else 0 in
  if decide (descriptor_count = 0) then
    Done (next_state, set_last_used_state_ ds next_state, objects)
  else
    let data := replicate (Z.to_nat descriptor_count) (None : cell) in
    '(data, _) ← for_each fill_binding (data, 0) (bindings_ ds);
    let next_state :=
      set_buffer next_state {| allocation := Some data; device_addr := addr |} in
    Done (next_state, set_last_used_state_ ds next_state, objects).

(** [GetCurrentState]: the snapshot returned, the set and the live objects
    after the call. *)
Definition GetCurrentState (objects : gset positive) (addr : Z) (ds : DescriptorSet)
    : outcome (shared_ptr (State cell) * DescriptorSet * gset positive) :=
  let cur_version := current_version_ ds in
  match last_used_state_ ds with
  | Some cached =>
      if decide (version (pointee cached) = cur_version) then Done (cached, ds, objects)
      else build_current_state objects addr ds
  | None => build_current_state objects addr ds
  end.

(** ** The output buffer and its read-back *)

Definition set_output_state_ (ds : DescriptorSet) (s : shared_ptr (State Z)) : DescriptorSet :=
  {| VkHandle := VkHandle ds;
     GetBindingCount := GetBindingCount ds;
     GetMaxBinding := GetMaxBinding ds;
     bindings_ := bindings_ ds;
     layout_ := layout_ ds;
     current_version_ := current_version_ ds;
     last_used_state_ := last_used_state_ ds;
     output_state_ := Some s |}.

Definition GetOutputState (objects : gset positive) (addr : Z) (ds : DescriptorSet)
    : shared_ptr (State Z) * DescriptorSet * gset positive :=
  let cur_version := current_version_ ds in
  match output_state_ ds with
  | Some cached => (cached, ds, objects)
  | None =>
      let '(next_state, objects) :=
        make_shared objects
          {| set := VkHandle ds; version := cur_version;
             buffer := {| allocation := None; device_addr := 0 |} |} in
      let descriptor_count := count_descriptors (bindings_ ds) in
      if decide (descriptor_count = 0) then
        (next_state, set_output_state_ ds next_state, objects)
      else
        let data := replicate (Z.to_nat descriptor_count) 0 in
        let next_state :=
          set_buffer next_state {| allocation := Some data; device_addr := addr |} in
        (next_state, set_output_state_ ds next_state, objects)
  end.

(** [used_descs.emplace(binding, ...)] and [emplace_back(i)] on the entry. *)
Definition add_used (used_descs : gmap Z (list Z)) (binding i : Z) : gmap Z (list Z) :=
  <[binding := default [] (used_descs !! binding) ++ [i]]> used_descs.

(** The inner loop of [UsedDescriptors], over the elements of a binding. *)
Definition UsedDescriptors_element (data : list Z) (shader_set binding start : Z)
    (used_descs : gmap Z (list Z)) (i : Z) : outcome (gmap Z (list Z)) :=
  let pos := wrap32 (start + i) in
  word ← load data pos;
  if decide (word = shader_set) then Done (add_used used_descs binding i)
  else Done used_descs.

(** The outer loop, over the bindings of the layout. *)
Definition UsedDescriptors_binding (layout_data : list BindingLayout) (data : list Z)
    (shader_set : Z) (used_descs : gmap Z (list Z)) (binding : Z)
    : outcome (gmap Z (list Z)) :=
  layout ← load layout_data (binding + 1);
  for_each (UsedDescriptors_element data shader_set binding (state_start layout))
    used_descs (seqZ 0 (layout_count layout)).

(** [DescriptorSet::State::UsedDescriptors]. Mapping a layout buffer that
    was never made leaves [layout_data] null. *)
Definition UsedDescriptors (st : State Z) (ds : DescriptorSet) (shader_set : Z)
    : outcome (gmap Z (list Z)) :=
  match allocation (buffer st) with
  | None => Done ∅
  | Some data =>
      match allocation (layout_ ds) with
      | None => Undefined NullDereference
      | Some layout_data =>
          header ← load layout_data 0;
          let max_binding := layout_count header in
          for_each (UsedDescriptors_binding layout_data data shader_set) ∅
            (seqZ 0 max_binding)
      end
  end.

(** ** Updates of a set *)

(** The updates of the base class [vvl::DescriptorSet], whose code is
    outside this file: they change the bindings and nothing that
    [gpuav::DescriptorSet] adds. *)
Variable VkWriteDescriptorSet VkCopyDescriptorSet : Type.
Variable vvl_PerformWriteUpdate :
  VkWriteDescriptorSet → list DescriptorBinding → list DescriptorBinding.
Variable vvl_PerformCopyUpdate :
  VkCopyDescriptorSet → DescriptorSet → list DescriptorBinding → list DescriptorBinding.
Variable vvl_PerformPushDescriptorsUpdate :
  Z → list VkWriteDescriptorSet → list DescriptorBinding → list DescriptorBinding.

(** The set after the base class has updated the bindings and
    [current_version_++] has run. *)
Definition updated_set (ds : DescriptorSet) (bindings : list DescriptorBinding)
    : DescriptorSet :=
  {| VkHandle := VkHandle ds;
     GetBindingCount := GetBindingCount ds;
     GetMaxBinding := GetMaxBinding ds;
     bindings_ := bindings;
     layout_ := layout_ ds;
     current_version_ := wrap32 (current_version_ ds + 1);
     last_used_state_ := last_used_state_ ds;
     output_state_ := output_state_ ds |}.

Definition PerformPushDescriptorsUpdate (write_count : Z)
    (write_descs : list VkWriteDescriptorSet) (ds : DescriptorSet) : DescriptorSet :=
  updated_set ds (vvl_PerformPushDescriptorsUpdate write_count write_descs (bindings_ ds)).

Definition PerformWriteUpdate (write_desc : VkWriteDescriptorSet) (ds : DescriptorSet)
    : DescriptorSet :=
  updated_set ds (vvl_PerformWriteUpdate write_desc (bindings_ ds)).

Definition PerformCopyUpdate (copy_desc : VkCopyDescriptorSet) (src_set : DescriptorSet)
    (ds : DescriptorSet) : DescriptorSet :=
  updated_set ds (vvl_PerformCopyUpdate copy_desc src_set (bindings_ ds)).

End Snapshot.

(** ** Sets whose snapshot can be built *)

(** A binding that the template [FillBindingInData] fills without undefined
    behaviour: an update flag for each of its [count] elements, and for each
    updated element a descriptor that [GetInData] reads. *)
Definition binding_defined {T : Type} (GetInData : T → outcome DescriptorState)
    (b : DescriptorBindingImpl T) : Prop :=
  0 ≤ count b ∧
  Z.of_nat (length (updated b)) = count b ∧
  ∀ di, updated b !! di = Some true →
    ∃ desc in_data, descriptors b !! di = Some desc ∧ GetInData desc = Done in_data.

(** The same for a binding of any class; the descriptor type is that of an
    inline uniform block exactly for the class [InlineUniform]. *)
Definition fill_defined (skip : Z) (ndebug : bool) (b : DescriptorBinding) : Prop :=
  match b with
  | InlineUniformBinding i => type i = VK_DESCRIPTOR_TYPE_INLINE_UNIFORM_BLOCK_EXT
  | BufferBinding i =>
      type i ≠ VK_DESCRIPTOR_TYPE_INLINE_UNIFORM_BLOCK_EXT ∧
      binding_defined (GetInData_Buffer skip) i
  | TexelBinding i =>
      type i ≠ VK_DESCRIPTOR_TYPE_INLINE_UNIFORM_BLOCK_EXT ∧
      binding_defined (GetInData_Texel skip) i
  | MutableBinding i =>
      type i ≠ VK_DESCRIPTOR_TYPE_INLINE_UNIFORM_BLOCK_EXT ∧
      binding_defined (GetInData_Mutable skip ndebug) i
  | SamplerBinding i =>
      type i ≠ VK_DESCRIPTOR_TYPE_INLINE_UNIFORM_BLOCK_EXT ∧
      binding_defined GetInData_Sampler i
  | ImageSamplerBinding i =>
      type i ≠ VK_DESCRIPTOR_TYPE_INLINE_UNIFORM_BLOCK_EXT ∧
      binding_defined (GetInData_ImageSampler skip) i
  | ImageBinding i =>
      type i ≠ VK_DESCRIPTOR_TYPE_INLINE_UNIFORM_BLOCK_EXT ∧
      binding_defined (GetInData_Image skip) i
  | AccelerationStructureBinding i =>
      type i ≠ VK_DESCRIPTOR_TYPE_INLINE_UNIFORM_BLOCK_EXT ∧
      binding_defined (GetInData_AccelerationStructure skip) i
  | UnclassifiedBinding i =>
      type i ≠ VK_DESCRIPTOR_TYPE_INLINE_UNIFORM_BLOCK_EXT ∧ 0 ≤ count i
  end.

(** The elements of a list of bindings, added up without wrap-around. *)
Definition total_elements (bindings : list DescriptorBinding) : Z :=
  foldr (λ b n, element_count b + n) 0 bindings.

(** A set whose bindings can all be filled and whose elements can be
    counted in a [uint32_t]. *)
Definition snapshot_defined (skip : Z) (ndebug : bool) (ds : DescriptorSet) : Prop :=
  Forall (fill_defined skip ndebug) (bindings_ ds) ∧ total_elements (bindings_ ds) < 2 ^ 32.

(** ** Further notions for the identifier heap *)

(** The heap of capacity 3 after two calls of [NextId]. *)
Definition example_heap_2 : DescriptorHeap :=
  {| max_descriptors_ := 3; next_id_ := 3;
     alloc_map_ := <[2 := {| handle := 4096; object_type := 23 |}]>
                     {[1 := {| handle := 4096; object_type := 23 |}]};
     gpu_heap_state_ := [6] |}.

(** The words of the bitmap are [uint32_t]. *)
Definition words_u32 (h : DescriptorHeap) : Prop := Forall u32 (gpu_heap_state_ h).

(** [n] calls of [NextId] in a row, for the same owner: the identifiers
    returned, in order, and the heap left. *)
Fixpoint NextId_times (fuel n : nat) (h : DescriptorHeap) (owner : VulkanTypedHandle)
    : outcome (list Z * DescriptorHeap) :=
  match n with
  | O => Done ([], h)
  | S n =>
      '(result, h) ← NextId fuel h owner;
      '(results, h) ← NextId_times fuel n h owner;
      Done (result :: results, h)
  end.

(** The heap of capacity [C] after the identifiers [1 .. k] were handed out
    in a row. *)
Definition handed_out (C k : Z) (h : DescriptorHeap) : Prop :=
  heap_ok h ∧ max_descriptors_ h = C ∧
  Z.of_nat (size (alloc_map_ h)) = k ∧
  (∀ i, live h i ↔ 1 ≤ i ≤ k) ∧
  next_id_ h = (if decide (k = C) then 1 else k + 1).

(** ** Examples *)

Definition example_owner : VulkanTypedHandle := {| handle := 4096; object_type := 23 |}.

(** A heap of capacity 3 after one call of [NextId]. *)
Definition example_heap : DescriptorHeap :=
  {| max_descriptors_ := 3; next_id_ := 2;
     alloc_map_ := {[1 := example_owner]}; gpu_heap_state_ := [2] |}.

Definition example_buffer : Buffer := {| Buffer_id := 7; Buffer_create_info_size := 64 |}.

(** A general-buffer descriptor bound to 16 bytes of [example_buffer]. *)
Definition example_buffer_descriptor : BufferDescriptor :=
  {| Buffer_GetBufferState := Some example_buffer; Buffer_GetEffectiveRange := 16 |}.

(** A mutable descriptor whose active class is [dc], with the states given
    and no other. *)
Definition mutable_descriptor (dc : DescriptorClass) (buffer_state : option Buffer)
    (sampler_state : option Sampler) : MutableDescriptor :=
  {| ActiveClass := dc;
     GetSharedBufferState := buffer_state;
     GetSharedBufferViewState := None;
     GetSharedSamplerState := sampler_state;
     GetSharedImageViewState := None;
     IsAccelerationStructureKHR := false;
     GetAccelerationStructureStateKHR := None;
     GetAccelerationStructureStateNV := None |}.

(** A sampler descriptor that was updated and whose sampler state is gone,
    and a set with one binding of it. *)
Definition dead_sampler_descriptor : SamplerDescriptor :=
  {| Sampler_GetSamplerState := None |}.

Definition dead_sampler_binding : DescriptorBindingImpl SamplerDescriptor :=
  {| type := VK_DESCRIPTOR_TYPE_SAMPLER; binding := 0; count := 1;
     updated := [true]; descriptors := [dead_sampler_descriptor] |}.

Definition dead_sampler_set : DescriptorSet :=
  {| VkHandle := 1; GetBindingCount := 1; GetMaxBinding := 0;
     bindings_ := [SamplerBinding dead_sampler_binding];
     layout_ := {| allocation := None; device_addr := 0 |};
     current_version_ := 0; last_used_state_ := None; output_state_ := None |}.

(** A general-buffer descriptor with no buffer. *)
Definition null_buffer_descriptor : BufferDescriptor :=
  {| Buffer_GetBufferState := None; Buffer_GetEffectiveRange := 0 |}.

(** A general-buffer binding of one element that was never updated. *)
Definition unwritten_buffer_binding : DescriptorBindingImpl BufferDescriptor :=
  {| type := VK_DESCRIPTOR_TYPE_STORAGE_BUFFER; binding := 0; count := 1;
     updated := [false];
     descriptors := [null_buffer_descriptor] |}.

(** The set of the comment in [GetLayoutState]: binding 0 an array of 3,
    binding 1 not an array, binding 3 an array of 2, none of them updated. *)
Definition layout_example_bindings : list DescriptorBinding :=
  [ BufferBinding {| type := VK_DESCRIPTOR_TYPE_STORAGE_BUFFER; binding := 0; count := 3;
                     updated := [false; false; false];
                     descriptors := replicate 3 null_buffer_descriptor |};
    ImageBinding {| type := VK_DESCRIPTOR_TYPE_SAMPLED_IMAGE; binding := 1; count := 1;
                    updated := [false];
                    descriptors := [ {| Image_GetImageViewState := None |} ] |};
    BufferBinding {| type := VK_DESCRIPTOR_TYPE_UNIFORM_BUFFER; binding := 3; count := 2;
                     updated := [false; false];
                     descriptors := replicate 2 null_buffer_descriptor |} ].

Definition layout_example_set : DescriptorSet :=
  {| VkHandle := 1; GetBindingCount := 3; GetMaxBinding := 3;
     bindings_ := layout_example_bindings;
     layout_ := {| allocation := None; device_addr := 0 |};
     current_version_ := 0; last_used_state_ := None; output_state_ := None |}.

(** What the layout of a set must satisfy for its layout buffer to hold
    a record for each binding: bindings at indices up to [GetMaxBinding],
    a positive [GetBindingCount] when there is a binding, and
    [GetMaxBinding + 2] records that can be counted in a [uint32_t]. *)
Record layout_fits (ds : DescriptorSet) : Prop := {
  fits_count : bindings_ ds ≠ [] → 0 < GetBindingCount ds;
  fits_max : 0 < GetBindingCount ds → 0 ≤ GetMaxBinding ds ≤ 2 ^ 32 - 3;
  fits_index : Forall (λ b, 0 ≤ binding_index b ≤ GetMaxBinding ds) (bindings_ ds)
}.

(** An output buffer has the tag in the cell [i] of the elements that start
    at [start]. *)
Definition tagged (data : list Z) (shader_set start i : Z) : Prop :=
  data !! Z.to_nat (wrap32 (start + i)) = Some shader_set.

Global Instance tagged_dec data shader_set start i : Decision (tagged data shader_set start i).
Proof. unfold tagged. apply _. Defined.

(** The elements of a binding whose cell has the tag, in ascending order,
    and the entry of the binding in the result: none when no element has it. *)
Definition used_elements (data : list Z) (shader_set : Z) (layout : BindingLayout) : list Z :=
  filter (tagged data shader_set (state_start layout)) (seqZ 0 (layout_count layout)).

Definition used_entry (l : list Z) : option (list Z) :=
  match l with [] => None | _ => Some l end.

(** A layout with binding 0 of 3 elements at offset 0, and an output buffer
    whose cells 0 and 2 hold the tag 5 and whose cell 1 does not. *)
Definition used_example_set : DescriptorSet :=
  {| VkHandle := 1; GetBindingCount := 1; GetMaxBinding := 0;
     bindings_ := [];
     layout_ := {| allocation := Some [ {| layout_count := 1; state_start := 0 |};
                                        {| layout_count := 3; state_start := 0 |} ];
                   device_addr := 4096 |};
     current_version_ := 0; last_used_state_ := None; output_state_ := None |}.

Definition used_example_state : State Z :=
  {| set := 1; version := 0;
     buffer := {| allocation := Some [5; 0; 5]; device_addr := 8192 |} |}.

(** One update of a set: a write, a copy or a push of descriptors, with
    whatever the base class does to the bindings. *)
Inductive updates (ds : DescriptorSet) : DescriptorSet → Prop :=
| updates_write (VkWriteDescriptorSet : Type)
    (vvl_PerformWriteUpdate :
       VkWriteDescriptorSet → list DescriptorBinding → list DescriptorBinding)
    (write_desc : VkWriteDescriptorSet) :
    updates ds (PerformWriteUpdate VkWriteDescriptorSet vvl_PerformWriteUpdate write_desc ds)
| updates_copy (VkCopyDescriptorSet : Type)
    (vvl_PerformCopyUpdate :
       VkCopyDescriptorSet → DescriptorSet → list DescriptorBinding → list DescriptorBinding)
    (copy_desc : VkCopyDescriptorSet) (src_set : DescriptorSet) :
    updates ds
      (PerformCopyUpdate VkCopyDescriptorSet vvl_PerformCopyUpdate copy_desc src_set ds)
| updates_push (VkWriteDescriptorSet : Type)
    (vvl_PerformPushDescriptorsUpdate :
       Z → list VkWriteDescriptorSet → list DescriptorBinding → list DescriptorBinding)
    (write_count : Z) (write_descs : list VkWriteDescriptorSet) :
    updates ds
      (PerformPushDescriptorsUpdate VkWriteDescriptorSet vvl_PerformPushDescriptorsUpdate
         write_count write_descs ds).

(** A set with one image binding of two elements, of which the first was
    updated, and no snapshot yet. *)
Definition snapshot_example_set : DescriptorSet :=
  {| VkHandle := 1; GetBindingCount := 1; GetMaxBinding := 0;
     bindings_ :=
       [ ImageBinding {| type := VK_DESCRIPTOR_TYPE_SAMPLED_IMAGE; binding := 0; count := 2;
                         updated := [true; false];
                         descriptors :=
                           [ {| Image_GetImageViewState := Some {| ImageView_id := 9 |} |};
                             {| Image_GetImageViewState := None |} ] |} ];
     layout_ := {| allocation := None; device_addr := 0 |};
     current_version_ := 0; last_used_state_ := None; output_state_ := None |}.

(** Its first snapshot, built with no other object live and the buffer at
    the device address 12288, for the skip identifier 77. *)
Definition snapshot_example : shared_ptr (State cell) :=
  {| ptr := fresh (∅ : gset positive);
     pointee :=
       {| set := 1; version := 0;
          buffer := {| allocation := Some [ Some (DescriptorState_2 Image 9);
                                            Some DescriptorState_0 ];
                       device_addr := 12288 |} |} |}.

(** The set after that call and a write that leaves the bindings as they
    are. *)
Definition snapshot_example_written : DescriptorSet :=
  PerformWriteUpdate unit (λ _ bindings, bindings) ()
    (set_last_used_state_ snapshot_example_set snapshot_example).

(** ** Further notions for descriptor sets *)

(** [n] updates of a set, one after the other. *)
Inductive updates_n : nat → DescriptorSet → DescriptorSet → Prop :=
| updates_none ds : updates_n 0 ds ds
| updates_more n ds ds1 ds2 :
    updates_n n ds ds1 → updates ds1 ds2 → updates_n (S n) ds ds2.

(** Two sets that differ at most in their layout buffer. *)
Definition same_but_layout (ds ds1 : DescriptorSet) : Prop :=
  VkHandle ds1 = VkHandle ds ∧ GetBindingCount ds1 = GetBindingCount ds ∧
  GetMaxBinding ds1 = GetMaxBinding ds ∧ bindings_ ds1 = bindings_ ds ∧
  current_version_ ds1 = current_version_ ds ∧
  last_used_state_ ds1 = last_used_state_ ds ∧ output_state_ ds1 = output_state_ ds.

(** The cell that the template [FillBindingInData] writes for the element
    [di] of a binding: the default record when the element was never
    updated, what [GetInData] reads from its descriptor otherwise. *)
Definition element_record {T : Type} (GetInData : T → outcome DescriptorState)
    (b : DescriptorBindingImpl T) (di : nat) : cell :=
  match updated b !! di with
  | Some true =>
      match descriptors b !! di with
      | Some desc => match GetInData desc with Done in_data => Some in_data | _ => None end
      | None => None
      end
  | Some false => Some DescriptorState_0
  | None => None
  end.

(** The cell of the element [di] of a binding of any class; an inline
    uniform block has one element. *)
Definition binding_record (skip : Z) (ndebug : bool) (b : DescriptorBinding) (di : nat) : cell :=
  match b with
  | InlineUniformBinding _ => Some (DescriptorState_3 InlineUniform skip kU32Max)
  | BufferBinding i => element_record (GetInData_Buffer skip) i di
  | TexelBinding i => element_record (GetInData_Texel skip) i di
  | MutableBinding i => element_record (GetInData_Mutable skip ndebug) i di
  | SamplerBinding i => element_record GetInData_Sampler i di
  | ImageSamplerBinding i => element_record (GetInData_ImageSampler skip) i di
  | ImageBinding i => element_record (GetInData_Image skip) i di
  | AccelerationStructureBinding i =>
      element_record (GetInData_AccelerationStructure skip) i di
  | UnclassifiedBinding _ => None
  end.

(** The bindings of [snapshot_example_set] after a write to the second
    element, the set after the first snapshot and that write, and the
    snapshot built for it with the buffer at 16384. *)
Definition snapshot_example_bindings_2 : list DescriptorBinding :=
  [ ImageBinding {| type := VK_DESCRIPTOR_TYPE_SAMPLED_IMAGE; binding := 0; count := 2;
                    updated := [true; true];
                    descriptors :=
                      [ {| Image_GetImageViewState := Some {| ImageView_id := 9 |} |};
                        {| Image_GetImageViewState := Some {| ImageView_id := 11 |} |} ] |} ].

Definition snapshot_example_updated : DescriptorSet :=
  PerformWriteUpdate unit (λ _ _, snapshot_example_bindings_2) ()
    (set_last_used_state_ snapshot_example_set snapshot_example).

Definition snapshot_example_updated_rebuilt : shared_ptr (State cell) :=
  {| ptr := fresh ({[ptr snapshot_example]} ∪ ∅ : gset positive);
     pointee :=
       {| set := 1; version := 1;
          buffer := {| allocation := Some [ Some (DescriptorState_2 Image 9);
                                            Some (DescriptorState_2 Image 11) ];
                       device_addr := 16384 |} |} |}.

(** The set after the first snapshot and that write made [n] times. *)
Definition snapshot_example_updated_times (n : nat) : DescriptorSet :=
  Nat.iter n (PerformWriteUpdate unit (λ _ _, snapshot_example_bindings_2) ())
    (set_last_used_state_ snapshot_example_set snapshot_example).

(** * Theorems *)

(** ** Bits of a bitmap word *)

Lemma land_31 z : Z.land z 31 = z `mod` 32.
Proof. change 31 with (Z.ones 5). by rewrite Z.land_ones. Qed.

Lemma testbit_one_hot k j : 0 ≤ k → Z.testbit (Z.shiftl 1 k) j = bool_decide (j = k).
Proof.
  intros Hk. rewrite Z.shiftl_1_l, Z.pow2_bits_eqb by done.
  destruct (Z.eqb_spec k j); case_bool_decide; done || lia.
Qed.

Lemma testbit_set_mask word k j :
  0 ≤ k → 0 ≤ j →
  Z.testbit (Z.lor word (Z.shiftl 1 k)) j = bool_decide (j = k) || Z.testbit word j.
Proof. intros. rewrite Z.lor_spec, testbit_one_hot by done. apply orb_comm. Qed.

Lemma testbit_clear_mask word k j :
  0 ≤ k → 0 ≤ j < 32 →
  Z.testbit (Z.land word (wrap32 (Z.lnot (Z.shiftl 1 k)))) j
  = negb (bool_decide (j = k)) && Z.testbit word j.
Proof.
  intros. unfold wrap32.
  rewrite Z.land_spec, Z.mod_pow2_bits_low, Z.lnot_spec, testbit_one_hot by lia.
  apply andb_comm.
Qed.

Lemma word_index_split i j :
  0 ≤ i → 0 ≤ j → i ≠ j →
  Z.to_nat (i `div` 32) ≠ Z.to_nat (j `div` 32) ∨ i `mod` 32 ≠ j `mod` 32.
Proof.
  intros Hi Hj Hij.
  destruct (decide (i `div` 32 = j `div` 32)) as [Heq|Hne].
  - right. intros Hm. apply Hij.
    rewrite (Z.div_mod i 32), (Z.div_mod j 32) by lia. congruence.
  - left. assert (0 ≤ i `div` 32) by (apply Z.div_pos; lia).
    assert (0 ≤ j `div` 32) by (apply Z.div_pos; lia). lia.
Qed.

Lemma bit_set_insert_set bitmap word r i :
  0 ≤ r → 0 ≤ i →
  bitmap !! Z.to_nat (r `div` 32) = Some word →
  bit_set (<[Z.to_nat (r `div` 32) := Z.lor word (Z.shiftl 1 (Z.land r 31))]> bitmap) i
  = bool_decide (i = r) || bit_set bitmap i.
Proof.
  intros Hr Hi Hw. unfold bit_set. rewrite land_31.
  assert (0 ≤ r `mod` 32 < 32) by (apply Z.mod_pos_bound; lia).
  assert (0 ≤ i `mod` 32 < 32) by (apply Z.mod_pos_bound; lia).
  destruct (decide (Z.to_nat (i `div` 32) = Z.to_nat (r `div` 32))) as [Heq|Hne].
  - rewrite Heq, list_lookup_insert_eq, Hw by (by eapply lookup_lt_Some).
    rewrite testbit_set_mask by lia. f_equal.
    apply bool_decide_ext. split; [|by intros ->].
    intros Hm. destruct (decide (i = r)) as [|Hne]; [done|].
    destruct (word_index_split i r) as [|]; done.
  - rewrite list_lookup_insert_ne by done.
    rewrite bool_decide_eq_false_2; [done|]. by intros ->.
Qed.

Lemma bit_set_insert_clear bitmap word r i :
  0 ≤ r → 0 ≤ i →
  bitmap !! Z.to_nat (r `div` 32) = Some word →
  bit_set (<[Z.to_nat (r `div` 32) :=
              Z.land word (wrap32 (Z.lnot (Z.shiftl 1 (Z.land r 31))))]> bitmap) i
  = negb (bool_decide (i = r)) && bit_set bitmap i.
Proof.
  intros Hr Hi Hw. unfold bit_set. rewrite land_31.
  assert (0 ≤ r `mod` 32 < 32) by (apply Z.mod_pos_bound; lia).
  assert (0 ≤ i `mod` 32 < 32) by (apply Z.mod_pos_bound; lia).
  destruct (decide (Z.to_nat (i `div` 32) = Z.to_nat (r `div` 32))) as [Heq|Hne].
  - rewrite Heq, list_lookup_insert_eq, Hw by (by eapply lookup_lt_Some).
    rewrite testbit_clear_mask by lia. f_equal. f_equal.
    apply bool_decide_ext. split; [|by intros ->].
    intros Hm. destruct (decide (i = r)) as [|Hne]; [done|].
    destruct (word_index_split i r) as [|]; done.
  - rewrite list_lookup_insert_ne by done.
    rewrite bool_decide_eq_false_2; [done|]. by intros ->.
Qed.

(** ** What a call of the heap does *)

Lemma load_Done {A} (mem : list A) i a :
  load mem i = Done a ↔ mem !! Z.to_nat i = Some a.
Proof. unfold load. destruct (mem !! Z.to_nat i); naive_solver. Qed.

Lemma store_Done {A} (mem : list A) i a mem' :
  store mem i a = Done mem' ↔
  (Z.to_nat i < length mem)%nat ∧ mem' = <[Z.to_nat i := a]> mem.
Proof. unfold store. destruct (decide _); naive_solver. Qed.

Lemma store_after_load {A} (mem : list A) i a b :
  load mem i = Done a → store mem i b = Done (<[Z.to_nat i := b]> mem).
Proof.
  intros Hl%load_Done. apply store_Done. split; [|done]. by eapply lookup_lt_Some.
Qed.

Lemma NextId_full fuel h owner :
  max_descriptors_ h = 0 ∨ max_descriptors_ h ≤ Z.of_nat (size (alloc_map_ h)) →
  NextId fuel h owner = Done (0, h).
Proof. intros [?|?]; unfold NextId; repeat case_decide; done || lia. Qed.

Lemma NextId_found fuel h owner result next_id word :
  max_descriptors_ h ≠ 0 →
  Z.of_nat (size (alloc_map_ h)) < max_descriptors_ h →
  NextId_scan fuel (max_descriptors_ h) (alloc_map_ h) (next_id_ h) = Some (result, next_id) →
  gpu_heap_state_ h !! Z.to_nat (result `div` 32) = Some word →
  NextId fuel h owner =
    Done (result,
          {| max_descriptors_ := max_descriptors_ h;
             next_id_ := next_id;
             alloc_map_ := <[result := owner]> (alloc_map_ h);
             gpu_heap_state_ :=
               <[Z.to_nat (result `div` 32) := Z.lor word (Z.shiftl 1 (Z.land result 31))]>
                 (gpu_heap_state_ h) |}).
Proof.
  intros Hmax Hsize Hscan Hword. unfold NextId.
  rewrite decide_False, decide_False, Hscan by lia.
  assert (load (gpu_heap_state_ h) (result `div` 32) = Done word) as Hload
    by by apply load_Done.
  rewrite Hload. simpl. by erewrite store_after_load.
Qed.

Lemma NextId_Done fuel h owner result h' :
  NextId fuel h owner = Done (result, h') →
  (result = 0 ∧ h' = h ∧
   (max_descriptors_ h = 0 ∨ max_descriptors_ h ≤ Z.of_nat (size (alloc_map_ h)))) ∨
  (max_descriptors_ h ≠ 0 ∧ Z.of_nat (size (alloc_map_ h)) < max_descriptors_ h ∧
   ∃ next_id word,
     NextId_scan fuel (max_descriptors_ h) (alloc_map_ h) (next_id_ h) = Some (result, next_id) ∧
     gpu_heap_state_ h !! Z.to_nat (result `div` 32) = Some word ∧
     h' = {| max_descriptors_ := max_descriptors_ h;
             next_id_ := next_id;
             alloc_map_ := <[result := owner]> (alloc_map_ h);
             gpu_heap_state_ :=
               <[Z.to_nat (result `div` 32) := Z.lor word (Z.shiftl 1 (Z.land result 31))]>
                 (gpu_heap_state_ h) |}).
Proof.
  unfold NextId. intros H.
  case_decide as Hmax; [left; naive_solver|].
  case_decide as Hsize; [left; naive_solver|].
  right. split; [done|]. split; [lia|].
  destruct (NextId_scan _ _ _ _) as [[r next_id]|] eqn:Hscan; [|done].
  destruct (load (gpu_heap_state_ h) (r `div` 32)) as [word| |] eqn:Hload; try done.
  simpl in H. erewrite store_after_load in H by done. simpl in H.
  simplify_eq. apply load_Done in Hload. eauto 6.
Qed.

Lemma DeleteId_disabled h id : max_descriptors_ h ≤ 0 → DeleteId h id = Done h.
Proof. intros. unfold DeleteId. case_decide; done || lia. Qed.

Lemma DeleteId_Done h id h' :
  DeleteId h id = Done h' →
  (max_descriptors_ h ≤ 0 ∧ h' = h) ∨
  (0 < max_descriptors_ h ∧
   ∃ word,
     gpu_heap_state_ h !! Z.to_nat (id `div` 32) = Some word ∧
     h' = {| max_descriptors_ := max_descriptors_ h;
             next_id_ := next_id_ h;
             alloc_map_ := delete id (alloc_map_ h);
             gpu_heap_state_ :=
               <[Z.to_nat (id `div` 32) :=
                   Z.land word (wrap32 (Z.lnot (Z.shiftl 1 (Z.land id 31))))]>
                 (gpu_heap_state_ h) |}).
Proof.
  unfold DeleteId. intros H.
  case_decide as Hmax; [right|left; split; [lia|congruence]].
  split; [done|].
  destruct (load (gpu_heap_state_ h) (id `div` 32)) as [word| |] eqn:Hload; try done.
  simpl in H. erewrite store_after_load in H by done. simpl in H.
  simplify_eq. apply load_Done in Hload. eauto.
Qed.

Lemma DeleteId_in_bounds h id word :
  0 < max_descriptors_ h →
  gpu_heap_state_ h !! Z.to_nat (id `div` 32) = Some word →
  DeleteId h id =
    Done {| max_descriptors_ := max_descriptors_ h;
            next_id_ := next_id_ h;
            alloc_map_ := delete id (alloc_map_ h);
            gpu_heap_state_ :=
              <[Z.to_nat (id `div` 32) :=
                  Z.land word (wrap32 (Z.lnot (Z.shiftl 1 (Z.land id 31))))]>
                (gpu_heap_state_ h) |}.
Proof.
  intros Hmax Hword. unfold DeleteId. rewrite decide_True by done.
  assert (load (gpu_heap_state_ h) (id `div` 32) = Done word) as Hload
    by by apply load_Done.
  rewrite Hload. simpl. by erewrite store_after_load.
Qed.

(** ** The scan *)

Lemma advance_step C c : 0 ≤ c < C → C < 2 ^ 32 → advance C c = c + 1.
Proof.
  intros Hc HC. unfold advance, wrap32.
  rewrite Z.mod_small by lia. case_decide; lia.
Qed.

Lemma advance_top C : 0 < C < 2 ^ 32 →
  advance C C = if decide (C = 2 ^ 32 - 1) then 0 else 1.
Proof.
  intros HC. unfold advance, wrap32.
  destruct (decide (C = 2 ^ 32 - 1)) as [->|Htop]; [done|].
  rewrite Z.mod_small by lia. case_decide; lia.
Qed.

Lemma advance_above C c : 0 < C < c → c < 2 ^ 32 →
  advance C c = if decide (c = 2 ^ 32 - 1) then 0 else 1.
Proof.
  intros HC Hc. unfold advance, wrap32.
  destruct (decide (c = 2 ^ 32 - 1)) as [->|Htop].
  - change ((2 ^ 32 - 1 + 1) `mod` 2 ^ 32) with 0. simpl. case_decide; lia.
  - rewrite Z.mod_small by lia. simpl. case_decide; lia.
Qed.

Lemma advance_ok C c : 0 < C < 2 ^ 32 - 1 → 1 ≤ c ≤ C → 1 ≤ advance C c ≤ C.
Proof.
  intros HC Hc. destruct (decide (c = C)) as [->|].
  - rewrite advance_top, decide_False by lia. lia.
  - rewrite advance_step by lia. lia.
Qed.

Lemma visited_length n C c : length (visited n C c) = n.
Proof. revert c. induction n as [|n IH]; intros c; simpl; by rewrite ?IH. Qed.

(** While the cursor climbs towards [C] the candidates are consecutive. *)
Lemma visited_climb n C c :
  0 ≤ c → c + Z.of_nat n ≤ C + 1 → C < 2 ^ 32 →
  visited n C c = seqZ c (Z.of_nat n).
Proof.
  revert c. induction n as [|n IH]; intros c Hc Hn HC; [done|].
  simpl visited. rewrite seqZ_cons by lia. f_equal.
  destruct n as [|n]; [done|].
  rewrite advance_step by lia.
  rewrite IH by lia. f_equal; lia.
Qed.

(** A climb up to [C], then whatever the scan looks at after the wrap. *)
Lemma visited_wrap m k C c :
  0 ≤ c → c + Z.of_nat (S m) = C + 1 → C < 2 ^ 32 →
  visited (S m + k) C c = seqZ c (Z.of_nat (S m)) ++ visited k C (advance C C).
Proof.
  revert c. induction m as [|m IH]; intros c Hc Hm HC.
  - assert (c = C) as -> by lia. done.
  - change (visited (S (S m) + k) C c)
      with (c :: visited (S m + k) C (advance C c)).
    rewrite advance_step by lia. rewrite IH by lia.
    rewrite (seqZ_cons c) by lia.
    replace (Z.pred (Z.of_nat (S (S m)))) with (Z.of_nat (S m)) by lia.
    by replace (Z.succ c) with (c + 1) by lia.
Qed.

Lemma visited_NoDup n C c :
  0 < C < 2 ^ 32 → u32 c → Z.of_nat n ≤ C → NoDup (visited n C c).
Proof.
  intros HC [Hc0 Hc] Hn.
  destruct (decide (c ≤ C)) as [Hle|Hgt].
  - destruct (decide (c + Z.of_nat n ≤ C + 1)) as [Hfit|Hwrap].
    { rewrite visited_climb by lia. apply NoDup_seqZ. }
    assert (∃ m k, n = (S m + k)%nat ∧ c + Z.of_nat (S m) = C + 1) as (m & k & -> & Hm).
    { exists (Z.to_nat (C - c)), (n - S (Z.to_nat (C - c)))%nat. split; lia. }
    rewrite visited_wrap, advance_top by lia.
    apply NoDup_app. split_and!; [apply NoDup_seqZ| |].
    + intros x Hx1%elem_of_seqZ. case_decide.
      * rewrite visited_climb by lia. intros Hx2%elem_of_seqZ. lia.
      * rewrite visited_climb by lia. intros Hx2%elem_of_seqZ. lia.
    + case_decide; rewrite visited_climb by lia; apply NoDup_seqZ.
  - destruct n as [|n]; [constructor|].
    simpl visited. rewrite advance_above by lia.
    apply NoDup_cons.
    case_decide; rewrite visited_climb by lia;
      (split; [intros Hx%elem_of_seqZ; lia|apply NoDup_seqZ]).
Qed.

Lemma NextId_scan_None fuel C (m : gmap Z VulkanTypedHandle) c :
  NextId_scan fuel C m c = None → Forall (λ x, is_Some (m !! x)) (visited fuel C c).
Proof.
  revert c. induction fuel as [|fuel IH]; intros c Hscan; [constructor|].
  simpl in *. destruct (m !! c) eqn:Hc; [|done].
  constructor; [by rewrite Hc|by apply IH].
Qed.

Lemma NextId_scan_free fuel C (m : gmap Z VulkanTypedHandle) c result next_id :
  NextId_scan fuel C m c = Some (result, next_id) → m !! result = None.
Proof.
  revert c. induction fuel as [|fuel IH]; intros c Hscan; [done|].
  simpl in *. destruct (m !! c) eqn:Hc; [by eapply IH|congruence].
Qed.

Lemma NextId_scan_more fuel fuel' C (m : gmap Z VulkanTypedHandle) c found :
  NextId_scan fuel C m c = Some found → (fuel ≤ fuel')%nat →
  NextId_scan fuel' C m c = Some found.
Proof.
  revert fuel' c. induction fuel as [|fuel IH]; intros fuel' c Hscan Hle; [done|].
  destruct fuel' as [|fuel']; [lia|].
  simpl in *. destruct (m !! c); [apply IH; [done|lia]|done].
Qed.

Lemma NextId_scan_in_range fuel C (m : gmap Z VulkanTypedHandle) c result next_id :
  0 < C < 2 ^ 32 - 1 → 1 ≤ c ≤ C →
  NextId_scan fuel C m c = Some (result, next_id) →
  1 ≤ result ≤ C ∧ 1 ≤ next_id ≤ C.
Proof.
  intros HC. revert c. induction fuel as [|fuel IH]; intros c Hc Hscan; [done|].
  simpl in *. pose proof (advance_ok C c HC Hc).
  destruct (m !! c); [by eapply IH|]. by simplify_eq.
Qed.

(** Fewer live identifiers than candidates looked at: one of them is free. *)
Lemma live_candidates (m : gmap Z VulkanTypedHandle) (l : list Z) :
  NoDup l → Forall (λ x, is_Some (m !! x)) l → (length l ≤ size m)%nat.
Proof.
  intros Hnd Hall. rewrite <- size_dom, <- (size_list_to_set (C:=gset Z) l) by done.
  apply subseteq_size. intros x Hx%elem_of_list_to_set.
  apply elem_of_dom. by eapply (proj1 (Forall_forall _ _)) in Hall.
Qed.

Lemma NextId_scan_terminates C (m : gmap Z VulkanTypedHandle) c :
  0 < C < 2 ^ 32 → u32 c → Z.of_nat (size m) < C →
  ∃ result next_id,
    NextId_scan (Z.to_nat C) C m c = Some (result, next_id) ∧ m !! result = None.
Proof.
  intros HC Hc Hsize.
  destruct (NextId_scan (Z.to_nat C) C m c) as [[result next_id]|] eqn:Hscan.
  { exists result, next_id. split; [done|]. by eapply NextId_scan_free. }
  exfalso. apply NextId_scan_None in Hscan.
  apply live_candidates in Hscan; [|apply visited_NoDup; lia || done].
  rewrite visited_length in Hscan. lia.
Qed.

(** ** The size of the bitmap *)

Lemma land_align32 x : u32 x → Z.land x (wrap32 (Z.lnot (kBitsPerWord - 1))) = x `div` 32 * 32.
Proof.
  intros Hx. unfold wrap32, kBitsPerWord.
  rewrite <- Z.land_ones, Z.land_assoc, (Z.land_comm x), <- Z.land_assoc by lia.
  rewrite (Z.land_ones x), Z.mod_small by (done || lia).
  change (32 - 1) with (Z.ones 5).
  rewrite Z.land_comm, <- Z.ldiff_land, Z.ldiff_ones_r by lia.
  rewrite Z.shiftr_div_pow2, Z.shiftl_mul_pow2 by lia. done.
Qed.

Lemma BitBufferSize_words n :
  0 ≤ n → n + 31 < 2 ^ 32 → BitBufferSize n `div` 4 = (n + 31) `div` 32.
Proof.
  intros Hn Hfit. unfold BitBufferSize.
  assert (wrap32 (n + (kBitsPerWord - 1)) = n + 31) as ->.
  { unfold wrap32, kBitsPerWord. rewrite Z.mod_small; lia. }
  rewrite land_align32 by (unfold u32; lia).
  unfold kBitsPerWord. rewrite Z.div_mul by lia.
  assert (0 ≤ (n + 31) `div` 32 < 2 ^ 27).
  { split; [apply Z.div_pos; lia|apply Z.div_lt_upper_bound; lia]. }
  unfold wrap32. rewrite Z.mod_small by lia. apply Z.div_mul. lia.
Qed.

Lemma DescriptorHeap_new_words C :
  0 < C ≤ 2 ^ 32 - 33 →
  C < 32 * Z.of_nat (length (gpu_heap_state_ (DescriptorHeap_new C))).
Proof.
  intros HC. unfold DescriptorHeap_new. rewrite decide_False by lia. simpl.
  rewrite length_replicate.
  assert (wrap32 (C + 1) = C + 1) as ->.
  { unfold wrap32. rewrite Z.mod_small; lia. }
  rewrite BitBufferSize_words by lia.
  assert (0 ≤ (C + 1 + 31) `div` 32) by (apply Z.div_pos; lia).
  rewrite Z2Nat.id by done.
  pose proof (Z.mul_div_le (C + 1 + 31) 32 ltac:(lia)).
  pose proof (Z.mod_pos_bound (C + 1 + 31) 32 ltac:(lia)).
  pose proof (Z.div_mod (C + 1 + 31) 32 ltac:(lia)). lia.
Qed.

(** ** Heaps in use *)

Lemma DescriptorHeap_new_max C : max_descriptors_ (DescriptorHeap_new C) = C.
Proof. unfold DescriptorHeap_new. by case_decide. Qed.

Lemma DescriptorHeap_new_cursor C : next_id_ (DescriptorHeap_new C) = 1.
Proof. unfold DescriptorHeap_new. by case_decide. Qed.

Lemma DescriptorHeap_new_empty C : alloc_map_ (DescriptorHeap_new C) = ∅.
Proof. unfold DescriptorHeap_new. by case_decide. Qed.

Lemma DescriptorHeap_new_ok C : 0 < C ≤ 2 ^ 32 - 33 → heap_ok (DescriptorHeap_new C).
Proof.
  intros HC. split.
  - rewrite DescriptorHeap_new_max. lia.
  - rewrite DescriptorHeap_new_max, DescriptorHeap_new_cursor. lia.
  - intros i [x Hx]. by rewrite DescriptorHeap_new_empty in Hx.
  - rewrite DescriptorHeap_new_max. by apply DescriptorHeap_new_words.
Qed.

Lemma heap_ok_size h : heap_ok h → Z.of_nat (size (alloc_map_ h)) ≤ max_descriptors_ h.
Proof.
  intros [HC _ Hlive _].
  rewrite <- size_dom.
  transitivity (Z.of_nat (size (list_to_set (C:=gset Z) (seqZ 1 (max_descriptors_ h))))).
  - apply inj_le, subseteq_size. intros i Hi%elem_of_dom.
    apply elem_of_list_to_set, elem_of_seqZ. specialize (Hlive i Hi). lia.
  - rewrite size_list_to_set, length_seqZ by apply NoDup_seqZ. lia.
Qed.

Lemma heap_ok_word h i :
  heap_ok h → 0 ≤ i ≤ max_descriptors_ h →
  is_Some (gpu_heap_state_ h !! Z.to_nat (i `div` 32)).
Proof.
  intros [_ _ _ Hlen] Hi. apply lookup_lt_is_Some.
  assert (i `div` 32 < Z.of_nat (length (gpu_heap_state_ h))).
  { apply Z.div_lt_upper_bound; lia. }
  assert (0 ≤ i `div` 32) by (apply Z.div_pos; lia). lia.
Qed.

(** What [NextId] returns on a heap in use, and the heap it leaves. *)
Lemma NextId_preserves_ok fuel h owner result h' :
  heap_ok h → NextId fuel h owner = Done (result, h') →
  heap_ok h' ∧ max_descriptors_ h' = max_descriptors_ h ∧
  (result ≠ 0 → 1 ≤ result ≤ max_descriptors_ h ∧ ¬ live h result ∧ live h' result) ∧
  (result = 0 ↔ Z.of_nat (size (alloc_map_ h)) = max_descriptors_ h).
Proof.
  intros Hok Hrun. pose proof (heap_ok_size h Hok) as Hsize.
  pose proof Hok as [HC Hcur Hlive Hlen].
  apply NextId_Done in Hrun
    as [(-> & -> & Hfull)|(Hmax & Hroom & next_id & word & Hscan & Hword & ->)].
  { split_and!; try done. split; [lia|done]. }
  destruct (NextId_scan_in_range _ _ _ _ _ _ HC Hcur Hscan) as [Hres Hnext].
  apply NextId_scan_free in Hscan as Hfree.
  split_and!; simpl; try done.
  - split; simpl; try done.
    + intros i [x Hx]. simpl in Hx. destruct (decide (i = result)) as [->|Hne]; [done|].
      apply Hlive. exists x. by rewrite lookup_insert_ne in Hx.
    + by rewrite length_insert.
  - intros _. split_and!; [lia|lia| |].
    + intros [x Hx]. congruence.
    + unfold live. simpl. rewrite lookup_insert_eq. eauto.
  - split; lia.
Qed.

(** On a heap in use [NextId] returns, given as much fuel as the capacity. *)
Lemma NextId_total fuel h owner :
  heap_ok h → (Z.to_nat (max_descriptors_ h) ≤ fuel)%nat →
  ∃ result h', NextId fuel h owner = Done (result, h').
Proof.
  intros Hok Hfuel. pose proof Hok as [HC Hcur Hlive Hlen].
  destruct (decide (max_descriptors_ h ≤ Z.of_nat (size (alloc_map_ h)))) as [Hfull|Hroom].
  { exists 0, h. apply NextId_full. auto. }
  destruct (NextId_scan_terminates (max_descriptors_ h) (alloc_map_ h) (next_id_ h))
    as (result & next_id & Hscan & Hfree); [lia|unfold u32; lia|lia|].
  eapply NextId_scan_more in Hscan; [|exact Hfuel].
  destruct (NextId_scan_in_range _ _ _ _ _ _ HC Hcur Hscan) as [Hres Hnext].
  destruct (heap_ok_word h result Hok ltac:(lia)) as [word Hword].
  eexists result, _. apply NextId_found; done || lia.
Qed.

Lemma DeleteId_preserves_ok h id h' :
  heap_ok h → DeleteId h id = Done h' →
  heap_ok h' ∧ max_descriptors_ h' = max_descriptors_ h.
Proof.
  intros Hok [[? ->]|(Hmax & word & Hword & ->)]%DeleteId_Done; [done|].
  destruct Hok as [HC Hcur Hlive Hlen]. split; [|done].
  split; simpl; try done.
  - intros i [x Hx]. simpl in Hx. apply Hlive. exists x.
    destruct (decide (id = i)) as [->|Hne].
    + by rewrite lookup_delete_eq in Hx.
    + by rewrite lookup_delete_ne in Hx.
  - by rewrite length_insert.
Qed.

(** On a heap in use [DeleteId] returns for every identifier up to the
    capacity. *)
Lemma DeleteId_total h id :
  heap_ok h → 0 ≤ id ≤ max_descriptors_ h → ∃ h', DeleteId h id = Done h'.
Proof.
  intros Hok Hid. destruct (heap_ok_word h id Hok Hid) as [word Hword].
  eexists. apply DeleteId_in_bounds; [apply Hok|done].
Qed.

Lemma reachable_ok C h :
  0 < C ≤ 2 ^ 32 - 33 → reachable C h → heap_ok h ∧ max_descriptors_ h = C.
Proof.
  intros HC. induction 1 as [|h fuel owner result h' _ [IHok IHmax] Hnext
                             |h id h' _ [IHok IHmax] Hid Hdel].
  - split; [by apply DescriptorHeap_new_ok|apply DescriptorHeap_new_max].
  - destruct (NextId_preserves_ok _ _ _ _ _ IHok Hnext) as (? & ? & _).
    split; [done|congruence].
  - destruct (DeleteId_preserves_ok h id h' IHok Hdel) as [? ?]. split; [done|congruence].
Qed.

(** ** The bitmap and the live-identifier map *)

Lemma advance_u32 C c : u32 (advance C c).
Proof.
  unfold advance, u32, wrap32.
  pose proof (Z.mod_pos_bound (c + 1) (2 ^ 32) ltac:(lia)).
  simpl. case_decide; lia.
Qed.

Lemma NextId_scan_u32 fuel C (m : gmap Z VulkanTypedHandle) c result next_id :
  u32 c → NextId_scan fuel C m c = Some (result, next_id) → u32 result ∧ u32 next_id.
Proof.
  revert c. induction fuel as [|fuel IH]; intros c Hc Hscan; [done|].
  simpl in *. pose proof (advance_u32 C c).
  destruct (m !! c); [by eapply IH|]. by simplify_eq.
Qed.

Lemma DescriptorHeap_new_coherent C : coherent (DescriptorHeap_new C).
Proof.
  intros i Hi. unfold live. rewrite DescriptorHeap_new_empty, lookup_empty.
  split; [|by intros [? ?]].
  unfold bit_set, DescriptorHeap_new. case_decide; simpl; [done|].
  destruct (replicate _ _ !! _) as [word|] eqn:Hw; [|done].
  apply lookup_replicate in Hw as [-> _]. by rewrite Z.bits_0.
Qed.

Lemma NextId_coherent fuel h owner result h' :
  u32 (next_id_ h) → coherent h → NextId fuel h owner = Done (result, h') →
  coherent h' ∧ u32 (next_id_ h').
Proof.
  intros Hcur Hco Hrun.
  apply NextId_Done in Hrun
    as [(_ & -> & _)|(Hmax & Hroom & next_id & word & Hscan & Hword & ->)]; [done|].
  destruct (NextId_scan_u32 _ _ _ _ _ _ Hcur Hscan) as [[Hres _] Hnext].
  split; [|done]. intros i Hi. simpl in Hi. unfold live. simpl.
  rewrite bit_set_insert_set by (done || lia).
  rewrite orb_true_iff, bool_decide_eq_true, (Hco i Hi). unfold live.
  destruct (decide (i = result)) as [->|Hne].
  - rewrite lookup_insert_eq. naive_solver.
  - rewrite lookup_insert_ne by done. naive_solver.
Qed.

Lemma DeleteId_coherent h id h' :
  u32 id → coherent h → DeleteId h id = Done h' →
  coherent h' ∧ next_id_ h' = next_id_ h.
Proof.
  intros [Hid _] Hco [[? ->]|(Hmax & word & Hword & ->)]%DeleteId_Done; [done|].
  split; [|done]. intros i Hi. simpl in Hi. unfold live. simpl.
  rewrite bit_set_insert_clear by (done || lia).
  rewrite andb_true_iff, negb_true_iff, bool_decide_eq_false, (Hco i Hi). unfold live.
  destruct (decide (id = i)) as [->|Hne].
  - rewrite lookup_delete_eq. split; [naive_solver|]. by intros [? ?].
  - rewrite lookup_delete_ne by done. naive_solver.
Qed.

(** ** The claims about the identifier heap *)

(** C1, as amended. For every capacity [C] with [0 < C <= 2^32 - 33] (the
    capacities for which [BitBufferSize (C + 1)] does not wrap, so that the
    bitmap holds a bit for each of [0 .. C]) and every heap reached from the
    constructed one by [NextId] and [DeleteId] calls that stay inside the
    bitmap buffer, [NextId] returns; a nonzero identifier it returns lies in
    [1 .. C], was not live before the call and is live after it; and it
    returns 0 exactly when the number of live identifiers equals [C]. *)
Theorem NextId_fresh_in_range C h fuel owner :
  0 < C ≤ 2 ^ 32 - 33 → reachable C h → (Z.to_nat C ≤ fuel)%nat →
  ∃ result h',
    NextId fuel h owner = Done (result, h') ∧
    (result ≠ 0 → 1 ≤ result ≤ C ∧ ¬ live h result ∧ live h' result) ∧
    (result = 0 ↔ Z.of_nat (size (alloc_map_ h)) = C).
Proof.
  intros HC Hreach Hfuel.
  destruct (reachable_ok C h HC Hreach) as [Hok <-].
  destruct (NextId_total fuel h owner Hok Hfuel) as (result & h' & Hrun).
  exists result, h'. split; [done|].
  by destruct (NextId_preserves_ok _ _ _ _ _ Hok Hrun) as (_ & _ & ? & ?).
Qed.

(** C1, the claim as stated fails at the capacity [2^32 - 1]: the bitmap is
    sized for [C + 1 = 0] bits, so the heap holds no live identifier and yet
    no call of [NextId] returns: its write to word 0 is outside the buffer. *)
Lemma NextId_capacity_overflow :
  BitBufferSize (wrap32 (4294967295 + 1)) = 0 ∧
  gpu_heap_state_ (DescriptorHeap_new 4294967295) = [] ∧
  Z.of_nat (size (alloc_map_ (DescriptorHeap_new 4294967295))) ≠ 4294967295 ∧
  NextId 1 (DescriptorHeap_new 4294967295) example_owner = Undefined OutOfBounds ∧
  ∀ fuel owner result h',
    NextId fuel (DescriptorHeap_new 4294967295) owner ≠ Done (result, h').
Proof.
  split_and!; [by vm_compute..|].
  intros [|fuel] owner result h'; [done|]. by vm_compute.
Qed.

(** The first call of [NextId] is undefined for each of the 32 capacities
    above [2^32 - 33]. *)
Lemma NextId_capacity_bound C fuel owner :
  2 ^ 32 - 32 ≤ C < 2 ^ 32 →
  NextId (S fuel) (DescriptorHeap_new C) owner = Undefined OutOfBounds.
Proof.
  intros HC.
  assert (gpu_heap_state_ (DescriptorHeap_new C) = []) as Hwords.
  { assert (C ∈ seqZ (2 ^ 32 - 32) 32) as Hin by (apply elem_of_seqZ; lia).
    vm_compute seqZ in Hin.
    repeat (apply elem_of_cons in Hin as [->|Hin]; [by vm_compute|]).
    by apply elem_of_nil in Hin. }
  unfold NextId. rewrite DescriptorHeap_new_max, DescriptorHeap_new_empty,
    DescriptorHeap_new_cursor, Hwords.
  rewrite decide_False, decide_False by (rewrite ?map_size_empty; lia).
  done.
Qed.

(** With the capacity [2^32 - 1] the cursor itself wraps: after the
    candidate [2^32 - 1] it is 0, and 0 is the next candidate. *)
Lemma NextId_cursor_wraps :
  advance 4294967295 4294967295 = 0 ∧
  NextId_scan 1 4294967295 ∅ 0 = Some (0, 1).
Proof. by vm_compute. Qed.

Lemma NextId_fresh_in_range_witness :
  ∃ result h',
    NextId 3 example_heap example_owner = Done (result, h') ∧
    (result ≠ 0 → 1 ≤ result ≤ 3 ∧ ¬ live example_heap result ∧ live h' result) ∧
    (result = 0 ↔ Z.of_nat (size (alloc_map_ example_heap)) = 3).
Proof.
  apply (NextId_fresh_in_range 3 example_heap 3 example_owner); [lia| |lia].
  apply (reach_NextId 3 (DescriptorHeap_new 3) 3 example_owner 1); [constructor|].
  by vm_compute.
Defined.

(** C2. Both operations of the identifier heap keep the bitmap coherent with
    the live-identifier map: if, for every [i] in [0 .. max_descriptors_],
    bit [i] of the bitmap (word [i / 32], bit [i mod 32]) is set exactly when
    [i] is recorded as live, then the same holds of the heap that a call of
    [NextId] or of [DeleteId] leaves. ([next_id_] and [id] are [uint32_t].) *)
Theorem bitmap_coherent_preserved h :
  u32 (next_id_ h) → coherent h →
  (∀ fuel owner result h', NextId fuel h owner = Done (result, h') → coherent h') ∧
  (∀ id h', u32 id → DeleteId h id = Done h' → coherent h').
Proof.
  intros Hcur Hco. split.
  - intros fuel owner result h' Hrun. by eapply NextId_coherent.
  - intros id h' Hid Hrun. by eapply DeleteId_coherent.
Qed.

Lemma bitmap_coherent_preserved_witness :
  (∀ fuel owner result h',
     NextId fuel (DescriptorHeap_new 3) owner = Done (result, h') → coherent h') ∧
  (∀ id h', u32 id → DeleteId (DescriptorHeap_new 3) id = Done h' → coherent h').
Proof.
  apply (bitmap_coherent_preserved (DescriptorHeap_new 3)).
  - by vm_compute.
  - apply DescriptorHeap_new_coherent.
Defined.

(** The bitmap of every heap a session can hold is coherent. *)
Lemma reachable_coherent C h : reachable C h → coherent h ∧ u32 (next_id_ h).
Proof.
  induction 1 as [|h fuel owner result h' _ [IHco IHcur] Hnext
                  |h id h' _ [IHco IHcur] Hid Hdel].
  - split; [apply DescriptorHeap_new_coherent|].
    rewrite DescriptorHeap_new_cursor. by vm_compute.
  - by eapply NextId_coherent.
  - destruct (DeleteId_coherent h id h' Hid IHco Hdel) as [? ->]. done.
Qed.

(** C3. A heap constructed with capacity 0 never changes: whatever calls
    were made on it, [NextId] returns 0 for every handle and leaves the heap
    as it is, and [DeleteId] leaves the heap as it is for every identifier. *)
Theorem disabled_heap_noop h :
  reachable 0 h →
  h = DescriptorHeap_new 0 ∧
  ∀ fuel owner id, NextId fuel h owner = Done (0, h) ∧ DeleteId h id = Done h.
Proof.
  intros Hreach.
  assert (h = DescriptorHeap_new 0) as ->.
  { induction Hreach as [|h fuel owner result h' _ -> Hnext|h id h' _ -> _ Hdel]; [done| |].
    - rewrite NextId_full in Hnext by (by left). by simplify_eq.
    - rewrite DeleteId_disabled in Hdel by done. by simplify_eq. }
  split; [done|]. intros fuel owner id. split.
  - apply NextId_full. by left.
  - by apply DeleteId_disabled.
Qed.

Lemma disabled_heap_noop_witness :
  DescriptorHeap_new 0 = DescriptorHeap_new 0 ∧
  ∀ fuel owner id,
    NextId fuel (DescriptorHeap_new 0) owner = Done (0, DescriptorHeap_new 0) ∧
    DeleteId (DescriptorHeap_new 0) id = Done (DescriptorHeap_new 0).
Proof. apply (disabled_heap_noop (DescriptorHeap_new 0)). constructor. Defined.

(** C10. The candidate scan of [NextId] terminates: on a heap of capacity
    [C > 0] with fewer than [C] live identifiers, the loop finds an
    identifier that is not live within [C] passes, whatever the cursor; so
    with that much fuel [NextId] never runs out of it, and it returns the
    identifier found whenever the bitmap holds its word (as it does on every
    heap in use). *)
Theorem NextId_scan_total h :
  0 < max_descriptors_ h < 2 ^ 32 → u32 (next_id_ h) →
  Z.of_nat (size (alloc_map_ h)) < max_descriptors_ h →
  ∃ result next_id,
    NextId_scan (Z.to_nat (max_descriptors_ h)) (max_descriptors_ h) (alloc_map_ h)
      (next_id_ h) = Some (result, next_id) ∧
    ¬ live h result ∧
    ∀ fuel owner, (Z.to_nat (max_descriptors_ h) ≤ fuel)%nat →
      NextId fuel h owner ≠ OutOfFuel ∧
      (is_Some (gpu_heap_state_ h !! Z.to_nat (result `div` 32)) →
       ∃ h', NextId fuel h owner = Done (result, h')) ∧
      (heap_ok h → ∃ h', NextId fuel h owner = Done (result, h')).
Proof.
  intros HC Hcur Hroom.
  destruct (NextId_scan_terminates _ _ _ HC Hcur Hroom) as (result & next_id & Hscan & Hfree).
  exists result, next_id. split_and!; [done|by intros [? ?]; congruence|].
  intros fuel owner Hfuel.
  eapply NextId_scan_more in Hscan as Hscan'; [|exact Hfuel].
  assert (is_Some (gpu_heap_state_ h !! Z.to_nat (result `div` 32)) →
          ∃ h', NextId fuel h owner = Done (result, h')) as Hin.
  { intros [word Hword]. eexists. apply NextId_found; done || lia. }
  split_and!; [|done|].
  - unfold NextId. rewrite decide_False, decide_False, Hscan' by lia.
    destruct (gpu_heap_state_ h !! Z.to_nat (result `div` 32)) as [word|] eqn:Hword.
    + apply load_Done in Hword as Hload. rewrite Hload. simpl.
      by erewrite store_after_load.
    + unfold load. by rewrite Hword.
  - intros Hok. apply Hin.
    destruct (NextId_scan_in_range _ _ _ _ _ _ (ok_capacity h Hok) (ok_cursor h Hok) Hscan).
    apply heap_ok_word; [done|lia].
Qed.

Lemma NextId_scan_total_witness :
  ∃ result next_id,
    NextId_scan 3 3 (alloc_map_ example_heap) 2 = Some (result, next_id) ∧
    ¬ live example_heap result ∧
    ∀ fuel owner, (3 ≤ fuel)%nat →
      NextId fuel example_heap owner ≠ OutOfFuel ∧
      (is_Some (gpu_heap_state_ example_heap !! Z.to_nat (result `div` 32)) →
       ∃ h', NextId fuel example_heap owner = Done (result, h')) ∧
      (heap_ok example_heap → ∃ h', NextId fuel example_heap owner = Done (result, h')).
Proof.
  apply (NextId_scan_total example_heap); by vm_compute.
Defined.

(** ** The records of a snapshot *)

(** The classes other than the plain sampler write the skip identifier for a
    resource that is gone. *)
Lemma GetInData_skips_null skip :
  (∀ range, GetInData_Buffer skip
     {| Buffer_GetBufferState := None; Buffer_GetEffectiveRange := range |}
   = Done (DescriptorState_3 GeneralBuffer skip kU32Max)) ∧
  GetInData_Texel skip {| Texel_GetBufferViewState := None |}
  = Done (DescriptorState_3 TexelBuffer skip kU32Max) ∧
  GetInData_Image skip {| Image_GetImageViewState := None |}
  = Done (DescriptorState_2 Image skip) ∧
  (∀ sampler_state, ∃ ext, GetInData_ImageSampler skip
     {| ImageSampler_GetImageViewState := None;
        ImageSampler_GetSamplerState := sampler_state |}
   = Done (DescriptorState_3 ImageSampler skip ext)) ∧
  (∀ khr, GetInData_AccelerationStructure skip
     {| is_khr := khr; AS_GetAccelerationStructureStateKHR := None;
        AS_GetAccelerationStructureStateNV := None |}
   = Done (DescriptorState_2 AccelerationStructure skip)).
Proof. split_and!; try done; [by eexists|by intros []]. Qed.

(** C6, at the failing input. A plain-sampler descriptor that was updated
    and whose sampler state pointer is null is dereferenced: the direct
    rule, the rule for a mutable descriptor whose active class is the plain
    sampler, and with them the construction of a snapshot over a set with
    such a binding, are undefined; no record with the skip identifier is
    written. *)
Theorem GetInData_dead_sampler skip ndebug :
  GetInData_Sampler dead_sampler_descriptor = Undefined NullDereference ∧
  GetInData_Mutable skip ndebug (mutable_descriptor PlainSampler None None)
  = Undefined NullDereference ∧
  FillBindingInData GetInData_Sampler dead_sampler_binding [None] 0
  = Undefined NullDereference ∧
  ∀ objects addr,
    GetCurrentState skip ndebug objects addr dead_sampler_set = Undefined NullDereference.
Proof. by split_and!. Qed.

(** A mutable descriptor is read by the rule of its active class, for every
    class but the general buffer. *)
Lemma GetInData_Mutable_as_direct skip ndebug (desc : MutableDescriptor) :
  match ActiveClass desc with
  | TexelBuffer =>
      GetInData_Mutable skip ndebug desc
      = GetInData_Texel skip {| Texel_GetBufferViewState := GetSharedBufferViewState desc |}
  | PlainSampler =>
      GetInData_Mutable skip ndebug desc
      = GetInData_Sampler {| Sampler_GetSamplerState := GetSharedSamplerState desc |}
  | ImageSampler =>
      GetInData_Mutable skip ndebug desc
      = GetInData_ImageSampler skip
          {| ImageSampler_GetImageViewState := GetSharedImageViewState desc;
             ImageSampler_GetSamplerState := GetSharedSamplerState desc |}
  | Image =>
      GetInData_Mutable skip ndebug desc
      = GetInData_Image skip {| Image_GetImageViewState := GetSharedImageViewState desc |}
  | AccelerationStructure =>
      GetInData_Mutable skip ndebug desc
      = GetInData_AccelerationStructure skip
          {| is_khr := IsAccelerationStructureKHR desc;
             AS_GetAccelerationStructureStateKHR := GetAccelerationStructureStateKHR desc;
             AS_GetAccelerationStructureStateNV := GetAccelerationStructureStateNV desc |}
  | _ => True
  end.
Proof. unfold GetInData_Mutable. by destruct (ActiveClass desc). Qed.

(** For the general buffer the two rules agree only when the effective
    range of the direct descriptor is the size the buffer was created with. *)
Lemma GetInData_Mutable_general_buffer skip ndebug (desc : MutableDescriptor) buffer_state range :
  ActiveClass desc = GeneralBuffer →
  GetSharedBufferState desc = Some buffer_state →
  GetInData_Mutable skip ndebug desc
  = GetInData_Buffer skip
      {| Buffer_GetBufferState := Some buffer_state; Buffer_GetEffectiveRange := range |}
  ↔ wrap32 (Buffer_create_info_size buffer_state) = wrap32 range.
Proof.
  intros Hclass Hstate. unfold GetInData_Mutable, GetInData_Buffer. simpl.
  rewrite Hclass, Hstate. unfold DescriptorState_3. split; [|by intros ->].
  intros H. by simplify_eq.
Qed.

(** C7, at the failing input. For a buffer of 64 bytes, a general-buffer
    descriptor bound to a range of 16 bytes of it stores the extent 16, and a
    mutable descriptor whose active class is the general buffer, on the same
    buffer, stores the extent 64: the size the buffer was created with. *)
Theorem GetInData_Mutable_buffer_extent skip ndebug :
  GetInData_Buffer skip example_buffer_descriptor
  = Done (DescriptorState_3 GeneralBuffer 7 16) ∧
  GetInData_Mutable skip ndebug (mutable_descriptor GeneralBuffer (Some example_buffer) None)
  = Done (DescriptorState_3 GeneralBuffer 7 64) ∧
  GetInData_Mutable skip ndebug (mutable_descriptor GeneralBuffer (Some example_buffer) None)
  ≠ GetInData_Buffer skip example_buffer_descriptor.
Proof. by split_and!. Qed.

Lemma for_each_cons {A B} (body : B → A → outcome B) b a l :
  for_each body b (a :: l) = (b' ← body b a; for_each body b' l).
Proof. done. Qed.

Lemma bind_Done {A B} (m : outcome A) (k : A → outcome B) b :
  (m ≫= k) = Done b → ∃ a, m = Done a ∧ k a = Done b.
Proof. destruct m; [eauto|done..]. Qed.

Lemma FillBindingInData_step_Done {T} (GetInData : T → outcome DescriptorState)
    (b : DescriptorBindingImpl T) data index di data' index' :
  FillBindingInData_step GetInData b (data, index) di = Done (data', index') →
  ∃ is_updated in_data,
    updated b !! Z.to_nat di = Some is_updated ∧
    (is_updated = false → in_data = DescriptorState_0) ∧
    (Z.to_nat index < length data)%nat ∧
    data' = <[Z.to_nat index := Some in_data]> data ∧
    index' = wrap32 (index + 1).
Proof.
  unfold FillBindingInData_step. intros (is_updated & Hup%load_Done & H)%bind_Done.
  destruct is_updated; simpl in H.
  - apply bind_Done in H as (desc & _ & H1).
    apply bind_Done in H1 as (in_data & _ & H2).
    apply bind_Done in H2 as (d & [? ->]%store_Done & H3).
    simplify_eq. by exists true, in_data.
  - apply bind_Done in H as (d & [? ->]%store_Done & H1).
    simplify_eq. by exists false, DescriptorState_0.
Qed.

Lemma FillBindingInData_loop {T} (GetInData : T → outcome DescriptorState)
    (b : DescriptorBindingImpl T) (m : nat) :
  ∀ k data index data' index',
    0 ≤ index → index + Z.of_nat m ≤ 2 ^ 32 →
    for_each (FillBindingInData_step GetInData b) (data, index) (seqZ k (Z.of_nat m))
    = Done (data', index') →
    length data' = length data ∧
    (∀ j, (j < Z.to_nat index)%nat → data' !! j = data !! j) ∧
    (∀ di, k ≤ di < k + Z.of_nat m → updated b !! Z.to_nat di = Some false →
       data' !! Z.to_nat (index + (di - k)) = Some (Some DescriptorState_0)).
Proof.
  induction m as [|m IH]; intros k data index data' index' Hindex Hfit Hrun.
  { simpl in Hrun. simplify_eq. split_and!; [done|done|lia]. }
  rewrite seqZ_cons, for_each_cons in Hrun by lia.
  apply bind_Done in Hrun as ([data1 index1] & Hstep & Hrun).
  apply FillBindingInData_step_Done in Hstep
    as (is_updated & in_data & Hup & Hdefault & Hlt & -> & ->).
  replace (Z.pred (Z.of_nat (S m))) with (Z.of_nat m) in Hrun by lia.
  assert (length data' = length data ∧
          (∀ j, (j < S (Z.to_nat index))%nat →
             data' !! j = <[Z.to_nat index := Some in_data]> data !! j) ∧
          (∀ di, Z.succ k ≤ di < Z.succ k + Z.of_nat m →
             updated b !! Z.to_nat di = Some false →
             data' !! Z.to_nat (index + 1 + (di - Z.succ k)) = Some (Some DescriptorState_0)))
    as (Hlen & Hbefore & Hafter).
  { destruct m as [|m].
    - simpl in Hrun. simplify_eq. rewrite length_insert. split_and!; [done|done|lia].
    - assert (wrap32 (index + 1) = index + 1) as Hw
        by (unfold wrap32; rewrite Z.mod_small; lia).
      rewrite Hw in Hrun. apply IH in Hrun as (Hlen & Hbefore & Hafter); [|lia..].
      rewrite length_insert in Hlen. split_and!; [done| |done].
      intros j Hj. apply Hbefore. lia. }
  split_and!; [done| |].
  - intros j Hj. rewrite Hbefore by lia. apply list_lookup_insert_ne. lia.
  - intros di Hdi Hfalse. destruct (decide (di = k)) as [->|Hne].
    + replace (index + (k - k)) with index by lia.
      rewrite Hbefore by lia. rewrite list_lookup_insert_eq by done.
      rewrite Hfalse in Hup. simplify_eq. by rewrite Hdefault.
    + replace (index + (di - k)) with (index + 1 + (di - Z.succ k)) by lia.
      apply Hafter; [lia|done].
Qed.

(** C8, as amended. An element that was never updated yields the
    default-constructed record, with identifier 0 and extent 0, and not the
    skip identifier with the extent [kU32Max]: for every binding that the
    template [FillBindingInData] fills (all classes but the inline uniform
    block), for every element index [di] below [count] that was never
    updated, the cell [index + di] of the snapshot holds
    [DescriptorState_0]. The binding of an inline uniform block yields the
    one record [{InlineUniform, skip identifier, kU32Max}], updated or not. *)
Theorem FillBindingInData_unwritten {T} (GetInData : T → outcome DescriptorState)
    (b : DescriptorBindingImpl T) data index data' index' di :
  0 ≤ index → index + count b ≤ 2 ^ 32 →
  FillBindingInData GetInData b data index = Done (data', index') →
  0 ≤ di < count b → updated b !! Z.to_nat di = Some false →
  data' !! Z.to_nat (index + di) = Some (Some DescriptorState_0) ∧
  ∀ skip (u : DescriptorBindingImpl InlineUniformDescriptor),
    (Z.to_nat index < length data)%nat →
    FillBindingInData_InlineUniform skip u data index
    = Done (<[Z.to_nat index := Some (DescriptorState_3 InlineUniform skip kU32Max)]> data,
            wrap32 (index + 1)).
Proof.
  intros Hindex Hfit Hrun Hdi Hfalse. split.
  - unfold FillBindingInData in Hrun.
    rewrite <- (Z2Nat.id (count b)) in Hrun by lia.
    apply FillBindingInData_loop in Hrun as (_ & _ & Hcells); [|lia..].
    replace (index + di) with (index + (di - 0)) by lia. apply Hcells; [lia|done].
  - intros skip u Hlt. unfold FillBindingInData_InlineUniform, store.
    by rewrite decide_True.
Qed.

Lemma FillBindingInData_unwritten_witness :
  [Some DescriptorState_0] !! Z.to_nat (0 + 0) = Some (Some DescriptorState_0) ∧
  ∀ skip (u : DescriptorBindingImpl InlineUniformDescriptor),
    (Z.to_nat 0 < length [@None DescriptorState])%nat →
    FillBindingInData_InlineUniform skip u [None] 0
    = Done (<[Z.to_nat 0 := Some (DescriptorState_3 InlineUniform skip kU32Max)]> [None],
            wrap32 (0 + 1)).
Proof.
  apply (FillBindingInData_unwritten (GetInData_Buffer 0) unwritten_buffer_binding
           [None] 0 [Some DescriptorState_0] 1 0); by vm_compute.
Defined.

(** C8, the claim as stated fails: the one element of a general-buffer
    binding (a class that tracks the extent) that was never updated yields a
    record whose extent is 0 and not [kU32Max], whatever the skip
    identifier is. *)
Lemma FillBindingInData_unwritten_extent :
  count unwritten_buffer_binding = 1 ∧
  updated unwritten_buffer_binding !! 0%nat = Some false ∧
  ∀ skip, ∃ record : DescriptorState,
    FillBindingInData (GetInData_Buffer skip) unwritten_buffer_binding [None] 0
    = Done ([Some record], 1) ∧
    extent record = 0 ∧ extent record ≠ kU32Max.
Proof. split_and!; [done..|]. intros skip. by exists DescriptorState_0. Qed.

(** ** The layout buffer *)

Lemma wrap32_small z : u32 z → wrap32 z = z.
Proof. intros Hz. unfold wrap32. by rewrite Z.mod_small. Qed.

Lemma GetLayoutState_step_Done layout_data start b layout_data' start' :
  GetLayoutState_step (layout_data, start) b = Done (layout_data', start') ↔
  (Z.to_nat (wrap32 (binding_index b + 1)) < length layout_data)%nat ∧
  layout_data' = <[Z.to_nat (wrap32 (binding_index b + 1)) :=
                     {| layout_count := element_count b; state_start := start |}]> layout_data ∧
  start' = wrap32 (start + element_count b).
Proof.
  unfold GetLayoutState_step, element_count.
  destruct (decide (VK_DESCRIPTOR_TYPE_INLINE_UNIFORM_BLOCK_EXT = binding_type b)),
    (decide (binding_type b = VK_DESCRIPTOR_TYPE_INLINE_UNIFORM_BLOCK_EXT));
    try congruence.
  - split.
    + intros (d & [Hlt ->]%store_Done & Hret)%bind_Done. by simplify_eq.
    + intros (Hlt & -> & ->). unfold store. by rewrite decide_True.
  - split.
    + intros (d & [Hlt ->]%store_Done & Hret)%bind_Done. by simplify_eq.
    + intros (Hlt & -> & ->). unfold store. by rewrite decide_True.
Qed.

(** The walk over the bindings: each binding gets its record, with the
    elements of the bindings before it as offset, and no other record
    changes. *)
Lemma GetLayoutState_walk (bs : list DescriptorBinding) :
  ∀ layout_data start,
    Forall (λ b, (Z.to_nat (wrap32 (binding_index b + 1)) < length layout_data)%nat) bs →
    NoDup ((λ b, Z.to_nat (wrap32 (binding_index b + 1))) <$> bs) →
    ∃ layout_data' start',
      for_each GetLayoutState_step (layout_data, start) bs = Done (layout_data', start') ∧
      length layout_data' = length layout_data ∧
      (∀ k b, bs !! k = Some b →
         layout_data' !! Z.to_nat (wrap32 (binding_index b + 1))
         = Some {| layout_count := element_count b;
                   state_start :=
                     foldl (λ n b, wrap32 (n + element_count b)) start (take k bs) |}) ∧
      (∀ j, (∀ b, b ∈ bs → Z.to_nat (wrap32 (binding_index b + 1)) ≠ j) →
         layout_data' !! j = layout_data !! j).
Proof.
  induction bs as [|b bs IH]; intros layout_data start Hin Hnd.
  { exists layout_data, start. split_and!; try done. }
  apply Forall_cons in Hin as [Hb Hin]. rewrite fmap_cons in Hnd.
  apply NoDup_cons in Hnd as [Hfresh Hnd].
  set (slot := Z.to_nat (wrap32 (binding_index b + 1))) in *.
  set (rec := {| layout_count := element_count b; state_start := start |}).
  destruct (IH (<[slot := rec]> layout_data) (wrap32 (start + element_count b)))
    as (layout_data' & start' & Hrun & Hlen & Hrecs & Hrest); [|done|].
  { eapply Forall_impl; [exact Hin|]. intros b'. simpl. by rewrite length_insert. }
  exists layout_data', start'. split_and!.
  - rewrite for_each_cons.
    assert (GetLayoutState_step (layout_data, start) b
            = Done (<[slot := rec]> layout_data, wrap32 (start + element_count b))) as ->
      by by apply GetLayoutState_step_Done.
    done.
  - by rewrite Hlen, length_insert.
  - intros [|k] b' Hk; simpl in Hk.
    + simplify_eq. simpl. rewrite Hrest.
      * by apply list_lookup_insert_eq.
      * intros b2 Hb2 Heq. apply Hfresh. apply list_elem_of_fmap. by exists b2.
    + simpl. by apply Hrecs.
  - intros j Hj. rewrite Hrest.
    + apply list_lookup_insert_ne. apply Hj. by left.
    + intros b' Hb'. apply Hj. by right.
Qed.

Lemma StronglySorted_lt_NoDup (l : list Z) : StronglySorted Z.lt l → NoDup l.
Proof.
  induction 1 as [|x l _ IH Hall]; constructor; [|done].
  intros Hx. eapply (proj1 (Forall_forall _ _)) in Hall; [|exact Hx]. lia.
Qed.

Lemma layout_fits_slots ds :
  layout_fits ds →
  (1 ≤ Z.to_nat (wrap32 (1 + num_bindings ds)))%nat ∧
  0 ≤ num_bindings ds ∧ wrap32 (1 + num_bindings ds) = 1 + num_bindings ds ∧
  ∀ b, b ∈ bindings_ ds →
    wrap32 (binding_index b + 1) = binding_index b + 1 ∧
    0 ≤ binding_index b < num_bindings ds.
Proof.
  intros [Hcount Hmax Hindex]. unfold num_bindings.
  destruct (decide (0 < GetBindingCount ds)) as [Hpos|Hzero].
  - specialize (Hmax Hpos).
    rewrite (wrap32_small (GetMaxBinding ds + 1)) by (unfold u32; lia).
    rewrite wrap32_small by (unfold u32; lia).
    split_and!; [lia..|]. intros b Hb.
    eapply (proj1 (Forall_forall _ _)) in Hindex; [|exact Hb]. simpl in Hindex.
    rewrite wrap32_small by (unfold u32; lia). lia.
  - split_and!; [by vm_compute|done|done|].
    intros b Hb. destruct (bindings_ ds); [by apply elem_of_nil in Hb|].
    destruct Hzero. by apply Hcount.
Qed.

(** C4. The layout buffer. For a set whose layout buffer is not built yet
    and whose bindings are listed in ascending order of their binding index,
    [GetLayoutState] returns and leaves a buffer in which record 0 is
    [{num_bindings, 0}], the record at slot [binding index + 1] of each
    binding is [{element count, running offset}], the running offset being
    the element counts of the bindings before it added up ([element_count]
    is 1 for an inline uniform block and [count] otherwise), and the record
    of an index below [num_bindings] that no binding has is zero. For
    bindings at the indices 0, 1 and 3 with 3, 1 and 2 elements the records
    are [{4,0}], [{3,0}], [{1,3}], [{0,0}] and [{2,4}]: offsets 0, 3 and 4,
    and a zero record for index 2. *)
Theorem GetLayoutState_layout :
  (∀ addr ds,
     layout_fits ds → device_addr (layout_ ds) = 0 →
     StronglySorted Z.lt (binding_index <$> bindings_ ds) →
     ∃ layout_data ds',
       GetLayoutState addr ds = Done (addr, ds') ∧
       layout_ ds' = {| allocation := Some layout_data; device_addr := addr |} ∧
       layout_data !! 0%nat = Some {| layout_count := num_bindings ds; state_start := 0 |} ∧
       (∀ k b, bindings_ ds !! k = Some b →
          layout_data !! Z.to_nat (binding_index b + 1)
          = Some {| layout_count := element_count b;
                    state_start := count_descriptors (take k (bindings_ ds)) |}) ∧
       (∀ j, 0 ≤ j < num_bindings ds → j ∉ binding_index <$> bindings_ ds →
          layout_data !! Z.to_nat (j + 1) = Some {| layout_count := 0; state_start := 0 |})) ∧
  (∃ ds',
     GetLayoutState 4096 layout_example_set = Done (4096, ds') ∧
     allocation (layout_ ds')
     = Some [ {| layout_count := 4; state_start := 0 |};
              {| layout_count := 3; state_start := 0 |};
              {| layout_count := 1; state_start := 3 |};
              {| layout_count := 0; state_start := 0 |};
              {| layout_count := 2; state_start := 4 |} ]).
Proof.
  split; [|by eexists].
  intros addr ds Hfits Haddr Hsorted.
  destruct (layout_fits_slots ds Hfits) as (Hlen & Hnum & Hrecords & Hslots).
  set (zero := {| layout_count := 0; state_start := 0 |}).
  set (header := {| layout_count := num_bindings ds; state_start := 0 |}).
  set (fresh_data := replicate (Z.to_nat (wrap32 (1 + num_bindings ds))) zero).
  destruct (GetLayoutState_walk (bindings_ ds) (<[0%nat := header]> fresh_data) 0)
    as (layout_data & start & Hrun & Hlength & Hrecs & Hrest).
  { apply Forall_forall. intros b Hb. destruct (Hslots b Hb) as [-> Hb'].
    unfold fresh_data. rewrite length_insert, length_replicate, Hrecords. lia. }
  { rewrite (list_fmap_compose binding_index (λ z, Z.to_nat (wrap32 (z + 1)))).
    apply NoDup_fmap_2_strong; [|by apply StronglySorted_lt_NoDup].
    intros x y [bx [-> Hbx]]%list_elem_of_fmap [by' [-> Hby]]%list_elem_of_fmap.
    destruct (Hslots bx Hbx) as [-> ?], (Hslots by' Hby) as [-> ?]. lia. }
  exists layout_data. eexists. split_and!.
  - unfold GetLayoutState. rewrite decide_False by (intros H; by apply H).
    fold zero header fresh_data. unfold store at 1.
    rewrite decide_True by (unfold fresh_data; rewrite length_replicate; simpl; lia).
    simpl. change (Z.to_nat 0) with 0%nat. rewrite Hrun. simpl. reflexivity.
  - done.
  - rewrite Hrest.
    + apply list_lookup_insert_eq. unfold fresh_data. rewrite length_replicate. lia.
    + intros b Hb. destruct (Hslots b Hb) as [-> ?]. lia.
  - intros k b Hk. destruct (Hslots b) as [<- _]; [by eapply list_elem_of_lookup_2|].
    by apply Hrecs.
  - intros j Hj Hfree. rewrite Hrest.
    + rewrite list_lookup_insert_ne by lia. apply lookup_replicate_2.
      rewrite Hrecords. lia.
    + intros b Hb. destruct (Hslots b Hb) as [-> ?].
      assert (binding_index b ≠ j); [|lia].
      intros <-. apply Hfree. apply list_elem_of_fmap. by exists b.
Qed.

Lemma GetLayoutState_layout_witness :
  ∃ layout_data ds',
    GetLayoutState 4096 layout_example_set = Done (4096, ds') ∧
    layout_ ds' = {| allocation := Some layout_data; device_addr := 4096 |} ∧
    layout_data !! 0%nat
    = Some {| layout_count := num_bindings layout_example_set; state_start := 0 |} ∧
    (∀ k b, bindings_ layout_example_set !! k = Some b →
       layout_data !! Z.to_nat (binding_index b + 1)
       = Some {| layout_count := element_count b;
                 state_start := count_descriptors (take k (bindings_ layout_example_set)) |}) ∧
    (∀ j, 0 ≤ j < num_bindings layout_example_set →
       j ∉ binding_index <$> bindings_ layout_example_set →
       layout_data !! Z.to_nat (j + 1) = Some {| layout_count := 0; state_start := 0 |}).
Proof.
  apply (proj1 GetLayoutState_layout 4096 layout_example_set).
  - split; [by vm_compute|by vm_compute|].
    repeat constructor; by vm_compute.
  - done.
  - repeat constructor; by vm_compute.
Defined.

(** ** The read-back of the output buffer *)

Lemma seqZ_of_nat m len : seqZ m len = seqZ m (Z.of_nat (Z.to_nat len)).
Proof. unfold seqZ. by rewrite Nat2Z.id. Qed.

Lemma UsedDescriptors_element_in data shader_set binding start used i word :
  data !! Z.to_nat (wrap32 (start + i)) = Some word →
  UsedDescriptors_element data shader_set binding start used i
  = Done (if decide (word = shader_set) then add_used used binding i else used).
Proof.
  intros Hword. unfold UsedDescriptors_element, load. rewrite Hword. simpl.
  by case_decide.
Qed.

Lemma UsedDescriptors_elements data shader_set binding start (m : nat) :
  ∀ k (used : gmap Z (list Z)),
    (∀ i, k ≤ i < k + Z.of_nat m →
       (Z.to_nat (wrap32 (start + i)) < length data)%nat) →
    ∃ used',
      for_each (UsedDescriptors_element data shader_set binding start) used
        (seqZ k (Z.of_nat m)) = Done used' ∧
      (∀ b, b ≠ binding → used' !! b = used !! b) ∧
      used' !! binding
      = match filter (tagged data shader_set start) (seqZ k (Z.of_nat m)) with
        | [] => used !! binding
        | l => Some (default [] (used !! binding) ++ l)
        end.
Proof.
  induction m as [|m IH]; intros k used Hin.
  { exists used. by split_and!. }
  rewrite seqZ_cons by lia.
  replace (Z.pred (Z.of_nat (S m))) with (Z.of_nat m) by lia.
  rewrite for_each_cons, filter_cons.
  destruct (lookup_lt_is_Some_2 data (Z.to_nat (wrap32 (start + k)))) as [word Hword];
    [apply Hin; lia|].
  rewrite (UsedDescriptors_element_in _ _ _ _ _ _ _ Hword).
  destruct (decide (word = shader_set)) as [->|Hne]; simpl.
  - destruct (IH (Z.succ k) (add_used used binding k)) as (used' & -> & Hother & Hthis).
    { intros i Hi. apply Hin. lia. }
    exists used'. split_and!; [done| |].
    + intros b Hb. rewrite Hother by done. unfold add_used. by rewrite lookup_insert_ne.
    + rewrite decide_True by done. rewrite Hthis. unfold add_used.
      rewrite lookup_insert_eq. simpl.
      destruct (filter _ _); [done|]. by rewrite <- app_assoc.
  - destruct (IH (Z.succ k) used) as (used' & -> & Hother & Hthis).
    { intros i Hi. apply Hin. lia. }
    exists used'. split_and!; [done|done|].
    rewrite decide_False by (unfold tagged; congruence). done.
Qed.

Lemma UsedDescriptors_binding_in layout_data data shader_set used binding layout :
  layout_data !! Z.to_nat (binding + 1) = Some layout →
  UsedDescriptors_binding layout_data data shader_set used binding
  = for_each (UsedDescriptors_element data shader_set binding (state_start layout))
      used (seqZ 0 (layout_count layout)).
Proof. intros Hlayout. unfold UsedDescriptors_binding, load. by rewrite Hlayout. Qed.

Lemma UsedDescriptors_bindings layout_data data shader_set (m : nat) :
  ∀ k (used : gmap Z (list Z)),
    0 ≤ k →
    (∀ b, k ≤ b → used !! b = None) →
    (∀ b, k ≤ b < k + Z.of_nat m →
       ∃ layout, layout_data !! Z.to_nat (b + 1) = Some layout ∧
         ∀ i, 0 ≤ i < layout_count layout →
           (Z.to_nat (wrap32 (state_start layout + i)) < length data)%nat) →
    ∃ used',
      for_each (UsedDescriptors_binding layout_data data shader_set) used
        (seqZ k (Z.of_nat m)) = Done used' ∧
      (∀ b, b < k → used' !! b = used !! b) ∧
      (∀ b layout, k ≤ b < k + Z.of_nat m →
         layout_data !! Z.to_nat (b + 1) = Some layout →
         used' !! b = used_entry (used_elements data shader_set layout)) ∧
      (∀ b, k + Z.of_nat m ≤ b → used' !! b = None).
Proof.
  induction m as [|m IH]; intros k used Hk Hnone Hin.
  { exists used. split_and!; [done|done|lia|]. intros b Hb. apply Hnone. lia. }
  rewrite seqZ_cons by lia.
  replace (Z.pred (Z.of_nat (S m))) with (Z.of_nat m) by lia.
  rewrite for_each_cons.
  destruct (Hin k) as (layout & Hlayout & Hcells); [lia|].
  rewrite (UsedDescriptors_binding_in _ _ _ _ _ _ Hlayout).
  rewrite (seqZ_of_nat 0 (layout_count layout)).
  destruct (UsedDescriptors_elements data shader_set k (state_start layout)
              (Z.to_nat (layout_count layout)) 0 used)
    as (used1 & -> & Hother & Hthis).
  { intros i Hi. apply Hcells. lia. }
  rewrite <- seqZ_of_nat in Hthis. simpl.
  destruct (IH (Z.succ k) used1) as (used' & -> & Hbefore & Hrecs & Hafter); [lia| | |].
  { intros b Hb. rewrite Hother by lia. apply Hnone. lia. }
  { intros b Hb. apply Hin. lia. }
  exists used'. split_and!; [done| | |].
  - intros b Hb. rewrite Hbefore by lia. apply Hother. lia.
  - intros b layout' Hb Hlayout'. destruct (decide (b = k)) as [->|Hne].
    + rewrite Hbefore by lia. rewrite Hthis, Hnone by lia.
      rewrite Hlayout in Hlayout'. simplify_eq. unfold used_elements, used_entry.
      by destruct (filter _ _).
    + apply Hrecs; [lia|done].
  - intros b Hb. apply Hafter. lia.
Qed.

(** C9. [UsedDescriptors] returns the empty mapping for a state with no
    output buffer. For a state with an output buffer and a layout buffer
    whose records and offsets stay inside the two buffers, it returns a
    mapping that has, for every binding [b] below the count of record 0,
    the element indices [i] of the binding, in ascending order, whose cell
    [start + i] of the output buffer equals the tag, has no entry for a
    binding with no such element, and has no other entry. For binding 0 of 3
    elements at offset 0 and cells 0 and 2 holding the tag 5, the mapping
    for the tag 5 is [{0: [0, 2]}]. *)
Theorem UsedDescriptors_decodes :
  (∀ (st : State Z) ds shader_set,
     allocation (buffer st) = None → UsedDescriptors st ds shader_set = Done ∅) ∧
  (∀ (st : State Z) ds shader_set data layout_data header,
     allocation (buffer st) = Some data →
     allocation (layout_ ds) = Some layout_data →
     layout_data !! 0%nat = Some header →
     (∀ b, 0 ≤ b < layout_count header →
        ∃ layout, layout_data !! Z.to_nat (b + 1) = Some layout ∧
          ∀ i, 0 ≤ i < layout_count layout →
            (Z.to_nat (wrap32 (state_start layout + i)) < length data)%nat) →
     ∃ used_descs,
       UsedDescriptors st ds shader_set = Done used_descs ∧
       (∀ b layout, 0 ≤ b < layout_count header →
          layout_data !! Z.to_nat (b + 1) = Some layout →
          used_descs !! b = used_entry (used_elements data shader_set layout)) ∧
       (∀ b, ¬ (0 ≤ b < layout_count header) → used_descs !! b = None)) ∧
  UsedDescriptors used_example_state used_example_set 5 = Done {[0 := [0; 2]]}.
Proof.
  split_and!; [| |by vm_compute].
  { intros st ds shader_set Hnone. unfold UsedDescriptors. by rewrite Hnone. }
  intros st ds shader_set data layout_data header Hdata Hlayout Hheader Hin.
  unfold UsedDescriptors. rewrite Hdata, Hlayout. unfold load at 1.
  change (Z.to_nat 0) with 0%nat. rewrite Hheader. simpl.
  rewrite (seqZ_of_nat 0 (layout_count header)).
  destruct (UsedDescriptors_bindings layout_data data shader_set
              (Z.to_nat (layout_count header)) 0 ∅)
    as (used_descs & -> & Hbefore & Hrecs & Hafter); [done|done| |].
  { intros b Hb. apply Hin. lia. }
  exists used_descs. split_and!; [done| |].
  - intros b layout Hb. apply Hrecs. lia.
  - intros b Hb. destruct (decide (b < 0)) as [Hneg|Hpos]; [|apply Hafter; lia].
    by rewrite Hbefore.
Qed.

Lemma UsedDescriptors_decodes_witness :
  ∃ used_descs,
    UsedDescriptors used_example_state used_example_set 5 = Done used_descs ∧
    (∀ b layout, 0 ≤ b < 1 →
       [ {| layout_count := 1; state_start := 0 |}; {| layout_count := 3; state_start := 0 |} ]
         !! Z.to_nat (b + 1) = Some layout →
       used_descs !! b = used_entry (used_elements [5; 0; 5] 5 layout)) ∧
    (∀ b, ¬ (0 ≤ b < 1) → used_descs !! b = None).
Proof.
  apply (proj1 (proj2 UsedDescriptors_decodes) used_example_state used_example_set 5
           [5; 0; 5]
           [ {| layout_count := 1; state_start := 0 |};
             {| layout_count := 3; state_start := 0 |} ]
           {| layout_count := 1; state_start := 0 |}); [done..|].
  intros b Hb. assert (b = 0) as -> by (simpl in Hb; lia).
  eexists. split; [done|]. simpl. intros i Hi.
  assert (i = 0 ∨ i = 1 ∨ i = 2) as [->|[->| ->]] by lia; vm_compute; lia.
Defined.

(** ** The cached snapshot *)

Lemma build_current_state_Done skip ndebug objects addr ds snapshot ds' objects' :
  build_current_state skip ndebug objects addr ds = Done (snapshot, ds', objects') →
  ptr snapshot = fresh objects ∧
  objects' = {[fresh objects]} ∪ objects ∧
  version (pointee snapshot) = current_version_ ds ∧
  ds' = set_last_used_state_ ds snapshot.
Proof.
  unfold build_current_state, make_shared. intros H.
  destruct (decide (_ = 0)).
  - by simplify_eq.
  - apply bind_Done in H as ([data index] & _ & H1). by simplify_eq.
Qed.

Lemma GetCurrentState_hit skip ndebug objects addr ds cached :
  last_used_state_ ds = Some cached →
  version (pointee cached) = current_version_ ds →
  GetCurrentState skip ndebug objects addr ds = Done (cached, ds, objects).
Proof. intros Hcached Hversion. unfold GetCurrentState. by rewrite Hcached, decide_True. Qed.

Lemma GetCurrentState_miss skip ndebug objects addr ds :
  (∀ cached, last_used_state_ ds = Some cached →
     version (pointee cached) ≠ current_version_ ds) →
  GetCurrentState skip ndebug objects addr ds = build_current_state skip ndebug objects addr ds.
Proof.
  intros Hstale. unfold GetCurrentState.
  destruct (last_used_state_ ds) as [cached|]; [|done].
  rewrite decide_False; [done|]. by apply Hstale.
Qed.

Lemma GetCurrentState_Done skip ndebug objects addr ds snapshot ds' objects' :
  (∀ cached, last_used_state_ ds = Some cached → ptr cached ∈ objects) →
  GetCurrentState skip ndebug objects addr ds = Done (snapshot, ds', objects') →
  last_used_state_ ds' = Some snapshot ∧
  version (pointee snapshot) = current_version_ ds ∧
  current_version_ ds' = current_version_ ds ∧
  ptr snapshot ∈ objects'.
Proof.
  intros Hlive. unfold GetCurrentState.
  destruct (last_used_state_ ds) as [cached|] eqn:Hcached.
  - case_decide as Hversion.
    + intros H. simplify_eq. split_and!; [done..|]. by apply Hlive.
    + intros (Hptr & -> & Hv & ->)%build_current_state_Done.
      split_and!; [done..|]. rewrite Hptr. set_solver.
  - intros (Hptr & -> & Hv & ->)%build_current_state_Done.
    split_and!; [done..|]. rewrite Hptr. set_solver.
Qed.

Lemma updates_version ds ds' :
  updates ds ds' →
  current_version_ ds' = wrap32 (current_version_ ds + 1) ∧
  last_used_state_ ds' = last_used_state_ ds.
Proof. by intros []. Qed.

(** ** Snapshots that can be built *)

Lemma FillBindingInData_step_defined {T} (GetInData : T → outcome DescriptorState)
    (b : DescriptorBindingImpl T) data index di :
  binding_defined GetInData b → 0 ≤ di < count b →
  0 ≤ index → index < Z.of_nat (length data) < 2 ^ 32 →
  ∃ data',
    FillBindingInData_step GetInData b (data, index) di = Done (data', index + 1) ∧
    length data' = length data.
Proof.
  intros (Hcount & Hflags & Hdescs) Hdi Hindex Hlen.
  destruct (lookup_lt_is_Some_2 (updated b) (Z.to_nat di)) as [is_updated Hup]; [lia|].
  assert (wrap32 (index + 1) = index + 1) as Hw by (apply wrap32_small; unfold u32; lia).
  unfold FillBindingInData_step, load, store. rewrite Hup. simpl.
  destruct is_updated; simpl.
  - destruct (Hdescs _ Hup) as (desc & in_data & Hdesc & Hread).
    rewrite Hdesc. simpl. rewrite Hread. simpl.
    rewrite decide_True by lia. simpl. rewrite Hw.
    eexists. split; [done|]. by rewrite length_insert.
  - rewrite decide_True by lia. simpl. rewrite Hw.
    eexists. split; [done|]. by rewrite length_insert.
Qed.

Lemma FillBindingInData_defined {T} (GetInData : T → outcome DescriptorState)
    (b : DescriptorBindingImpl T) data index :
  binding_defined GetInData b →
  0 ≤ index → index + count b ≤ Z.of_nat (length data) < 2 ^ 32 →
  ∃ data',
    FillBindingInData GetInData b data index = Done (data', index + count b) ∧
    length data' = length data.
Proof.
  intros Hdef Hindex Hlen. unfold FillBindingInData.
  assert (0 ≤ count b) as Hcount by apply Hdef.
  assert (∀ (m : nat) k data index,
            0 ≤ k → k + Z.of_nat m ≤ count b →
            0 ≤ index → index + Z.of_nat m ≤ Z.of_nat (length data) < 2 ^ 32 →
            ∃ data',
              for_each (FillBindingInData_step GetInData b) (data, index)
                (seqZ k (Z.of_nat m)) = Done (data', index + Z.of_nat m) ∧
              length data' = length data) as Hloop.
  { clear data index Hindex Hlen.
    induction m as [|m IH]; intros k data index Hk Hm Hindex Hlen.
    { exists data. simpl. split; [by rewrite Z.add_0_r|done]. }
    rewrite seqZ_cons, for_each_cons by lia.
    replace (Z.pred (Z.of_nat (S m))) with (Z.of_nat m) by lia.
    destruct (FillBindingInData_step_defined GetInData b data index k)
      as (data1 & -> & Hlen1); [done|lia|done|lia|]. simpl.
    destruct (IH (Z.succ k) data1 (index + 1)) as (data' & -> & Hlen'); [lia..|].
    exists data'. split; [f_equal; f_equal; lia|congruence]. }
  rewrite (seqZ_of_nat 0 (count b)).
  destruct (Hloop (Z.to_nat (count b)) 0 data index) as (data' & -> & Hlen'); [lia..|].
  exists data'. split; [f_equal; f_equal; lia|done].
Qed.

Lemma fill_binding_defined skip ndebug b data index :
  fill_defined skip ndebug b →
  0 ≤ index → index + element_count b ≤ Z.of_nat (length data) < 2 ^ 32 →
  ∃ data' index',
    fill_binding skip ndebug (data, index) b = Done (data', index') ∧
    length data' = length data ∧ index ≤ index' ≤ index + element_count b.
Proof.
  intros Hdef Hindex. unfold element_count, binding_type, binding_count.
  destruct b as [i|i|i|i|i|i|i|i|i]; simpl in *.
  1: { rewrite decide_True by done. intros Hlen.
       unfold FillBindingInData_InlineUniform, store.
       rewrite decide_True by lia. simpl.
       rewrite wrap32_small by (unfold u32; lia).
       eexists _, _. split; [done|]. rewrite length_insert. split; [done|lia]. }
  8: { destruct Hdef as [Htype Hcount]. rewrite decide_False by done. intros Hlen.
       exists data, index. split; [done|]. split; [done|lia]. }
  all: destruct Hdef as [Htype Hdef]; rewrite decide_False by done; intros Hlen;
    destruct (FillBindingInData_defined _ i data index Hdef Hindex Hlen) as (data' & -> & ?);
    eexists _, _; (split; [done|]); (split; [done|]); destruct Hdef; lia.
Qed.

Lemma fill_defined_nonneg skip ndebug b : fill_defined skip ndebug b → 0 ≤ element_count b.
Proof.
  unfold element_count, binding_type, binding_count.
  destruct b as [i|i|i|i|i|i|i|i|i]; simpl; intros Hdef.
  1: by rewrite decide_True.
  8: { destruct Hdef. by rewrite decide_False. }
  all: destruct Hdef as [? [? _]]; by rewrite decide_False.
Qed.

Lemma total_elements_nonneg skip ndebug bs :
  Forall (fill_defined skip ndebug) bs → 0 ≤ total_elements bs.
Proof.
  induction 1 as [|b bs Hb _ IH]; simpl; [done|].
  apply fill_defined_nonneg in Hb. lia.
Qed.

Lemma fill_bindings_defined skip ndebug bs :
  ∀ data index,
    Forall (fill_defined skip ndebug) bs →
    0 ≤ index → index + total_elements bs ≤ Z.of_nat (length data) < 2 ^ 32 →
    ∃ data' index',
      for_each (fill_binding skip ndebug) (data, index) bs = Done (data', index') ∧
      length data' = length data.
Proof.
  induction bs as [|b bs IH]; intros data index Hall Hindex Hlen.
  { by exists data, index. }
  apply Forall_cons in Hall as [Hb Hall]. simpl in Hlen.
  pose proof (total_elements_nonneg skip ndebug bs Hall) as Hrest.
  destruct (fill_binding_defined skip ndebug b data index Hb Hindex)
    as (data1 & index1 & Hfill & Hlen1 & Hindex1); [lia|].
  destruct (IH data1 index1 Hall) as (data' & index' & Hrun & Hlen'); [lia|lia|].
  exists data', index'. rewrite for_each_cons, Hfill. simpl.
  split; [done|congruence].
Qed.

Lemma count_descriptors_total skip ndebug bs :
  Forall (fill_defined skip ndebug) bs → total_elements bs < 2 ^ 32 →
  count_descriptors bs = total_elements bs.
Proof.
  intros Hall Htotal. unfold count_descriptors.
  assert (∀ n, 0 ≤ n → n + total_elements bs < 2 ^ 32 →
            foldl (λ descriptor_count b, wrap32 (descriptor_count + element_count b)) n bs
            = n + total_elements bs) as Hfold; [|by rewrite Hfold].
  clear Htotal. induction Hall as [|b bs Hb Hall IH]; intros n Hn Hfit; simpl in *.
  { lia. }
  apply fill_defined_nonneg in Hb.
  pose proof (total_elements_nonneg skip ndebug bs Hall).
  rewrite wrap32_small by (unfold u32; lia). rewrite IH by lia. lia.
Qed.

(** [GetCurrentState] returns a snapshot for every set whose bindings can
    be filled. *)
Lemma GetCurrentState_defined skip ndebug objects addr ds :
  snapshot_defined skip ndebug ds →
  ∃ snapshot ds' objects',
    GetCurrentState skip ndebug objects addr ds = Done (snapshot, ds', objects').
Proof.
  intros [Hall Htotal].
  assert (∃ snapshot ds' objects',
            build_current_state skip ndebug objects addr ds = Done (snapshot, ds', objects'))
    as Hbuild.
  { unfold build_current_state, make_shared.
    destruct (decide (_ = 0)) as [|Hcount]; [by eexists _, _, _|].
    destruct (decide (0 < GetBindingCount ds)); [|done].
    rewrite (count_descriptors_total skip ndebug) in * by done.
    pose proof (total_elements_nonneg skip ndebug _ Hall).
    destruct (fill_bindings_defined skip ndebug (bindings_ ds)
                (replicate (Z.to_nat (total_elements (bindings_ ds))) None) 0 Hall)
      as (data' & index' & -> & _); [done|rewrite length_replicate; lia|].
    simpl. by eexists _, _, _. }
  unfold GetCurrentState. destruct (last_used_state_ ds) as [cached|]; [|done].
  case_decide; [by eexists _, _, _|done].
Qed.

(** * Further properties of the code *)

(** ** The size of a bit buffer *)

(** [BitBufferSize] rounds up to whole 32-bit words: for [num_bits] up to
    [2^32 - 32] the result is a multiple of 4 bytes that holds [num_bits]
    bits and fewer than 32 bits more. Above that, [num_bits + 31] wraps and
    the result is 0. *)
Theorem BitBufferSize_rounds_up num_bits :
  u32 num_bits →
  (num_bits ≤ 2 ^ 32 - 32 →
     BitBufferSize num_bits `mod` 4 = 0 ∧
     num_bits ≤ 8 * BitBufferSize num_bits < num_bits + 32) ∧
  (2 ^ 32 - 32 < num_bits → BitBufferSize num_bits = 0).
Proof.
  intros [Hn0 Hn]. split.
  - intros Hfit.
    assert (BitBufferSize num_bits = (num_bits + 31) `div` 32 * 4) as ->.
    { unfold BitBufferSize.
      assert (wrap32 (num_bits + (kBitsPerWord - 1)) = num_bits + 31) as ->.
      { unfold wrap32, kBitsPerWord. rewrite Z.mod_small; lia. }
      rewrite land_align32 by (unfold u32; lia).
      unfold kBitsPerWord. rewrite Z.div_mul by lia.
      assert (0 ≤ (num_bits + 31) `div` 32 < 2 ^ 27).
      { split; [apply Z.div_pos; lia|apply Z.div_lt_upper_bound; lia]. }
      apply wrap32_small. unfold u32. lia. }
    rewrite Z.mod_mul by lia. split; [done|].
    pose proof (Z.div_mod (num_bits + 31) 32 ltac:(lia)).
    pose proof (Z.mod_pos_bound (num_bits + 31) 32 ltac:(lia)). lia.
  - intros Hwrap. unfold BitBufferSize.
    assert (wrap32 (num_bits + (kBitsPerWord - 1)) = num_bits + 31 - 2 ^ 32) as ->.
    { unfold wrap32, kBitsPerWord.
      replace (num_bits + (32 - 1)) with (num_bits + 31 - 2 ^ 32 + 1 * 2 ^ 32) by lia.
      rewrite Z.mod_add by lia. apply Z.mod_small. lia. }
    rewrite land_align32 by (unfold u32; lia).
    rewrite (Z.div_small (num_bits + 31 - 2 ^ 32)) by lia. done.
Qed.

Lemma BitBufferSize_rounds_up_witness :
  (33 ≤ 2 ^ 32 - 32 →
     BitBufferSize 33 `mod` 4 = 0 ∧ 33 ≤ 8 * BitBufferSize 33 < 33 + 32) ∧
  (2 ^ 32 - 32 < 33 → BitBufferSize 33 = 0).
Proof. apply (BitBufferSize_rounds_up 33). by vm_compute. Defined.

(** ** The words of the bitmap *)

Lemma u32_bits_high x n : u32 x → 32 ≤ n → Z.testbit x n = false.
Proof.
  intros Hx Hn. rewrite <- (Z.mod_small x (2 ^ 32)) by done.
  apply Z.mod_pow2_bits_high. lia.
Qed.

Lemma u32_of_bits x : 0 ≤ x → (∀ n, 32 ≤ n → Z.testbit x n = false) → u32 x.
Proof.
  intros Hx Hhigh.
  assert (x = x `mod` 2 ^ 32) as ->.
  { apply Z.bits_inj'. intros n Hn. destruct (decide (n < 32)).
    - by rewrite Z.mod_pow2_bits_low.
    - rewrite Z.mod_pow2_bits_high by lia. apply Hhigh. lia. }
  apply Z.mod_pos_bound. lia.
Qed.

Lemma set_mask_u32 word k : u32 word → 0 ≤ k < 32 → u32 (Z.lor word (Z.shiftl 1 k)).
Proof.
  intros Hw Hk. apply u32_of_bits.
  - apply Z.lor_nonneg. split; [apply Hw|]. rewrite Z.shiftl_1_l. lia.
  - intros n Hn. rewrite testbit_set_mask by lia.
    rewrite (u32_bits_high word) by done.
    rewrite bool_decide_eq_false_2 by lia. done.
Qed.

Lemma clear_mask_u32 word mask : u32 word → u32 (Z.land word mask).
Proof.
  intros Hw. apply u32_of_bits.
  - apply Z.land_nonneg. left. apply Hw.
  - intros n Hn. by rewrite Z.land_spec, (u32_bits_high word).
Qed.

(** Clearing a bit that is clear leaves the word as it is, and so does
    clearing a bit that was just set in a word where it was clear. *)
Lemma clear_mask_id word k :
  u32 word → 0 ≤ k < 32 → Z.testbit word k = false →
  Z.land word (wrap32 (Z.lnot (Z.shiftl 1 k))) = word ∧
  Z.land (Z.lor word (Z.shiftl 1 k)) (wrap32 (Z.lnot (Z.shiftl 1 k))) = word.
Proof.
  intros Hw Hk Hclear. split; apply Z.bits_inj'; intros n Hn.
  - destruct (decide (n < 32)).
    + rewrite testbit_clear_mask by lia. case_bool_decide; [by subst|done].
    + by rewrite Z.land_spec, (u32_bits_high word) by (done || lia).
  - destruct (decide (n < 32)).
    + rewrite testbit_clear_mask, testbit_set_mask by lia.
      case_bool_decide; [by subst|done].
    + rewrite Z.land_spec, (u32_bits_high word) by (done || lia).
      unfold wrap32. rewrite Z.mod_pow2_bits_high by lia. apply andb_false_r.
Qed.

Lemma land_31_range z : 0 ≤ Z.land z 31 < 32.
Proof. rewrite land_31. apply Z.mod_pos_bound. lia. Qed.

Lemma DescriptorHeap_new_words_u32 C : words_u32 (DescriptorHeap_new C).
Proof.
  unfold words_u32, DescriptorHeap_new. case_decide; simpl; [constructor|].
  apply Forall_replicate. by vm_compute.
Qed.

Lemma NextId_words_u32 fuel h owner result h' :
  words_u32 h → NextId fuel h owner = Done (result, h') → words_u32 h'.
Proof.
  intros Hwords Hrun.
  apply NextId_Done in Hrun
    as [(_ & -> & _)|(_ & _ & next_id & word & _ & Hword & ->)]; [done|].
  unfold words_u32. simpl. apply Forall_insert; [done|].
  apply set_mask_u32; [|apply land_31_range].
  eapply (proj1 (Forall_lookup _ _)); [exact Hwords|exact Hword].
Qed.

Lemma DeleteId_words_u32 h id h' :
  words_u32 h → DeleteId h id = Done h' → words_u32 h'.
Proof.
  intros Hwords [[? ->]|(_ & word & Hword & ->)]%DeleteId_Done; [done|].
  unfold words_u32. simpl. apply Forall_insert; [done|].
  apply clear_mask_u32.
  eapply (proj1 (Forall_lookup _ _)); [exact Hwords|exact Hword].
Qed.

Lemma reachable_words_u32 C h : reachable C h → words_u32 h.
Proof.
  induction 1 as [|h fuel owner result h' _ IH Hnext|h id h' _ IH _ Hdel].
  - apply DescriptorHeap_new_words_u32.
  - by eapply NextId_words_u32.
  - by eapply DeleteId_words_u32.
Qed.

(** ** The heap a session holds *)

(** Every heap reached from the constructor, for a capacity [C] up to
    [2^32 - 33], keeps the cursor in [1 .. C], the live identifiers in
    [1 .. C] and at most [C] of them, a bitmap of unchanged size that agrees
    with the live identifiers, and the identifier 0 never live nor its bit
    set. *)
Theorem reachable_heap_invariants C h :
  0 < C ≤ 2 ^ 32 - 33 → reachable C h →
  max_descriptors_ h = C ∧
  1 ≤ next_id_ h ≤ C ∧
  (∀ i, live h i → 1 ≤ i ≤ C) ∧
  Z.of_nat (size (alloc_map_ h)) ≤ C ∧
  length (gpu_heap_state_ h) = length (gpu_heap_state_ (DescriptorHeap_new C)) ∧
  coherent h ∧
  bit_set (gpu_heap_state_ h) 0 = false.
Proof.
  intros HC Hreach.
  assert (length (gpu_heap_state_ h) = length (gpu_heap_state_ (DescriptorHeap_new C)))
    as Hwords.
  { clear HC.
    induction Hreach as [|h fuel owner result h' _ IH Hnext|h id h' _ IH _ Hdel].
    - done.
    - apply NextId_Done in Hnext
        as [(_ & -> & _)|(_ & _ & next_id & word & _ & _ & ->)]; [done|].
      simpl. by rewrite length_insert.
    - apply DeleteId_Done in Hdel as [[? ->]|(_ & word & _ & ->)]; [done|].
      simpl. by rewrite length_insert. }
  destruct (reachable_ok C h HC Hreach) as [Hok Hmax].
  destruct (reachable_coherent C h Hreach) as [Hco _].
  pose proof (heap_ok_size h Hok) as Hsize.
  destruct Hok as [Hcap Hcur Hlive Hlen].
  split_and!; [done|lia|lia| |lia|done|done|].
  - intros i Hi. specialize (Hlive i Hi). lia.
  - destruct (bit_set (gpu_heap_state_ h) 0) eqn:Hbit; [|done].
    apply Hco in Hbit; [|lia]. apply Hlive in Hbit. lia.
Qed.

Lemma reachable_heap_invariants_witness :
  max_descriptors_ example_heap = 3 ∧
  1 ≤ next_id_ example_heap ≤ 3 ∧
  (∀ i, live example_heap i → 1 ≤ i ≤ 3) ∧
  Z.of_nat (size (alloc_map_ example_heap)) ≤ 3 ∧
  length (gpu_heap_state_ example_heap) = length (gpu_heap_state_ (DescriptorHeap_new 3)) ∧
  coherent example_heap ∧
  bit_set (gpu_heap_state_ example_heap) 0 = false.
Proof.
  apply (reachable_heap_invariants 3 example_heap); [lia|].
  apply (reach_NextId 3 (DescriptorHeap_new 3) 3 example_owner 1); [constructor|].
  by vm_compute.
Defined.

(** ** The constructor of the heap *)

(** A heap constructed with a capacity [C] up to [2^32 - 33] has the fewest
    32-bit words with a bit for each of the identifiers [0 .. C], all of
    them zero, no live identifier and the cursor at 1. *)
Theorem DescriptorHeap_new_bitmap C :
  0 < C ≤ 2 ^ 32 - 33 →
  Z.of_nat (length (gpu_heap_state_ (DescriptorHeap_new C))) = C `div` 32 + 1 ∧
  Forall (λ word, word = 0) (gpu_heap_state_ (DescriptorHeap_new C)) ∧
  (∀ i, bit_set (gpu_heap_state_ (DescriptorHeap_new C)) i = false) ∧
  (∀ i, ¬ live (DescriptorHeap_new C) i) ∧
  next_id_ (DescriptorHeap_new C) = 1.
Proof.
  intros HC. split_and!.
  - unfold DescriptorHeap_new. rewrite decide_False by lia. simpl.
    rewrite length_replicate, wrap32_small by (unfold u32; lia).
    rewrite BitBufferSize_words by lia.
    replace (C + 1 + 31) with (C + 1 * 32) by lia.
    rewrite Z.div_add by lia.
    assert (0 ≤ C `div` 32) by (apply Z.div_pos; lia). lia.
  - unfold DescriptorHeap_new. rewrite decide_False by lia. simpl.
    by apply Forall_replicate.
  - intros i. unfold bit_set, DescriptorHeap_new. rewrite decide_False by lia. simpl.
    destruct (replicate _ _ !! _) as [word|] eqn:Hw; [|done].
    apply lookup_replicate in Hw as [-> _]. apply Z.bits_0.
  - intros i [x Hx]. by rewrite DescriptorHeap_new_empty in Hx.
  - apply DescriptorHeap_new_cursor.
Qed.

Lemma DescriptorHeap_new_bitmap_witness :
  Z.of_nat (length (gpu_heap_state_ (DescriptorHeap_new 40))) = 40 `div` 32 + 1 ∧
  Forall (λ word, word = 0) (gpu_heap_state_ (DescriptorHeap_new 40)) ∧
  (∀ i, bit_set (gpu_heap_state_ (DescriptorHeap_new 40)) i = false) ∧
  (∀ i, ¬ live (DescriptorHeap_new 40) i) ∧
  next_id_ (DescriptorHeap_new 40) = 1.
Proof. apply (DescriptorHeap_new_bitmap 40). lia. Defined.

Lemma NextId_capacity_bound_witness :
  NextId 1 (DescriptorHeap_new 4294967264) example_owner = Undefined OutOfBounds.
Proof. apply (NextId_capacity_bound 4294967264 0 example_owner). lia. Defined.

(** ** What a call of [NextId] changes *)

Lemma NextId_scan_cursor fuel C (m : gmap Z VulkanTypedHandle) c result next_id :
  NextId_scan fuel C m c = Some (result, next_id) → next_id = advance C result.
Proof.
  revert c. induction fuel as [|fuel IH]; intros c Hscan; [done|].
  simpl in Hscan. destruct (m !! c); [by eapply IH|]. by simplify_eq.
Qed.

Lemma NextId_scan_first_free fuel C (m : gmap Z VulkanTypedHandle) c result next_id :
  NextId_scan fuel C m c = Some (result, next_id) →
  ∃ k, (k < fuel)%nat ∧
    visited (S k) C c !! k = Some result ∧
    Forall (λ x, is_Some (m !! x)) (visited k C c).
Proof.
  revert c. induction fuel as [|fuel IH]; intros c Hscan; [done|].
  simpl in Hscan. destruct (m !! c) eqn:Hc.
  - destruct (IH _ Hscan) as (k & Hk & Hnth & Hlive).
    exists (S k). split_and!; [lia|done|].
    simpl. constructor; [by rewrite Hc|done].
  - simplify_eq. exists 0%nat. split_and!; [lia|done|constructor].
Qed.

(** A call of [NextId] on a heap in use that returns 0 leaves the heap as it
    is. A call that returns an identifier records the owner passed under
    it and touches no other entry, so one more identifier is live; it sets
    the bit of the identifier and no other bit; and it leaves the cursor
    one step after the identifier, at 1 when the identifier is the
    capacity. *)
Theorem NextId_records_owner fuel h owner result h' :
  heap_ok h → NextId fuel h owner = Done (result, h') →
  (result = 0 → h' = h) ∧
  (result ≠ 0 →
     alloc_map_ h' !! result = Some owner ∧
     (∀ i, i ≠ result → alloc_map_ h' !! i = alloc_map_ h !! i) ∧
     size (alloc_map_ h') = S (size (alloc_map_ h)) ∧
     (∀ i, 0 ≤ i →
        bit_set (gpu_heap_state_ h') i
        = bool_decide (i = result) || bit_set (gpu_heap_state_ h) i) ∧
     next_id_ h' = (if decide (result = max_descriptors_ h) then 1 else result + 1)).
Proof.
  intros Hok Hrun. pose proof Hok as [HC Hcur Hlive Hlen].
  apply NextId_Done in Hrun
    as [(-> & -> & _)|(Hmax & Hroom & next_id & word & Hscan & Hword & ->)]; [done|].
  destruct (NextId_scan_in_range _ _ _ _ _ _ HC Hcur Hscan) as [Hres _].
  split; [lia|]. intros _. simpl.
  apply NextId_scan_free in Hscan as Hfree.
  apply NextId_scan_cursor in Hscan as ->.
  split_and!.
  - apply lookup_insert_eq.
  - intros i Hi. by apply lookup_insert_ne.
  - by apply map_size_insert_None.
  - intros i Hi. apply bit_set_insert_set; [lia|done|done].
  - case_decide as Htop.
    + rewrite Htop, advance_top, decide_False by lia. done.
    + apply advance_step; lia.
Qed.

Lemma NextId_records_owner_witness :
  (1 = 0 → example_heap = DescriptorHeap_new 3) ∧
  (1 ≠ 0 →
     alloc_map_ example_heap !! 1 = Some example_owner ∧
     (∀ i, i ≠ 1 → alloc_map_ example_heap !! i = alloc_map_ (DescriptorHeap_new 3) !! i) ∧
     size (alloc_map_ example_heap) = S (size (alloc_map_ (DescriptorHeap_new 3))) ∧
     (∀ i, 0 ≤ i →
        bit_set (gpu_heap_state_ example_heap) i
        = bool_decide (i = 1) || bit_set (gpu_heap_state_ (DescriptorHeap_new 3)) i) ∧
     next_id_ example_heap
     = (if decide (1 = max_descriptors_ (DescriptorHeap_new 3)) then 1 else 1 + 1)).
Proof.
  apply (NextId_records_owner 3 (DescriptorHeap_new 3) example_owner 1 example_heap).
  - apply DescriptorHeap_new_ok. lia.
  - by vm_compute.
Defined.

(** [NextId] returns the first identifier that is not live, in the order of
    the scan from the cursor: every candidate before it is live. When the
    cursor itself is not live, the cursor is returned, even if a smaller
    identifier was freed since. *)
Theorem NextId_first_free fuel h owner result h' :
  heap_ok h → NextId fuel h owner = Done (result, h') → result ≠ 0 →
  (∃ k, (k < fuel)%nat ∧
     visited (S k) (max_descriptors_ h) (next_id_ h) !! k = Some result ∧
     Forall (live h) (visited k (max_descriptors_ h) (next_id_ h))) ∧
  (¬ live h (next_id_ h) → result = next_id_ h).
Proof.
  intros Hok Hrun Hresult.
  apply NextId_Done in Hrun
    as [(-> & _)|(Hmax & Hroom & next_id & word & Hscan & Hword & ->)]; [done|].
  split; [by eapply NextId_scan_first_free|].
  intros Hfree. destruct fuel as [|fuel]; [done|]. simpl in Hscan.
  destruct (alloc_map_ h !! next_id_ h) eqn:Hc; [|by simplify_eq].
  destruct Hfree. unfold live. by rewrite Hc.
Qed.

Lemma example_heap_ok : heap_ok example_heap.
Proof.
  apply (reachable_ok 3); [lia|].
  apply (reach_NextId 3 (DescriptorHeap_new 3) 3 example_owner 1); [constructor|].
  by vm_compute.
Qed.

Lemma NextId_first_free_witness :
  (∃ k, (k < 3)%nat ∧
     visited (S k) (max_descriptors_ example_heap) (next_id_ example_heap) !! k = Some 2 ∧
     Forall (live example_heap)
       (visited k (max_descriptors_ example_heap) (next_id_ example_heap))) ∧
  (¬ live example_heap (next_id_ example_heap) → 2 = next_id_ example_heap).
Proof.
  apply (NextId_first_free 3 example_heap example_owner 2 example_heap_2).
  - apply example_heap_ok.
  - by vm_compute.
  - done.
Defined.

(** ** Freeing an identifier *)

Lemma bit_clear_word h id word :
  coherent h → 0 ≤ id ≤ max_descriptors_ h → ¬ live h id →
  gpu_heap_state_ h !! Z.to_nat (id `div` 32) = Some word →
  Z.testbit word (Z.land id 31) = false.
Proof.
  intros Hco Hid Hfree Hword. rewrite land_31.
  destruct (Z.testbit word (id `mod` 32)) eqn:Hbit; [|done].
  destruct Hfree. apply Hco; [done|]. unfold bit_set. by rewrite Hword.
Qed.

(** [DeleteId] of the identifier that [NextId] has just returned restores
    the live identifiers and the bitmap that the heap had before the call of
    [NextId]; only the cursor stays where [NextId] left it. *)
Theorem DeleteId_undoes_NextId fuel h owner result h' :
  heap_ok h → coherent h → words_u32 h →
  NextId fuel h owner = Done (result, h') → result ≠ 0 →
  DeleteId h' result
  = Done {| max_descriptors_ := max_descriptors_ h;
            next_id_ := next_id_ h';
            alloc_map_ := alloc_map_ h;
            gpu_heap_state_ := gpu_heap_state_ h |}.
Proof.
  intros Hok Hco Hwords Hrun Hresult. pose proof Hok as [HC Hcur Hlive Hlen].
  apply NextId_Done in Hrun
    as [(-> & _)|(Hmax & Hroom & next_id & word & Hscan & Hword & ->)]; [done|].
  destruct (NextId_scan_in_range _ _ _ _ _ _ HC Hcur Hscan) as [Hres _].
  apply NextId_scan_free in Hscan as Hfree.
  assert (Z.testbit word (Z.land result 31) = false) as Hbit.
  { eapply bit_clear_word; [done|lia| |done]. intros [x Hx]. congruence. }
  assert (u32 word) as Hw
    by (eapply (proj1 (Forall_lookup _ _)); [exact Hwords|exact Hword]).
  erewrite DeleteId_in_bounds; simpl; [|lia|].
  2: { apply list_lookup_insert_eq. by eapply lookup_lt_Some. }
  f_equal. f_equal.
  - by apply delete_insert_id.
  - rewrite list_insert_insert_eq.
    destruct (clear_mask_id word (Z.land result 31) Hw (land_31_range result) Hbit)
      as [_ ->].
    by apply list_insert_id.
Qed.

Lemma DeleteId_undoes_NextId_witness :
  DeleteId example_heap 1
  = Done {| max_descriptors_ := max_descriptors_ (DescriptorHeap_new 3);
            next_id_ := next_id_ example_heap;
            alloc_map_ := alloc_map_ (DescriptorHeap_new 3);
            gpu_heap_state_ := gpu_heap_state_ (DescriptorHeap_new 3) |}.
Proof.
  apply (DeleteId_undoes_NextId 3 (DescriptorHeap_new 3) example_owner 1 example_heap).
  - apply DescriptorHeap_new_ok. lia.
  - apply DescriptorHeap_new_coherent.
  - apply DescriptorHeap_new_words_u32.
  - by vm_compute.
  - done.
Defined.

(** [DeleteId] of an identifier up to the capacity that is not live changes
    nothing, and [DeleteId] of any such identifier leaves it not live, so
    that freeing it a second time changes nothing either. *)
Theorem DeleteId_not_live h id :
  heap_ok h → coherent h → words_u32 h → 0 ≤ id ≤ max_descriptors_ h →
  (¬ live h id → DeleteId h id = Done h) ∧
  (∃ h1, DeleteId h id = Done h1 ∧ ¬ live h1 id ∧ DeleteId h1 id = Done h1).
Proof.
  intros Hok Hco Hwords Hid.
  assert (∀ h, heap_ok h → coherent h → words_u32 h → 0 ≤ id ≤ max_descriptors_ h →
               ¬ live h id → DeleteId h id = Done h) as Hnoop.
  { clear. intros h Hok Hco Hwords Hid Hfree.
    destruct (heap_ok_word h id Hok Hid) as [word Hword].
    pose proof (bit_clear_word h id word Hco Hid Hfree Hword) as Hbit.
    assert (u32 word) as Hw
      by (eapply (proj1 (Forall_lookup _ _)); [exact Hwords|exact Hword]).
    erewrite DeleteId_in_bounds by (done || apply Hok).
    destruct (clear_mask_id word (Z.land id 31) Hw (land_31_range id) Hbit) as [-> _].
    rewrite list_insert_id by done.
    rewrite delete_id by (by apply eq_None_not_Some).
    by destruct h. }
  split; [by apply Hnoop|].
  destruct (heap_ok_word h id Hok Hid) as [word Hword].
  eexists. split; [apply DeleteId_in_bounds; [apply Hok|done]|].
  set (h1 := {| max_descriptors_ := _ |}).
  assert (DeleteId h id = Done h1) as Hrun by (apply DeleteId_in_bounds; [apply Hok|done]).
  assert (¬ live h1 id) as Hfree.
  { intros [x Hx]. simpl in Hx. by rewrite lookup_delete_eq in Hx. }
  split; [done|]. apply Hnoop; try done.
  - by destruct (DeleteId_preserves_ok h id h1 Hok Hrun).
  - by destruct (DeleteId_coherent h id h1 ltac:(unfold u32; destruct Hok; lia) Hco Hrun).
  - by eapply DeleteId_words_u32.
Qed.

Lemma DeleteId_not_live_witness :
  (¬ live example_heap 3 → DeleteId example_heap 3 = Done example_heap) ∧
  (∃ h1, DeleteId example_heap 3 = Done h1 ∧ ¬ live h1 3 ∧ DeleteId h1 3 = Done h1).
Proof.
  apply (DeleteId_not_live example_heap 3).
  - apply example_heap_ok.
  - apply (NextId_coherent 3 (DescriptorHeap_new 3) example_owner 1);
      [by vm_compute|apply DescriptorHeap_new_coherent|by vm_compute].
  - repeat constructor; by vm_compute.
  - by vm_compute.
Defined.

(** ** The order in which identifiers are handed out *)

Section Rotation.

Variable C : Z.
Hypothesis HC : 0 < C ≤ 2 ^ 32 - 33.

Local Abbreviation handed_out := (handed_out C).

Lemma handed_out_new : handed_out 0 (DescriptorHeap_new C).
Proof.
  split_and!.
  - apply DescriptorHeap_new_ok. lia.
  - apply DescriptorHeap_new_max.
  - by rewrite DescriptorHeap_new_empty, map_size_empty.
  - intros i. unfold live. rewrite DescriptorHeap_new_empty, lookup_empty.
    split; [by intros [? ?]|lia].
  - rewrite DescriptorHeap_new_cursor, decide_False by lia. done.
Qed.

Lemma handed_out_next fuel k h owner :
  handed_out k h → 0 ≤ k < C → (1 ≤ fuel)%nat →
  ∃ h', NextId fuel h owner = Done (k + 1, h') ∧ handed_out (k + 1) h'.
Proof.
  intros (Hok & Hmax & Hsize & Hlive & Hcur) Hk Hfuel.
  rewrite decide_False in Hcur by lia.
  assert (alloc_map_ h !! (k + 1) = None) as Hfree.
  { apply eq_None_not_Some. intros Hl. apply Hlive in Hl. lia. }
  destruct (heap_ok_word h (k + 1) Hok ltac:(lia)) as [word Hword].
  destruct fuel as [|fuel]; [lia|].
  eexists. split.
  - apply NextId_found with (next_id := advance C (k + 1)); [lia|lia| |done].
    simpl. by rewrite Hcur, Hfree, Hmax.
  - split_and!; simpl; try done.
    + eapply NextId_preserves_ok; [exact Hok|].
      apply NextId_found with (next_id := advance C (k + 1)) (fuel := S fuel);
        [lia|lia| |done].
      simpl. by rewrite Hcur, Hfree, Hmax.
    + rewrite map_size_insert_None by done. lia.
    + intros i. unfold live. simpl. destruct (decide (i = k + 1)) as [->|Hne].
      * rewrite lookup_insert_eq. split; [lia|eauto].
      * rewrite lookup_insert_ne by done. fold (live h i). rewrite Hlive. lia.
    + case_decide as Htop.
      * rewrite Htop, advance_top, decide_False by lia. done.
      * apply advance_step; lia.
Qed.

Lemma handed_out_times fuel owner (n : nat) :
  ∀ k h, handed_out k h → 0 ≤ k → k + Z.of_nat n ≤ C → (1 ≤ fuel)%nat →
    ∃ h', NextId_times fuel n h owner = Done (seqZ (k + 1) (Z.of_nat n), h') ∧
          handed_out (k + Z.of_nat n) h'.
Proof.
  induction n as [|n IH]; intros k h Hh Hk Hn Hfuel.
  { exists h. split; [done|]. by rewrite Z.add_0_r. }
  destruct (handed_out_next fuel k h owner Hh) as (h1 & Hrun & Hh1); [lia|done|].
  destruct (IH (k + 1) h1 Hh1) as (h' & Hruns & Hh'); [lia|lia|done|].
  exists h'. split.
  - rewrite (seqZ_cons (k + 1)) by lia.
    replace (Z.pred (Z.of_nat (S n))) with (Z.of_nat n) by lia.
    replace (Z.succ (k + 1)) with (k + 1 + 1) by lia.
    change (NextId_times fuel (S n) h owner)
      with ('(result, h) ← NextId fuel h owner;
            '(results, h) ← NextId_times fuel n h owner;
            Done (result :: results, h)).
    rewrite Hrun. cbn -[seqZ Z.add Z.of_nat]. rewrite Hruns. done.
  - by replace (k + Z.of_nat (S n)) with (k + 1 + Z.of_nat n) by lia.
Qed.

(** A fresh heap of capacity [C] hands out the identifiers 1, 2, ... in
    order: [n <= C] calls of [NextId] in a row return [1 .. n]. After [C]
    calls every identifier is live and the next call returns 0; before
    that, the next call returns [n + 1]. *)
Theorem NextId_times_in_order fuel owner (n : nat) :
  Z.of_nat n ≤ C → (1 ≤ fuel)%nat →
  ∃ h,
    NextId_times fuel n (DescriptorHeap_new C) owner = Done (seqZ 1 (Z.of_nat n), h) ∧
    (∀ i, live h i ↔ 1 ≤ i ≤ Z.of_nat n) ∧
    (Z.of_nat n = C → NextId fuel h owner = Done (0, h)) ∧
    (Z.of_nat n < C → ∃ h', NextId fuel h owner = Done (Z.of_nat n + 1, h')).
Proof.
  intros Hn Hfuel.
  destruct (handed_out_times fuel owner n 0 (DescriptorHeap_new C) handed_out_new)
    as (h & Hrun & Hh); [lia|lia|done|].
  rewrite Z.add_0_l in *. exists h. split_and!; [done|apply Hh| |].
  - intros Hfull. apply NextId_full. right.
    destruct Hh as (_ & Hmax & Hsize & _). lia.
  - intros Hroom.
    destruct (handed_out_next fuel (Z.of_nat n) h owner Hh) as (h' & Hnext & _);
      [lia|done|]. by exists h'.
Qed.

End Rotation.

Lemma NextId_times_in_order_witness :
  ∃ h,
    NextId_times 1 2 (DescriptorHeap_new 3) example_owner = Done (seqZ 1 (Z.of_nat 2), h) ∧
    (∀ i, live h i ↔ 1 ≤ i ≤ Z.of_nat 2) ∧
    (Z.of_nat 2 = 3 → NextId 1 h example_owner = Done (0, h)) ∧
    (Z.of_nat 2 < 3 → ∃ h', NextId 1 h example_owner = Done (Z.of_nat 2 + 1, h')).
Proof. apply (NextId_times_in_order 3); lia. Defined.

(** ** The layout buffer is built once *)

Lemma GetLayoutState_Done addr ds a ds1 :
  GetLayoutState addr ds = Done (a, ds1) →
  (device_addr (layout_ ds) ≠ 0 ∧ a = device_addr (layout_ ds) ∧ ds1 = ds) ∨
  (device_addr (layout_ ds) = 0 ∧ a = addr ∧ device_addr (layout_ ds1) = addr ∧
   same_but_layout ds ds1).
Proof.
  unfold GetLayoutState. case_decide as Hbuilt; [left; by simplify_eq|].
  intros (d0 & _ & H1)%bind_Done.
  apply bind_Done in H1 as ([d1 start] & _ & H2). simplify_eq.
  right. split; [by destruct (decide (device_addr (layout_ ds) = 0))|]. by split_and!.
Qed.

Lemma updates_n_layout n ds1 ds2 : updates_n n ds1 ds2 → layout_ ds2 = layout_ ds1.
Proof.
  induction 1 as [|n ds ds1 ds2 _ IH Hupdate]; [done|].
  rewrite <- IH. by destruct Hupdate.
Qed.

(** [GetLayoutState] builds the layout buffer once. After a call that
    returned the nonzero address [a], every later call returns [a] and leaves
    the set as it is, whatever address the memory service would give, and
    also after any number of updates of the set. The call changes nothing
    of the set but the layout buffer. When the address resolved for a new
    buffer is 0, the set is left as if the layout had not been built: the
    next call builds it again. *)
Theorem GetLayoutState_built_once addr ds a ds1 :
  GetLayoutState addr ds = Done (a, ds1) →
  (device_addr (layout_ ds) = 0 → a = addr ∧ same_but_layout ds ds1) ∧
  (a ≠ 0 →
     ∀ addr' n ds2, updates_n n ds1 ds2 → GetLayoutState addr' ds2 = Done (a, ds2)) ∧
  (a = 0 → ∀ addr', GetLayoutState addr' ds1 = GetLayoutState addr' ds).
Proof.
  intros Hrun.
  assert (device_addr (layout_ ds1) = a) as Ha.
  { apply GetLayoutState_Done in Hrun as [(_ & -> & ->)|(_ & -> & -> & _)]; done. }
  split_and!.
  - intros Hnew. apply GetLayoutState_Done in Hrun as [(? & _)|(_ & -> & _ & ?)]; done.
  - intros Hnonzero addr' n ds2 Hupdates.
    unfold GetLayoutState. rewrite (updates_n_layout _ _ _ Hupdates), Ha.
    by rewrite decide_True.
  - intros -> addr'.
    apply GetLayoutState_Done in Hrun
      as [(Hne & Heq & _)|(Hzero & _ & _ & Hv & Hc & Hm & Hb & Hver & Hlast & Hout)];
      [congruence|].
    unfold GetLayoutState, num_bindings. rewrite Ha, Hzero, Hc, Hm, Hb, Hv, Hver, Hlast, Hout.
    done.
Qed.

Lemma GetLayoutState_built_once_witness :
  ∃ ds1,
    GetLayoutState 4096 layout_example_set = Done (4096, ds1) ∧
    (device_addr (layout_ layout_example_set) = 0 →
       4096 = 4096 ∧ same_but_layout layout_example_set ds1) ∧
    (4096 ≠ 0 →
       ∀ addr' n ds2, updates_n n ds1 ds2 → GetLayoutState addr' ds2 = Done (4096, ds2)) ∧
    (4096 = 0 →
       ∀ addr', GetLayoutState addr' ds1 = GetLayoutState addr' layout_example_set).
Proof.
  eexists. split; [reflexivity|].
  apply (GetLayoutState_built_once 4096 layout_example_set 4096). reflexivity.
Defined.

(** ** The output state is built once *)

Lemma updates_n_output n ds1 ds2 :
  updates_n n ds1 ds2 → output_state_ ds2 = output_state_ ds1.
Proof.
  induction 1 as [|n ds ds1 ds2 _ IH Hupdate]; [done|].
  rewrite <- IH. by destruct Hupdate.
Qed.

(** [GetOutputState] builds the output state once and never again. The
    first call makes a new shared object, stamped with the handle and the
    version of the set, whose buffer has one zero word for each descriptor
    of the set, and no buffer when the set has no descriptor. Every later
    call returns that object and makes nothing, also after any number of
    updates of the set: unlike the snapshot of [GetCurrentState], the output
    state is not rebuilt when the version of the set moves on. *)
Theorem GetOutputState_built_once objects addr ds s ds1 objects1 :
  GetOutputState objects addr ds = (s, ds1, objects1) →
  (output_state_ ds = None →
     (ptr s ∉ objects) ∧ objects1 = {[ptr s]} ∪ objects ∧
     set (pointee s) = VkHandle ds ∧ version (pointee s) = current_version_ ds ∧
     allocation (buffer (pointee s))
     = (if decide (count_descriptors (bindings_ ds) = 0) then None
        else Some (replicate (Z.to_nat (count_descriptors (bindings_ ds))) 0))) ∧
  (∀ objects' addr' n ds2,
     updates_n n ds1 ds2 → GetOutputState objects' addr' ds2 = (s, ds2, objects')).
Proof.
  intros Hrun.
  assert (output_state_ ds1 = Some s) as Hcached.
  { unfold GetOutputState, make_shared in Hrun.
    destruct (output_state_ ds) as [cached|] eqn:Hout; [by simplify_eq|].
    case_decide; by simplify_eq. }
  split.
  - intros Hnone. unfold GetOutputState, make_shared in Hrun. rewrite Hnone in Hrun.
    pose proof (is_fresh objects) as Hfresh.
    case_decide; simplify_eq; by split_and!.
  - intros objects' addr' n ds2 Hupdates.
    unfold GetOutputState. by rewrite (updates_n_output _ _ _ Hupdates), Hcached.
Qed.

Lemma GetOutputState_built_once_witness :
  ∃ s ds1 objects1,
    GetOutputState ∅ 8192 layout_example_set = (s, ds1, objects1) ∧
    (output_state_ layout_example_set = None →
       (ptr s ∉ (∅ : gset positive)) ∧ objects1 = {[ptr s]} ∪ ∅ ∧
       set (pointee s) = VkHandle layout_example_set ∧
       version (pointee s) = current_version_ layout_example_set ∧
       allocation (buffer (pointee s))
       = (if decide (count_descriptors (bindings_ layout_example_set) = 0) then None
          else Some (replicate
                       (Z.to_nat (count_descriptors (bindings_ layout_example_set))) 0))) ∧
    (∀ objects' addr' n ds2,
       updates_n n ds1 ds2 → GetOutputState objects' addr' ds2 = (s, ds2, objects')).
Proof.
  eexists _, _, _. split; [reflexivity|].
  apply (GetOutputState_built_once ∅ 8192 layout_example_set). reflexivity.
Defined.

(** ** The version of a set after many updates *)

Lemma updates_n_version n ds1 ds2 :
  u32 (current_version_ ds1) → updates_n n ds1 ds2 →
  current_version_ ds2 = wrap32 (current_version_ ds1 + Z.of_nat n) ∧
  last_used_state_ ds2 = last_used_state_ ds1.
Proof.
  intros Hv. induction 1 as [|n ds ds1 ds2 _ IH Hupdate].
  - split; [|done]. rewrite Z.add_0_r. unfold wrap32, u32 in *. rewrite Z.mod_small; lia.
  - destruct (IH Hv) as [IHv IHs].
    apply updates_version in Hupdate as [-> ->]. split; [|done].
    rewrite IHv. unfold wrap32. rewrite Z.add_mod_idemp_l by lia. f_equal. lia.
Qed.

Lemma wrap32_add_fixed v n : u32 v → 0 ≤ n → wrap32 (v + n) = v ↔ n mod 2 ^ 32 = 0.
Proof.
  intros Hv Hn. unfold wrap32, u32 in *.
  rewrite <- Z.add_mod_idemp_r by lia.
  pose proof (Z.mod_pos_bound n (2 ^ 32) ltac:(lia)) as Hr.
  destruct (decide (v + n mod 2 ^ 32 < 2 ^ 32)).
  - rewrite Z.mod_small by lia. lia.
  - replace (v + n mod 2 ^ 32) with ((v + n mod 2 ^ 32 - 2 ^ 32) + 1 * 2 ^ 32) by lia.
    rewrite Z_mod_plus_full, Z.mod_small by lia. lia.
Qed.

(** The version counter of a set is a [uint32_t] that each update advances
    by one, with wrap-around: after [n] updates it is the old version plus
    [n] modulo [2^32]. [GetCurrentState] compares only this counter. So after
    a call that returned [snapshot] and [n] updates, the next call builds a
    new snapshot when [n] is not a multiple of [2^32], and returns the old
    [snapshot], whatever the updates did to the bindings, when [n] is a
    multiple of [2^32]. *)
Theorem GetCurrentState_after_updates skip ndebug objects addr ds snapshot ds1 objects1 n ds2 :
  u32 (current_version_ ds) →
  (∀ cached, last_used_state_ ds = Some cached → ptr cached ∈ objects) →
  GetCurrentState skip ndebug objects addr ds = Done (snapshot, ds1, objects1) →
  updates_n n ds1 ds2 →
  current_version_ ds2 = wrap32 (current_version_ ds + Z.of_nat n) ∧
  ∀ objects2 addr',
    (Z.of_nat n mod 2 ^ 32 ≠ 0 →
       GetCurrentState skip ndebug objects2 addr' ds2
       = build_current_state skip ndebug objects2 addr' ds2) ∧
    (Z.of_nat n mod 2 ^ 32 = 0 →
       GetCurrentState skip ndebug objects2 addr' ds2 = Done (snapshot, ds2, objects2)).
Proof.
  intros Hversion Hlive Hrun Hupdates.
  destruct (GetCurrentState_Done _ _ _ _ _ _ _ _ Hlive Hrun) as (Hcached & Hv & Hv1 & _).
  destruct (updates_n_version n ds1 ds2) as [Hv2 Hcached2]; [by rewrite Hv1|done|].
  rewrite Hv1 in Hv2. split; [done|]. intros objects2 addr'. split.
  - intros Hn. apply GetCurrentState_miss. intros cached Hc.
    rewrite Hcached2, Hcached in Hc. simplify_eq.
    rewrite Hv, Hv2. intros Heq. symmetry in Heq.
    apply wrap32_add_fixed in Heq; [done|done|lia].
  - intros Hn. apply GetCurrentState_hit; [by rewrite Hcached2|].
    rewrite Hv, Hv2. symmetry. apply wrap32_add_fixed; [done|lia|done].
Qed.

Lemma GetCurrentState_after_updates_witness :
  current_version_ snapshot_example_written
  = wrap32 (current_version_ snapshot_example_set + Z.of_nat 1) ∧
  ∀ objects2 addr',
    (Z.of_nat 1 mod 2 ^ 32 ≠ 0 →
       GetCurrentState 77 false objects2 addr' snapshot_example_written
       = build_current_state 77 false objects2 addr' snapshot_example_written) ∧
    (Z.of_nat 1 mod 2 ^ 32 = 0 →
       GetCurrentState 77 false objects2 addr' snapshot_example_written
       = Done (snapshot_example, snapshot_example_written, objects2)).
Proof.
  apply (GetCurrentState_after_updates 77 false ∅ 12288 snapshot_example_set snapshot_example
           (set_last_used_state_ snapshot_example_set snapshot_example)
           ({[ptr snapshot_example]} ∪ ∅) 1 snapshot_example_written).
  - by vm_compute.
  - intros cached Hcached. by simpl in Hcached.
  - reflexivity.
  - eapply updates_more; [apply updates_none|].
    apply (updates_write _ unit (λ _ bindings, bindings) ()).
Defined.

(** ** The records of a snapshot, cell by cell *)

Lemma element_record_defined {T} (GetInData : T → outcome DescriptorState)
    (b : DescriptorBindingImpl T) (e : nat) :
  binding_defined GetInData b → Z.of_nat e < count b →
  ∃ in_data, element_record GetInData b e = Some in_data.
Proof.
  intros (Hcount & Hflags & Hdescs) He.
  destruct (lookup_lt_is_Some_2 (updated b) e) as [is_updated Hup]; [lia|].
  unfold element_record. rewrite Hup. destruct is_updated; [|by eexists].
  destruct (Hdescs _ Hup) as (desc & in_data & -> & ->). by eexists.
Qed.

Lemma FillBindingInData_step_cell {T} (GetInData : T → outcome DescriptorState)
    (b : DescriptorBindingImpl T) data index di :
  binding_defined GetInData b → 0 ≤ di < count b →
  0 ≤ index → index < Z.of_nat (length data) < 2 ^ 32 →
  FillBindingInData_step GetInData b (data, index) di
  = Done (<[Z.to_nat index := element_record GetInData b (Z.to_nat di)]> data, index + 1).
Proof.
  intros (Hcount & Hflags & Hdescs) Hdi Hindex Hlen.
  destruct (lookup_lt_is_Some_2 (updated b) (Z.to_nat di)) as [is_updated Hup]; [lia|].
  assert (wrap32 (index + 1) = index + 1) as Hw by (apply wrap32_small; unfold u32; lia).
  unfold FillBindingInData_step, element_record, load, store. rewrite Hup. simpl.
  destruct is_updated; simpl.
  - destruct (Hdescs _ Hup) as (desc & in_data & Hdesc & Hread).
    rewrite Hdesc. simpl. rewrite Hread. simpl.
    rewrite decide_True by lia. simpl. by rewrite Hw.
  - rewrite decide_True by lia. simpl. by rewrite Hw.
Qed.

(** The loop of the template [FillBindingInData] from the element [k] on,
    for [m] elements. *)
Lemma FillBindingInData_loop_cells {T} (GetInData : T → outcome DescriptorState)
    (b : DescriptorBindingImpl T) (m : nat) :
  binding_defined GetInData b →
  ∀ k data index,
    0 ≤ k → k + Z.of_nat m ≤ count b →
    0 ≤ index → index + Z.of_nat m ≤ Z.of_nat (length data) < 2 ^ 32 →
    ∃ data',
      for_each (FillBindingInData_step GetInData b) (data, index) (seqZ k (Z.of_nat m))
      = Done (data', index + Z.of_nat m) ∧
      length data' = length data ∧
      (∀ j : nat, Z.of_nat j < index ∨ index + Z.of_nat m ≤ Z.of_nat j →
         data' !! j = data !! j) ∧
      (∀ e : nat, (e < m)%nat →
         data' !! Z.to_nat (index + Z.of_nat e)
         = Some (element_record GetInData b (Z.to_nat (k + Z.of_nat e)))).
Proof.
  intros Hdef. induction m as [|m IH]; intros k data index Hk Hm Hindex Hlen.
  { exists data. simpl. split_and!; [by rewrite Z.add_0_r|done|done|lia]. }
  rewrite seqZ_cons, for_each_cons by lia.
  replace (Z.pred (Z.of_nat (S m))) with (Z.of_nat m) by lia.
  rewrite FillBindingInData_step_cell by (done || lia). simpl.
  destruct (IH (Z.succ k)
              (<[Z.to_nat index := element_record GetInData b (Z.to_nat k)]> data)
              (index + 1))
    as (data' & -> & Hlen' & Hframe & Hcells); [rewrite ?length_insert; lia..|].
  exists data'. split_and!.
  - f_equal. f_equal. lia.
  - by rewrite Hlen', length_insert.
  - intros j Hj. rewrite Hframe by lia. apply list_lookup_insert_ne. lia.
  - intros [|e] He.
    + rewrite Z.add_0_r, Z.add_0_r. rewrite Hframe by lia.
      apply list_lookup_insert_eq. lia.
    + replace (index + Z.of_nat (S e)) with (index + 1 + Z.of_nat e) by lia.
      rewrite Hcells by lia. do 3 f_equal. lia.
Qed.

(** The template [FillBindingInData] writes one record for each element of
    the binding, in the order of the elements, into the cells from [index]
    on: the default record for an element that was never updated, the
    record of [GetInData] for an updated one. It leaves every other cell of
    the buffer as it was and advances [index] by the number of elements. *)
Theorem FillBindingInData_cells {T} (GetInData : T → outcome DescriptorState)
    (b : DescriptorBindingImpl T) data index :
  binding_defined GetInData b →
  0 ≤ index → index + count b ≤ Z.of_nat (length data) < 2 ^ 32 →
  ∃ data',
    FillBindingInData GetInData b data index = Done (data', index + count b) ∧
    length data' = length data ∧
    (∀ j : nat, Z.of_nat j < index ∨ index + count b ≤ Z.of_nat j →
       data' !! j = data !! j) ∧
    (∀ e : nat, Z.of_nat e < count b →
       data' !! Z.to_nat (index + Z.of_nat e) = Some (element_record GetInData b e)) ∧
    (∀ e : nat, Z.of_nat e < count b →
       updated b !! e = Some false →
       data' !! Z.to_nat (index + Z.of_nat e) = Some (Some DescriptorState_0)).
Proof.
  intros Hdef Hindex Hlen. unfold FillBindingInData.
  assert (0 ≤ count b) as Hcount by apply Hdef.
  rewrite (seqZ_of_nat 0 (count b)).
  destruct (FillBindingInData_loop_cells GetInData b (Z.to_nat (count b)) Hdef 0 data index)
    as (data' & -> & Hlen' & Hframe & Hcells); [lia..|].
  assert (∀ e : nat, Z.of_nat e < count b →
            data' !! Z.to_nat (index + Z.of_nat e) = Some (element_record GetInData b e))
    as Hrecords.
  { intros e He. rewrite Hcells by lia. do 2 f_equal. lia. }
  exists data'. split_and!.
  - f_equal. f_equal. lia.
  - done.
  - intros j Hj. apply Hframe. lia.
  - done.
  - intros e He Hup. rewrite Hrecords by done. unfold element_record. by rewrite Hup.
Qed.

Lemma FillBindingInData_cells_witness :
  ∃ data',
    FillBindingInData (GetInData_Buffer 77) unwritten_buffer_binding [None; None; None] 1
    = Done (data', 1 + count unwritten_buffer_binding) ∧
    length data' = length [None : cell; None; None] ∧
    (∀ j : nat, Z.of_nat j < 1 ∨ 1 + count unwritten_buffer_binding ≤ Z.of_nat j →
       data' !! j = [None : cell; None; None] !! j) ∧
    (∀ e : nat, Z.of_nat e < count unwritten_buffer_binding →
       data' !! Z.to_nat (1 + Z.of_nat e)
       = Some (element_record (GetInData_Buffer 77) unwritten_buffer_binding e)) ∧
    (∀ e : nat, Z.of_nat e < count unwritten_buffer_binding →
       updated unwritten_buffer_binding !! e = Some false →
       data' !! Z.to_nat (1 + Z.of_nat e) = Some (Some DescriptorState_0)).
Proof.
  apply (FillBindingInData_cells (GetInData_Buffer 77) unwritten_buffer_binding
           [None; None; None] 1).
  - split_and!; [by vm_compute|by vm_compute|].
    intros [|di] Hdi; by simpl in Hdi.
  - lia.
  - by vm_compute.
Defined.

Lemma fill_binding_cells skip ndebug b data index :
  fill_defined skip ndebug b → descriptor_class b ≠ NoDescriptorClass →
  0 ≤ index → index + element_count b ≤ Z.of_nat (length data) < 2 ^ 32 →
  ∃ data',
    fill_binding skip ndebug (data, index) b = Done (data', index + element_count b) ∧
    length data' = length data ∧
    (∀ j : nat, Z.of_nat j < index ∨ index + element_count b ≤ Z.of_nat j →
       data' !! j = data !! j) ∧
    (∀ e : nat, Z.of_nat e < element_count b →
       ∃ in_data,
         binding_record skip ndebug b e = Some in_data ∧
         data' !! Z.to_nat (index + Z.of_nat e) = Some (Some in_data)).
Proof.
  intros Hdef Hclass Hindex. unfold element_count, binding_type, binding_count.
  destruct b as [i|i|i|i|i|i|i|i|i]; simpl in *; [| | | | | | | |done].
  1: { rewrite decide_True by done. intros Hlen.
       unfold FillBindingInData_InlineUniform, store.
       rewrite decide_True by lia. simpl.
       rewrite wrap32_small by (unfold u32; lia).
       eexists. split_and!; [done|by rewrite length_insert| |].
       - intros j Hj. apply list_lookup_insert_ne. lia.
       - intros e He. eexists. split; [done|].
         replace (index + Z.of_nat e) with index by lia.
         apply list_lookup_insert_eq. lia. }
  all: destruct Hdef as [Htype Hdef]; rewrite decide_False by done; intros Hlen;
    destruct (FillBindingInData_loop_cells _ i (Z.to_nat (count i)) Hdef 0 data index)
      as (data' & Hrun & Hlen' & Hframe & Hcells); [destruct Hdef; lia..|];
    exists data'; unfold FillBindingInData; rewrite (seqZ_of_nat 0 (count i)), Hrun;
    (split_and!;
     [f_equal; f_equal; destruct Hdef; lia
     |done
     |intros j Hj; apply Hframe; destruct Hdef; lia
     |intros e He; destruct (element_record_defined _ i e Hdef He) as [in_data Hrec];
      exists in_data; split; [done|];
      rewrite Hcells by lia; rewrite <- Hrec; do 2 f_equal; lia]).
Qed.

Lemma total_elements_app bs1 bs2 :
  total_elements (bs1 ++ bs2) = total_elements bs1 + total_elements bs2.
Proof. induction bs1 as [|b bs1 IH]; simpl; lia. Qed.

Lemma total_elements_take skip ndebug bs k :
  Forall (fill_defined skip ndebug) bs →
  0 ≤ total_elements (take k bs) ≤ total_elements bs.
Proof.
  intros Hall. rewrite <- (take_drop k bs) at 3. rewrite total_elements_app.
  pose proof (total_elements_nonneg skip ndebug (take k bs) (Forall_take _ _ _ Hall)).
  pose proof (total_elements_nonneg skip ndebug (drop k bs) (Forall_drop _ _ _ Hall)). lia.
Qed.

Lemma fill_bindings_cells skip ndebug bs :
  ∀ data index,
    Forall (fill_defined skip ndebug) bs →
    Forall (λ b, descriptor_class b ≠ NoDescriptorClass) bs →
    0 ≤ index → index + total_elements bs ≤ Z.of_nat (length data) < 2 ^ 32 →
    ∃ data',
      for_each (fill_binding skip ndebug) (data, index) bs
      = Done (data', index + total_elements bs) ∧
      length data' = length data ∧
      (∀ j : nat, Z.of_nat j < index ∨ index + total_elements bs ≤ Z.of_nat j →
         data' !! j = data !! j) ∧
      (∀ k b (e : nat), bs !! k = Some b → Z.of_nat e < element_count b →
         ∃ in_data,
           binding_record skip ndebug b e = Some in_data ∧
           data' !! Z.to_nat (index + total_elements (take k bs) + Z.of_nat e)
           = Some (Some in_data)) ∧
      (∀ j : nat, index ≤ Z.of_nat j < index + total_elements bs →
         ∃ in_data, data' !! j = Some (Some in_data)).
Proof.
  induction bs as [|b bs IH]; intros data index Hall Hclass Hindex Hlen.
  { exists data. simpl in *. split_and!; [by rewrite Z.add_0_r|done|done|done|lia]. }
  apply Forall_cons in Hall as [Hb Hall]. apply Forall_cons in Hclass as [Hcb Hclass].
  simpl in Hlen.
  pose proof (total_elements_nonneg skip ndebug bs Hall) as Hrest.
  pose proof (fill_defined_nonneg skip ndebug b Hb) as Hfirst.
  destruct (fill_binding_cells skip ndebug b data index Hb Hcb Hindex)
    as (data1 & Hfill & Hlen1 & Hframe1 & Hcells1); [lia|].
  destruct (IH data1 (index + element_count b) Hall Hclass)
    as (data' & Hrun & Hlen' & Hframe & Hcells & Hfull); [lia|rewrite Hlen1; lia|].
  exists data'. rewrite for_each_cons, Hfill. simpl. rewrite Hrun.
  assert (∀ e : nat, Z.of_nat e < element_count b →
            ∃ in_data,
              binding_record skip ndebug b e = Some in_data ∧
              data' !! Z.to_nat (index + Z.of_nat e) = Some (Some in_data)) as Hhead.
  { intros e He. destruct (Hcells1 e He) as (in_data & Hrec & Hcell).
    exists in_data. split; [done|]. rewrite Hframe by lia. done. }
  split_and!.
  - f_equal. f_equal. lia.
  - congruence.
  - intros j Hj. rewrite Hframe by lia. apply Hframe1. lia.
  - intros [|k] b' e Hb' He; simpl in Hb'.
    + simplify_eq. simpl. rewrite Z.add_0_r. by apply Hhead.
    + destruct (Hcells k b' e Hb' He) as (in_data & Hrec & Hcell).
      exists in_data. split; [done|]. rewrite <- Hcell. f_equal. simpl. f_equal. lia.
  - intros j Hj. destruct (decide (Z.of_nat j < index + element_count b)) as [Hin|Hout].
    + destruct (Hhead (Z.to_nat (Z.of_nat j - index))) as (in_data & _ & Hcell); [lia|].
      exists in_data. rewrite <- Hcell. f_equal. lia.
    + apply Hfull. lia.
Qed.

(** The snapshot that [GetCurrentState] builds holds the records of the
    set in the order of the bindings, and within a binding in the order of
    its elements. For a set whose bindings can be filled and have a
    descriptor class, with a positive number of descriptors and no snapshot
    of the current version, the call makes a new shared object with a buffer
    of one cell for each descriptor. The record of the element [e] of the
    binding [k] is in the cell whose index is the number of descriptors of
    the bindings before [k], which is the start offset that [GetLayoutState]
    writes for the binding, plus [e]. No cell is left unwritten. *)
Theorem GetCurrentState_records skip ndebug objects addr ds :
  snapshot_defined skip ndebug ds →
  Forall (λ b, descriptor_class b ≠ NoDescriptorClass) (bindings_ ds) →
  0 < GetBindingCount ds → total_elements (bindings_ ds) ≠ 0 →
  (∀ cached, last_used_state_ ds = Some cached →
     version (pointee cached) ≠ current_version_ ds) →
  ∃ data,
    let snapshot :=
      {| ptr := fresh objects;
         pointee := {| set := VkHandle ds; version := current_version_ ds;
                       buffer := {| allocation := Some data; device_addr := addr |} |} |} in
    GetCurrentState skip ndebug objects addr ds
    = Done (snapshot, set_last_used_state_ ds snapshot, {[fresh objects]} ∪ objects) ∧
    Z.of_nat (length data) = total_elements (bindings_ ds) ∧
    (∀ k b (e : nat), bindings_ ds !! k = Some b → Z.of_nat e < element_count b →
       ∃ in_data,
         binding_record skip ndebug b e = Some in_data ∧
         data !! Z.to_nat (count_descriptors (take k (bindings_ ds)) + Z.of_nat e)
         = Some (Some in_data)) ∧
    (∀ j : nat, (j < length data)%nat → ∃ in_data, data !! j = Some (Some in_data)).
Proof.
  intros [Hall Htotal] Hclass Hcount Hsome Hstale.
  rewrite GetCurrentState_miss by done.
  pose proof (total_elements_nonneg skip ndebug _ Hall) as Hnonneg.
  unfold build_current_state, make_shared.
  rewrite (decide_True (P := 0 < GetBindingCount ds)) by done.
  rewrite (count_descriptors_total skip ndebug) by done.
  rewrite decide_False by done.
  destruct (fill_bindings_cells skip ndebug (bindings_ ds)
              (replicate (Z.to_nat (total_elements (bindings_ ds))) None) 0 Hall Hclass)
    as (data & -> & Hlen & _ & Hcells & Hfull); [done|rewrite length_replicate; lia|].
  rewrite length_replicate in Hlen.
  exists data. simpl. split_and!.
  - done.
  - lia.
  - intros k b e Hb He.
    rewrite (count_descriptors_total skip ndebug); first last.
    { pose proof (total_elements_take skip ndebug (bindings_ ds) k Hall). lia. }
    { by apply Forall_take. }
    destruct (Hcells k b e Hb He) as (in_data & Hrec & Hcell).
    exists in_data. split; [done|]. by rewrite <- Hcell.
  - intros j Hj. apply Hfull. lia.
Qed.

Lemma GetCurrentState_records_witness :
  ∃ data,
    let snapshot :=
      {| ptr := fresh (∅ : gset positive);
         pointee := {| set := VkHandle snapshot_example_set;
                       version := current_version_ snapshot_example_set;
                       buffer := {| allocation := Some data; device_addr := 12288 |} |} |} in
    GetCurrentState 77 false ∅ 12288 snapshot_example_set
    = Done (snapshot, set_last_used_state_ snapshot_example_set snapshot,
            {[fresh (∅ : gset positive)]} ∪ ∅) ∧
    Z.of_nat (length data) = total_elements (bindings_ snapshot_example_set) ∧
    (∀ k b (e : nat),
       bindings_ snapshot_example_set !! k = Some b → Z.of_nat e < element_count b →
       ∃ in_data,
         binding_record 77 false b e = Some in_data ∧
         data !! Z.to_nat (count_descriptors (take k (bindings_ snapshot_example_set))
                           + Z.of_nat e)
         = Some (Some in_data)) ∧
    (∀ j : nat, (j < length data)%nat → ∃ in_data, data !! j = Some (Some in_data)).
Proof.
  apply (GetCurrentState_records 77 false ∅ 12288 snapshot_example_set).
  - split; [|by vm_compute].
    apply Forall_cons. split; [|apply Forall_nil_2].
    split; [done|]. split_and!; [by vm_compute|by vm_compute|].
    intros [|[|di]] Hdi; simpl in Hdi; simplify_eq. by eexists _, _.
  - apply Forall_cons. split; [done|apply Forall_nil_2].
  - by vm_compute.
  - by vm_compute.
  - intros cached Hcached. by simpl in Hcached.
Defined.

(** ** The cached snapshot and the updates of the set *)

Lemma build_current_state_records skip ndebug objects addr ds :
  snapshot_defined skip ndebug ds →
  Forall (λ b, descriptor_class b ≠ NoDescriptorClass) (bindings_ ds) →
  0 < GetBindingCount ds → total_elements (bindings_ ds) ≠ 0 →
  ∃ data,
    let snapshot :=
      {| ptr := fresh objects;
         pointee := {| set := VkHandle ds; version := current_version_ ds;
                       buffer := {| allocation := Some data; device_addr := addr |} |} |} in
    build_current_state skip ndebug objects addr ds
    = Done (snapshot, set_last_used_state_ ds snapshot, {[fresh objects]} ∪ objects) ∧
    Z.of_nat (length data) = total_elements (bindings_ ds) ∧
    (∀ k b (e : nat), bindings_ ds !! k = Some b → Z.of_nat e < element_count b →
       ∃ in_data,
         binding_record skip ndebug b e = Some in_data ∧
         data !! Z.to_nat (count_descriptors (take k (bindings_ ds)) + Z.of_nat e)
         = Some (Some in_data)).
Proof.
  intros [Hall Htotal] Hclass Hcount Hsome.
  pose proof (total_elements_nonneg skip ndebug _ Hall) as Hnonneg.
  unfold build_current_state, make_shared.
  rewrite (decide_True (P := 0 < GetBindingCount ds)) by done.
  rewrite (count_descriptors_total skip ndebug) by done.
  rewrite decide_False by done.
  destruct (fill_bindings_cells skip ndebug (bindings_ ds)
              (replicate (Z.to_nat (total_elements (bindings_ ds))) None) 0 Hall Hclass)
    as (data & -> & Hlen & _ & Hcells & _); [done|rewrite length_replicate; lia|].
  rewrite length_replicate in Hlen.
  exists data. simpl. split_and!; [done|lia|].
  intros k b e Hb He.
  rewrite (count_descriptors_total skip ndebug); first last.
  { pose proof (total_elements_take skip ndebug (bindings_ ds) k Hall). lia. }
  { by apply Forall_take. }
  destruct (Hcells k b e Hb He) as (in_data & Hrec & Hcell).
  exists in_data. split; [done|]. by rewrite <- Hcell.
Qed.

Lemma build_current_state_empty skip ndebug objects addr ds :
  GetBindingCount ds ≤ 0 ∨ count_descriptors (bindings_ ds) = 0 →
  let snapshot :=
    {| ptr := fresh objects;
       pointee := {| set := VkHandle ds; version := current_version_ ds;
                     buffer := {| allocation := None; device_addr := 0 |} |} |} in
  build_current_state skip ndebug objects addr ds
  = Done (snapshot, set_last_used_state_ ds snapshot, {[fresh objects]} ∪ objects).
Proof.
  intros Hnone. unfold build_current_state, make_shared. simpl.
  destruct (decide (0 < GetBindingCount ds)) as [Hcount|Hcount].
  - destruct Hnone as [Hnone|Hnone]; [lia|]. by rewrite decide_True.
  - by rewrite decide_True.
Qed.

(** C5. [GetCurrentState] caches its snapshot by the version of the set,
    a [uint32_t] that each of [PerformWriteUpdate], [PerformCopyUpdate] and
    [PerformPushDescriptorsUpdate] advances by one, with wrap-around. After a
    call that returned [snapshot], a second call with no update in between
    returns the same shared object and leaves the set and the live objects
    as they are: nothing is built and no buffer is made. After [n] updates,
    [n] not a multiple of [2^32], the version is the old one plus [n] modulo
    [2^32] and differs from the stamp of [snapshot]; the next call goes
    through the builder, and the snapshot it returns is a new object, at an
    address no live object has (so not the one of [snapshot]), stamped with
    the version read at the start of that call, and it is the snapshot the
    set caches from then on. Its records are those of the bindings as the
    updates left them: for a set whose bindings can be filled, the call
    returns, and the cell of the element [e] of the binding [k] holds the
    record of that element; for a set with no descriptor the new snapshot
    has no buffer. *)
Theorem GetCurrentState_cache skip ndebug objects addr ds snapshot ds1 objects1 :
  u32 (current_version_ ds) →
  (∀ cached, last_used_state_ ds = Some cached → ptr cached ∈ objects) →
  GetCurrentState skip ndebug objects addr ds = Done (snapshot, ds1, objects1) →
  (∀ addr',
     GetCurrentState skip ndebug objects1 addr' ds1 = Done (snapshot, ds1, objects1)) ∧
  (∀ n ds2, updates_n n ds1 ds2 → Z.of_nat n mod 2 ^ 32 ≠ 0 →
     current_version_ ds2 = wrap32 (current_version_ ds1 + Z.of_nat n) ∧
     current_version_ ds2 ≠ version (pointee snapshot) ∧
     ∀ addr',
       GetCurrentState skip ndebug objects1 addr' ds2
       = build_current_state skip ndebug objects1 addr' ds2 ∧
       (∀ snapshot' ds3 objects3,
          GetCurrentState skip ndebug objects1 addr' ds2 = Done (snapshot', ds3, objects3) →
          (ptr snapshot' ∉ objects1) ∧ ptr snapshot' ≠ ptr snapshot ∧
          objects3 = {[ptr snapshot']} ∪ objects1 ∧
          version (pointee snapshot') = current_version_ ds2 ∧
          last_used_state_ ds3 = Some snapshot') ∧
       (snapshot_defined skip ndebug ds2 →
        Forall (λ b, descriptor_class b ≠ NoDescriptorClass) (bindings_ ds2) →
        0 < GetBindingCount ds2 → total_elements (bindings_ ds2) ≠ 0 →
        ∃ data,
          let snapshot' :=
            {| ptr := fresh objects1;
               pointee :=
                 {| set := VkHandle ds2; version := current_version_ ds2;
                    buffer := {| allocation := Some data; device_addr := addr' |} |} |} in
          GetCurrentState skip ndebug objects1 addr' ds2
          = Done (snapshot', set_last_used_state_ ds2 snapshot',
                  {[fresh objects1]} ∪ objects1) ∧
          Z.of_nat (length data) = total_elements (bindings_ ds2) ∧
          (∀ k b (e : nat), bindings_ ds2 !! k = Some b → Z.of_nat e < element_count b →
             ∃ in_data,
               binding_record skip ndebug b e = Some in_data ∧
               data !! Z.to_nat (count_descriptors (take k (bindings_ ds2)) + Z.of_nat e)
               = Some (Some in_data))) ∧
       (GetBindingCount ds2 ≤ 0 ∨ count_descriptors (bindings_ ds2) = 0 →
        let snapshot' :=
          {| ptr := fresh objects1;
             pointee :=
               {| set := VkHandle ds2; version := current_version_ ds2;
                  buffer := {| allocation := None; device_addr := 0 |} |} |} in
        GetCurrentState skip ndebug objects1 addr' ds2
        = Done (snapshot', set_last_used_state_ ds2 snapshot',
                {[fresh objects1]} ∪ objects1))).
Proof.
  intros Hversion Hlive Hrun.
  destruct (GetCurrentState_Done _ _ _ _ _ _ _ _ Hlive Hrun) as (Hcached & Hv & Hv1 & Hptr).
  split.
  - intros addr'. apply GetCurrentState_hit; [done|congruence].
  - intros n ds2 Hupdates Hn.
    destruct (updates_n_version n ds1 ds2) as [Hv2 Hcached2]; [by rewrite Hv1|done|].
    assert (current_version_ ds2 ≠ version (pointee snapshot)) as Hmoved.
    { rewrite Hv, Hv2, Hv1. intros Heq. apply wrap32_add_fixed in Heq; [done|done|lia]. }
    split; [done|]. split; [done|]. intros addr'.
    assert (GetCurrentState skip ndebug objects1 addr' ds2
            = build_current_state skip ndebug objects1 addr' ds2) as Hmiss.
    { apply GetCurrentState_miss. intros cached Hc.
      rewrite Hcached2, Hcached in Hc. by simplify_eq. }
    split_and!; [done| | |].
    + intros snapshot' ds3 objects3. rewrite Hmiss.
      intros (Hptr' & -> & Hv' & ->)%build_current_state_Done.
      assert (ptr snapshot' ∉ objects1) as Hfresh by (rewrite Hptr'; apply is_fresh).
      split_and!; [done| |by rewrite Hptr'|done|done].
      intros Heq. apply Hfresh. by rewrite Heq.
    + intros Hdef Hclass Hcount Hsome. rewrite Hmiss.
      by apply build_current_state_records.
    + intros Hnone. rewrite Hmiss. by apply build_current_state_empty.
Qed.

Lemma GetCurrentState_cache_witness :
  GetCurrentState 77 false ({[ptr snapshot_example]} ∪ ∅) 16384 snapshot_example_updated
  = Done (snapshot_example_updated_rebuilt,
          set_last_used_state_ snapshot_example_updated snapshot_example_updated_rebuilt,
          {[ptr snapshot_example_updated_rebuilt]} ∪ ({[ptr snapshot_example]} ∪ ∅)) ∧
  (∀ addr',
     GetCurrentState 77 false ({[ptr snapshot_example]} ∪ ∅) addr'
       (set_last_used_state_ snapshot_example_set snapshot_example)
     = Done (snapshot_example, set_last_used_state_ snapshot_example_set snapshot_example,
             {[ptr snapshot_example]} ∪ ∅)) ∧
  (∀ n ds2,
     updates_n n (set_last_used_state_ snapshot_example_set snapshot_example) ds2 →
     Z.of_nat n mod 2 ^ 32 ≠ 0 →
     current_version_ ds2
     = wrap32 (current_version_ (set_last_used_state_ snapshot_example_set snapshot_example)
               + Z.of_nat n) ∧
     current_version_ ds2 ≠ version (pointee snapshot_example) ∧
     ∀ addr',
       GetCurrentState 77 false ({[ptr snapshot_example]} ∪ ∅) addr' ds2
       = build_current_state 77 false ({[ptr snapshot_example]} ∪ ∅) addr' ds2 ∧
       (∀ snapshot' ds3 objects3,
          GetCurrentState 77 false ({[ptr snapshot_example]} ∪ ∅) addr' ds2
          = Done (snapshot', ds3, objects3) →
          (ptr snapshot' ∉ ({[ptr snapshot_example]} ∪ ∅ : gset positive)) ∧
          ptr snapshot' ≠ ptr snapshot_example ∧
          objects3 = {[ptr snapshot']} ∪ ({[ptr snapshot_example]} ∪ ∅) ∧
          version (pointee snapshot') = current_version_ ds2 ∧
          last_used_state_ ds3 = Some snapshot') ∧
       (snapshot_defined 77 false ds2 →
        Forall (λ b, descriptor_class b ≠ NoDescriptorClass) (bindings_ ds2) →
        0 < GetBindingCount ds2 → total_elements (bindings_ ds2) ≠ 0 →
        ∃ data,
          let snapshot' :=
            {| ptr := fresh ({[ptr snapshot_example]} ∪ ∅ : gset positive);
               pointee :=
                 {| set := VkHandle ds2; version := current_version_ ds2;
                    buffer := {| allocation := Some data; device_addr := addr' |} |} |} in
          GetCurrentState 77 false ({[ptr snapshot_example]} ∪ ∅) addr' ds2
          = Done (snapshot', set_last_used_state_ ds2 snapshot',
                  {[fresh ({[ptr snapshot_example]} ∪ ∅ : gset positive)]}
                  ∪ ({[ptr snapshot_example]} ∪ ∅)) ∧
          Z.of_nat (length data) = total_elements (bindings_ ds2) ∧
          (∀ k b (e : nat), bindings_ ds2 !! k = Some b → Z.of_nat e < element_count b →
             ∃ in_data,
               binding_record 77 false b e = Some in_data ∧
               data !! Z.to_nat (count_descriptors (take k (bindings_ ds2)) + Z.of_nat e)
               = Some (Some in_data))) ∧
       (GetBindingCount ds2 ≤ 0 ∨ count_descriptors (bindings_ ds2) = 0 →
        let snapshot' :=
          {| ptr := fresh ({[ptr snapshot_example]} ∪ ∅ : gset positive);
             pointee :=
               {| set := VkHandle ds2; version := current_version_ ds2;
                  buffer := {| allocation := None; device_addr := 0 |} |} |} in
        GetCurrentState 77 false ({[ptr snapshot_example]} ∪ ∅) addr' ds2
        = Done (snapshot', set_last_used_state_ ds2 snapshot',
                {[fresh ({[ptr snapshot_example]} ∪ ∅ : gset positive)]}
                ∪ ({[ptr snapshot_example]} ∪ ∅)))).
Proof.
  split; [by lazy -[fresh union singleton empty]|].
  apply (GetCurrentState_cache 77 false ∅ 12288 snapshot_example_set snapshot_example
           (set_last_used_state_ snapshot_example_set snapshot_example)
           ({[ptr snapshot_example]} ∪ ∅)).
  - by vm_compute.
  - intros cached Hcached. by simpl in Hcached.
  - reflexivity.
Defined.

Lemma snapshot_example_updated_times_updates (n : nat) :
  updates_n n (set_last_used_state_ snapshot_example_set snapshot_example)
    (snapshot_example_updated_times n).
Proof.
  induction n as [|n IH]; [apply updates_none|].
  eapply updates_more; [exact IH|].
  apply (updates_write _ unit (λ _ _, snapshot_example_bindings_2) ()).
Qed.

Lemma snapshot_example_updated_times_bindings (n : nat) :
  bindings_ (snapshot_example_updated_times (S n)) = snapshot_example_bindings_2.
Proof. done. Qed.

Lemma snapshot_example_updated_times_stale (n : nat) objects addr :
  Z.of_nat n mod 2 ^ 32 = 0 →
  GetCurrentState 77 false objects addr (snapshot_example_updated_times n)
  = Done (snapshot_example, snapshot_example_updated_times n, objects).
Proof.
  intros Hn.
  assert (u32 (current_version_
                 (set_last_used_state_ snapshot_example_set snapshot_example))) as Hversion.
  { unfold u32. simpl. lia. }
  destruct (updates_n_version n _ _ Hversion (snapshot_example_updated_times_updates n))
    as [Hv Hcached].
  apply GetCurrentState_hit; [exact Hcached|].
  rewrite Hv. symmetry. apply wrap32_add_fixed; [exact Hversion|lia|exact Hn].
Qed.

(** After [2^32] writes to the second element of the binding of
    [snapshot_example_set], made after its first snapshot, the version of
    the set is again the stamp of that snapshot: [GetCurrentState] returns
    the old object, whose second cell holds the default record, though the
    second element is updated and its record is that of the image view 11. *)
Lemma GetCurrentState_stale_after_wrap :
  GetCurrentState 77 false ∅ 12288 snapshot_example_set
  = Done (snapshot_example, set_last_used_state_ snapshot_example_set snapshot_example,
          {[ptr snapshot_example]} ∪ ∅) ∧
  updates_n (Z.to_nat (2 ^ 32))
    (set_last_used_state_ snapshot_example_set snapshot_example)
    (snapshot_example_updated_times (Z.to_nat (2 ^ 32))) ∧
  bindings_ (snapshot_example_updated_times (Z.to_nat (2 ^ 32)))
  = snapshot_example_bindings_2 ∧
  (∀ objects addr,
     GetCurrentState 77 false objects addr
       (snapshot_example_updated_times (Z.to_nat (2 ^ 32)))
     = Done (snapshot_example, snapshot_example_updated_times (Z.to_nat (2 ^ 32)),
             objects)) ∧
  allocation (buffer (pointee snapshot_example))
  = Some [Some (DescriptorState_2 Image 9); Some DescriptorState_0] ∧
  (∀ b, snapshot_example_bindings_2 !! 0%nat = Some b →
     binding_record 77 false b 1 = Some (DescriptorState_2 Image 11)).
Proof.
  assert (∃ n : nat, Z.to_nat (2 ^ 32) = S n) as [n Hn].
  { exists (Nat.pred (Z.to_nat (2 ^ 32))). lia. }
  assert (Z.of_nat (Z.to_nat (2 ^ 32)) mod 2 ^ 32 = 0) as Hwrap.
  { rewrite Z2Nat.id by lia. apply Z_mod_same_full. }
  split; [reflexivity|]. split; [apply snapshot_example_updated_times_updates|].
  split; [rewrite Hn; apply snapshot_example_updated_times_bindings|].
  split; [intros objects addr; by apply snapshot_example_updated_times_stale|].
  split; [reflexivity|].
  intros b Hb. injection Hb as <-. reflexivity.
Qed.

(** ** The layout buffer and the read-back together *)

Lemma GetLayoutState_built addr ds :
  layout_fits ds → device_addr (layout_ ds) = 0 →
  StronglySorted Z.lt (binding_index <$> bindings_ ds) →
  ∃ layout_data ds',
    GetLayoutState addr ds = Done (addr, ds') ∧
    layout_ ds' = {| allocation := Some layout_data; device_addr := addr |} ∧
    same_but_layout ds ds' ∧
    layout_data !! 0%nat = Some {| layout_count := num_bindings ds; state_start := 0 |} ∧
    (∀ k b, bindings_ ds !! k = Some b →
       layout_data !! Z.to_nat (binding_index b + 1)
       = Some {| layout_count := element_count b;
                 state_start := count_descriptors (take k (bindings_ ds)) |}) ∧
    (∀ j, 0 ≤ j < num_bindings ds → j ∉ binding_index <$> bindings_ ds →
       layout_data !! Z.to_nat (j + 1) = Some {| layout_count := 0; state_start := 0 |}).
Proof.
  intros Hfits Haddr Hsorted.
  destruct (layout_fits_slots ds Hfits) as (Hlen & Hnum & Hrecords & Hslots).
  set (zero := {| layout_count := 0; state_start := 0 |}).
  set (header := {| layout_count := num_bindings ds; state_start := 0 |}).
  set (fresh_data := replicate (Z.to_nat (wrap32 (1 + num_bindings ds))) zero).
  destruct (GetLayoutState_walk (bindings_ ds) (<[0%nat := header]> fresh_data) 0)
    as (layout_data & start & Hrun & Hlength & Hrecs & Hrest).
  { apply Forall_forall. intros b Hb. destruct (Hslots b Hb) as [-> Hb'].
    unfold fresh_data. rewrite length_insert, length_replicate, Hrecords. lia. }
  { rewrite (list_fmap_compose binding_index (λ z, Z.to_nat (wrap32 (z + 1)))).
    apply NoDup_fmap_2_strong; [|by apply StronglySorted_lt_NoDup].
    intros x y [bx [-> Hbx]]%list_elem_of_fmap [by' [-> Hby]]%list_elem_of_fmap.
    destruct (Hslots bx Hbx) as [-> ?], (Hslots by' Hby) as [-> ?]. lia. }
  exists layout_data. eexists. split_and!.
  - unfold GetLayoutState. rewrite decide_False by (intros H; by apply H).
    fold zero header fresh_data. unfold store at 1.
    rewrite decide_True by (unfold fresh_data; rewrite length_replicate; simpl; lia).
    simpl. change (Z.to_nat 0) with 0%nat. rewrite Hrun. simpl. reflexivity.
  - done.
  - by split_and!.
  - rewrite Hrest.
    + apply list_lookup_insert_eq. unfold fresh_data. rewrite length_replicate. lia.
    + intros b Hb. destruct (Hslots b Hb) as [-> ?]. lia.
  - intros k b Hk. destruct (Hslots b) as [<- _]; [by eapply list_elem_of_lookup_2|].
    by apply Hrecs.
  - intros j Hj Hfree. rewrite Hrest.
    + rewrite list_lookup_insert_ne by lia. apply lookup_replicate_2.
      rewrite Hrecords. lia.
    + intros b Hb. destruct (Hslots b Hb) as [-> ?].
      assert (binding_index b ≠ j); [|lia].
      intros <-. apply Hfree. apply list_elem_of_fmap. by exists b.
Qed.

Lemma UsedDescriptors_run (st : State Z) ds shader_set data layout_data header :
  allocation (buffer st) = Some data →
  allocation (layout_ ds) = Some layout_data →
  layout_data !! 0%nat = Some header →
  (∀ b, 0 ≤ b < layout_count header →
     ∃ layout, layout_data !! Z.to_nat (b + 1) = Some layout ∧
       ∀ i, 0 ≤ i < layout_count layout →
         (Z.to_nat (wrap32 (state_start layout + i)) < length data)%nat) →
  ∃ used_descs,
    UsedDescriptors st ds shader_set = Done used_descs ∧
    (∀ b layout, 0 ≤ b < layout_count header →
       layout_data !! Z.to_nat (b + 1) = Some layout →
       used_descs !! b = used_entry (used_elements data shader_set layout)) ∧
    (∀ b, ¬ (0 ≤ b < layout_count header) → used_descs !! b = None).
Proof.
  intros Hdata Hlayout Hheader Hin.
  unfold UsedDescriptors. rewrite Hdata, Hlayout. unfold load at 1.
  change (Z.to_nat 0) with 0%nat. rewrite Hheader. simpl.
  rewrite (seqZ_of_nat 0 (layout_count header)).
  destruct (UsedDescriptors_bindings layout_data data shader_set
              (Z.to_nat (layout_count header)) 0 ∅)
    as (used_descs & -> & Hbefore & Hrecs & Hafter); [done|done| |].
  { intros b Hb. apply Hin. lia. }
  exists used_descs. split_and!; [done| |].
  - intros b layout Hb. apply Hrecs. lia.
  - intros b Hb. destruct (decide (b < 0)) as [Hneg|Hpos]; [|apply Hafter; lia].
    by rewrite Hbefore.
Qed.

Lemma total_elements_sum_nonneg bs :
  Forall (λ b, 0 ≤ element_count b) bs → 0 ≤ total_elements bs.
Proof. induction 1 as [|b bs Hb _ IH]; simpl; lia. Qed.

Lemma count_descriptors_sum bs :
  Forall (λ b, 0 ≤ element_count b) bs → total_elements bs < 2 ^ 32 →
  count_descriptors bs = total_elements bs.
Proof.
  intros Hall Htotal. unfold count_descriptors.
  assert (∀ n, 0 ≤ n → n + total_elements bs < 2 ^ 32 →
            foldl (λ descriptor_count b, wrap32 (descriptor_count + element_count b)) n bs
            = n + total_elements bs) as Hfold; [|by rewrite Hfold].
  clear Htotal. induction Hall as [|b bs Hb Hall IH]; intros n Hn Hfit; simpl in *.
  { lia. }
  pose proof (total_elements_sum_nonneg bs Hall).
  rewrite wrap32_small by (unfold u32; lia). rewrite IH by lia. lia.
Qed.

(** The offset of a binding and its elements stay below the number of
    descriptors of the set. *)
Lemma count_descriptors_before bs k b :
  Forall (λ b, 0 ≤ element_count b) bs → total_elements bs < 2 ^ 32 →
  bs !! k = Some b →
  0 ≤ count_descriptors (take k bs) ∧
  count_descriptors (take k bs) + element_count b ≤ total_elements bs.
Proof.
  intros Hall Htotal Hb.
  pose proof (total_elements_sum_nonneg _ (Forall_take _ k _ Hall)) as Htake.
  pose proof (total_elements_sum_nonneg _ (Forall_drop _ (S k) _ Hall)) as Hdrop.
  pose proof (take_drop_middle bs k b Hb) as Hsplit.
  assert (total_elements bs
          = total_elements (take k bs) + (element_count b + total_elements (drop (S k) bs)))
    as Hsum.
  { rewrite <- Hsplit at 1. by rewrite total_elements_app. }
  pose proof (proj1 (Forall_forall _ _) Hall b (list_elem_of_lookup_2 _ _ _ Hb)) as Hcount.
  simpl in Hcount.
  rewrite count_descriptors_sum by (by apply Forall_take || lia). lia.
Qed.

Lemma used_elements_zero (n : nat) shader_set layout :
  shader_set ≠ 0 → used_elements (replicate n 0) shader_set layout = [].
Proof.
  intros Htag. unfold used_elements.
  induction (seqZ 0 (layout_count layout)) as [|i l IH]; [done|].
  rewrite filter_cons, decide_False; [done|].
  unfold tagged. intros [? _]%lookup_replicate. congruence.
Qed.

(** The read-back over the layout that [GetLayoutState] builds, for any
    output buffer with one word for each descriptor of the set. *)
Lemma UsedDescriptors_layout_run addr ds (st : State Z) data shader_set :
  layout_fits ds → device_addr (layout_ ds) = 0 →
  StronglySorted Z.lt (binding_index <$> bindings_ ds) →
  Forall (λ b, 0 ≤ element_count b) (bindings_ ds) →
  total_elements (bindings_ ds) < 2 ^ 32 →
  allocation (buffer st) = Some data →
  Z.of_nat (length data) = total_elements (bindings_ ds) →
  ∃ ds1 used_descs,
    GetLayoutState addr ds = Done (addr, ds1) ∧ same_but_layout ds ds1 ∧
    UsedDescriptors st ds1 shader_set = Done used_descs ∧
    (∀ k b, bindings_ ds !! k = Some b →
       used_descs !! binding_index b
       = used_entry
           (used_elements data shader_set
              {| layout_count := element_count b;
                 state_start := count_descriptors (take k (bindings_ ds)) |})) ∧
    (∀ j, j ∉ binding_index <$> bindings_ ds → used_descs !! j = None).
Proof.
  intros Hfits Haddr Hsorted Hall Htotal Hdata Hlen.
  destruct (GetLayoutState_built addr ds Hfits Haddr Hsorted)
    as (layout_data & ds1 & Hrun & Hlayout & Hsame & Hheader & Hrecs & Hzero).
  destruct (layout_fits_slots ds Hfits) as (_ & _ & _ & Hslots).
  destruct (UsedDescriptors_run st ds1 shader_set data layout_data
              {| layout_count := num_bindings ds; state_start := 0 |})
    as (used_descs & Hused & Hentries & Hnone).
  { done. }
  { by rewrite Hlayout. }
  { done. }
  { simpl. intros j Hj.
    destruct (decide (j ∈ binding_index <$> bindings_ ds)) as [Hin|Hout].
    - apply list_elem_of_fmap in Hin as (b & -> & Hb).
      apply list_elem_of_lookup_1 in Hb as [k Hk].
      eexists. split; [by apply Hrecs|]. simpl. intros i Hi.
      destruct (count_descriptors_before _ k b Hall Htotal Hk) as [Hstart Hend].
      rewrite wrap32_small by (unfold u32; lia). lia.
    - eexists. split; [by apply Hzero|]. simpl. lia. }
  exists ds1, used_descs. split_and!; [done..| |].
  - intros k b Hk. apply Hentries; [|by apply Hrecs]. simpl.
    apply Hslots. by eapply list_elem_of_lookup_2.
  - intros j Hj. destruct (decide (0 ≤ j < num_bindings ds)) as [Hin|Hout].
    + rewrite (Hentries j {| layout_count := 0; state_start := 0 |}); [done|done|].
      by apply Hzero.
    + by apply Hnone.
Qed.

(** [UsedDescriptors] over the layout that [GetLayoutState] builds. For a
    set whose bindings are in ascending order of their index and fit the
    layout, and an output buffer with one word for each descriptor of the
    set, as [GetOutputState] allocates it, the layout is built, the
    read-back stays inside both buffers whatever the words are, and its
    result has, for each binding of the set, the elements whose word at the
    start offset of the binding plus the element index is the tag. It has
    no entry for an index that is not the index of a binding of the set. No
    offset wraps around. *)
Theorem UsedDescriptors_after_GetLayoutState addr ds (st : State Z) data shader_set :
  layout_fits ds → device_addr (layout_ ds) = 0 →
  StronglySorted Z.lt (binding_index <$> bindings_ ds) →
  Forall (λ b, 0 ≤ element_count b) (bindings_ ds) →
  total_elements (bindings_ ds) < 2 ^ 32 →
  allocation (buffer st) = Some data →
  Z.of_nat (length data) = count_descriptors (bindings_ ds) →
  ∃ ds1 used_descs,
    GetLayoutState addr ds = Done (addr, ds1) ∧
    UsedDescriptors st ds1 shader_set = Done used_descs ∧
    (∀ k b, bindings_ ds !! k = Some b →
       used_descs !! binding_index b
       = used_entry
           (used_elements data shader_set
              {| layout_count := element_count b;
                 state_start := count_descriptors (take k (bindings_ ds)) |}) ∧
       ∀ i, 0 ≤ i < element_count b →
         wrap32 (count_descriptors (take k (bindings_ ds)) + i)
         = count_descriptors (take k (bindings_ ds)) + i ∧
         0 ≤ count_descriptors (take k (bindings_ ds)) + i < Z.of_nat (length data)) ∧
    (∀ j, j ∉ binding_index <$> bindings_ ds → used_descs !! j = None).
Proof.
  intros Hfits Haddr Hsorted Hall Htotal Hdata Hlen.
  rewrite count_descriptors_sum in Hlen by done.
  destruct (UsedDescriptors_layout_run addr ds st data shader_set)
    as (ds1 & used_descs & Hrun & _ & Hused & Hentries & Hnone); [done..|].
  exists ds1, used_descs. split_and!; [done|done| |done].
  intros k b Hk. split; [by apply Hentries|]. intros i Hi.
  destruct (count_descriptors_before _ k b Hall Htotal Hk) as [Hstart Hend].
  rewrite wrap32_small by (unfold u32; lia). lia.
Qed.

Lemma UsedDescriptors_after_GetLayoutState_witness :
  ∃ ds1 used_descs,
    GetLayoutState 4096 layout_example_set = Done (4096, ds1) ∧
    UsedDescriptors
      {| set := 1; version := 0;
         buffer := {| allocation := Some [5; 0; 0; 5; 0; 5]; device_addr := 8192 |} |}
      ds1 5 = Done used_descs ∧
    (∀ k b, bindings_ layout_example_set !! k = Some b →
       used_descs !! binding_index b
       = used_entry
           (used_elements [5; 0; 0; 5; 0; 5] 5
              {| layout_count := element_count b;
                 state_start := count_descriptors (take k (bindings_ layout_example_set)) |}) ∧
       ∀ i, 0 ≤ i < element_count b →
         wrap32 (count_descriptors (take k (bindings_ layout_example_set)) + i)
         = count_descriptors (take k (bindings_ layout_example_set)) + i ∧
         0 ≤ count_descriptors (take k (bindings_ layout_example_set)) + i
           < Z.of_nat (length [5; 0; 0; 5; 0; 5])) ∧
    (∀ j, j ∉ binding_index <$> bindings_ layout_example_set → used_descs !! j = None).
Proof.
  apply (UsedDescriptors_after_GetLayoutState 4096 layout_example_set
           {| set := 1; version := 0;
              buffer := {| allocation := Some [5; 0; 0; 5; 0; 5]; device_addr := 8192 |} |}
           [5; 0; 0; 5; 0; 5] 5).
  - split; [by vm_compute|by vm_compute|].
    repeat constructor; by vm_compute.
  - done.
  - repeat constructor; by vm_compute.
  - repeat constructor; by vm_compute.
  - by vm_compute.
  - done.
  - by vm_compute.
Defined.

(** A new output state reports nothing. For such a set, with no output
    state yet, [GetLayoutState] followed by [GetOutputState] and
    [UsedDescriptors] on the state returned, for a tag that is not 0, gives
    the empty mapping: the buffer is all zero and no read leaves it. This
    holds also for a set with no descriptors, whose output state has no
    buffer. *)
Theorem UsedDescriptors_fresh_output addr ds objects addr' shader_set :
  layout_fits ds → device_addr (layout_ ds) = 0 →
  StronglySorted Z.lt (binding_index <$> bindings_ ds) →
  Forall (λ b, 0 ≤ element_count b) (bindings_ ds) →
  total_elements (bindings_ ds) < 2 ^ 32 →
  output_state_ ds = None → shader_set ≠ 0 →
  ∃ ds1 s ds2 objects2,
    GetLayoutState addr ds = Done (addr, ds1) ∧
    GetOutputState objects addr' ds1 = (s, ds2, objects2) ∧
    UsedDescriptors (pointee s) ds2 shader_set = Done ∅.
Proof.
  intros Hfits Haddr Hsorted Hall Htotal Hout Htag.
  pose proof (total_elements_sum_nonneg _ Hall) as Hnonneg.
  set (zeros := replicate (Z.to_nat (total_elements (bindings_ ds))) 0).
  destruct (UsedDescriptors_layout_run addr ds
              {| set := VkHandle ds; version := current_version_ ds;
                 buffer := {| allocation := Some zeros; device_addr := addr' |} |}
              zeros shader_set)
    as (ds1 & used_descs & Hrun & Hsame & Hused & Hentries & Hnone); [done..| |].
  { unfold zeros. rewrite length_replicate. lia. }
  destruct Hsame as (Hv & Hc & Hm & Hb & Hver & Hlast & Hout1).
  exists ds1. unfold GetOutputState, make_shared.
  rewrite Hout1, Hout, Hb, Hv, Hver. rewrite count_descriptors_sum by done.
  destruct (decide (total_elements (bindings_ ds) = 0)) as [Hzero|Hsome].
  { eexists _, _, _. by split_and!. }
  eexists _, _, _. split_and!; [done..|].
  unfold UsedDescriptors in *. simpl in *. fold zeros. rewrite Hused. f_equal.
  apply map_empty. intros j.
  destruct (decide (j ∈ binding_index <$> bindings_ ds)) as [Hin|Hfree].
  - apply list_elem_of_fmap in Hin as (b & -> & Hin).
    apply list_elem_of_lookup_1 in Hin as [k Hk].
    rewrite (Hentries k b Hk). unfold zeros. by rewrite used_elements_zero.
  - by apply Hnone.
Qed.

Lemma UsedDescriptors_fresh_output_witness :
  ∃ ds1 s ds2 objects2,
    GetLayoutState 4096 layout_example_set = Done (4096, ds1) ∧
    GetOutputState ∅ 8192 ds1 = (s, ds2, objects2) ∧
    UsedDescriptors (pointee s) ds2 5 = Done ∅.
Proof.
  apply (UsedDescriptors_fresh_output 4096 layout_example_set ∅ 8192 5).
  - split; [by vm_compute|by vm_compute|].
    repeat constructor; by vm_compute.
  - done.
  - repeat constructor; by vm_compute.
  - repeat constructor; by vm_compute.
  - by vm_compute.
  - done.
  - done.
Defined.

(** ** A binding outside the layout *)

Lemma GetLayoutState_walk_outside (bs : list DescriptorBinding) :
  ∀ layout_data start,
    Exists (λ b, (length layout_data ≤ Z.to_nat (wrap32 (binding_index b + 1)))%nat) bs →
    for_each GetLayoutState_step (layout_data, start) bs = Undefined OutOfBounds.
Proof.
  induction bs as [|b bs IH]; intros layout_data start Hout.
  { by apply Exists_nil in Hout. }
  rewrite for_each_cons.
  destruct (decide (Z.to_nat (wrap32 (binding_index b + 1)) < length layout_data)%nat)
    as [Hin|Hb].
  - assert (GetLayoutState_step (layout_data, start) b
            = Done (<[Z.to_nat (wrap32 (binding_index b + 1)) :=
                        {| layout_count := element_count b; state_start := start |}]>
                      layout_data,
                    wrap32 (start + element_count b))) as ->
      by by apply GetLayoutState_step_Done.
    simpl. apply IH. apply Exists_cons in Hout as [Hb|Hout]; [lia|].
    eapply Exists_impl; [exact Hout|]. intros b'. simpl. by rewrite length_insert.
  - unfold GetLayoutState_step, store.
    destruct (decide (_ = binding_type b)); by rewrite decide_False.
Qed.

(** The layout buffer has a record for each binding index up to
    [GetMaxBinding] and no more, and only the header record when
    [GetBindingCount] is 0. When the set has a binding whose index is above
    that, [GetLayoutState] writes its record outside the mapped buffer: the
    call has no defined result, whatever the other bindings are. *)
Theorem GetLayoutState_binding_outside addr ds b :
  device_addr (layout_ ds) = 0 →
  b ∈ bindings_ ds →
  0 ≤ num_bindings ds ≤ binding_index b → binding_index b < 2 ^ 32 - 1 →
  GetLayoutState addr ds = Undefined OutOfBounds.
Proof.
  intros Haddr Hb Hnum Hindex.
  unfold GetLayoutState. rewrite decide_False by (intros H; by apply H).
  rewrite (wrap32_small (1 + num_bindings ds)) by (unfold u32; lia).
  unfold store at 1. rewrite decide_True by (rewrite length_replicate; lia). simpl.
  rewrite GetLayoutState_walk_outside; [done|].
  apply Exists_exists. exists b. split; [done|].
  rewrite length_insert, length_replicate.
  rewrite wrap32_small by (unfold u32; lia). lia.
Qed.

Lemma GetLayoutState_binding_outside_witness :
  GetLayoutState 4096
    {| VkHandle := 1; GetBindingCount := 1; GetMaxBinding := 0;
       bindings_ := [SamplerBinding dead_sampler_binding;
                     BufferBinding
                       {| type := VK_DESCRIPTOR_TYPE_STORAGE_BUFFER; binding := 1; count := 1;
                          updated := [false]; descriptors := [null_buffer_descriptor] |}];
       layout_ := {| allocation := None; device_addr := 0 |};
       current_version_ := 0; last_used_state_ := None; output_state_ := None |}
  = Undefined OutOfBounds.
Proof.
  apply (GetLayoutState_binding_outside 4096 _
           (BufferBinding
              {| type := VK_DESCRIPTOR_TYPE_STORAGE_BUFFER; binding := 1; count := 1;
                 updated := [false]; descriptors := [null_buffer_descriptor] |})).
  - done.
  - apply elem_of_cons. right. apply elem_of_cons. by left.
  - by vm_compute.
  - by vm_compute.
Defined.

(** ** The descriptors whose record cannot be read *)

(** Which descriptors [GetInData] reads. The overloads for a general
    buffer, an image, an image with a sampler and an acceleration structure
    return a record for every descriptor, also one whose resource is gone.
    The overload for a plain sampler returns a record exactly when the
    sampler state is there, and the overload for a texel buffer exactly when
    the buffer view is gone or the element size of its format is not 0, by
    which it divides. The overload for a mutable descriptor follows its
    active class: it returns a record under the condition of the plain
    sampler or of the texel buffer for these two classes, always for the
    four other classes of the [switch], and for an active class that the
    [switch] does not list only when assertions are compiled out; with
    assertions it stops at the [assert]. *)
Theorem GetInData_defined_iff skip ndebug :
  (∀ desc, ∃ in_data, GetInData_Buffer skip desc = Done in_data) ∧
  (∀ desc, ∃ in_data, GetInData_Image skip desc = Done in_data) ∧
  (∀ desc, ∃ in_data, GetInData_ImageSampler skip desc = Done in_data) ∧
  (∀ desc, ∃ in_data, GetInData_AccelerationStructure skip desc = Done in_data) ∧
  (∀ desc,
     (∃ in_data, GetInData_Sampler desc = Done in_data)
     ↔ Sampler_GetSamplerState desc ≠ None) ∧
  (∀ desc,
     (∃ in_data, GetInData_Texel skip desc = Done in_data)
     ↔ ∀ view, Texel_GetBufferViewState desc = Some view →
         BufferView_format_element_size view ≠ 0) ∧
  (∀ desc,
     (∃ in_data, GetInData_Mutable skip ndebug desc = Done in_data)
     ↔ match ActiveClass desc with
       | PlainSampler => GetSharedSamplerState desc ≠ None
       | TexelBuffer =>
           ∀ view, GetSharedBufferViewState desc = Some view →
             BufferView_format_element_size view ≠ 0
       | GeneralBuffer | ImageSampler | Image | AccelerationStructure => True
       | InlineUniform | Mutable | NoDescriptorClass => ndebug = true
       end) ∧
  (∀ desc,
     ActiveClass desc = InlineUniform ∨ ActiveClass desc = Mutable ∨
     ActiveClass desc = NoDescriptorClass →
     GetInData_Mutable skip false desc = Undefined AssertionFailed).
Proof.
  split_and!.
  - intros desc. unfold GetInData_Buffer. destruct (Buffer_GetBufferState desc); by eexists.
  - intros desc. by eexists.
  - intros desc. by eexists.
  - intros desc. by eexists.
  - intros desc. unfold GetInData_Sampler.
    destruct (Sampler_GetSamplerState desc); split; try done.
    + by eexists.
    + by intros [in_data ?].
  - intros desc. unfold GetInData_Texel.
    destruct (Texel_GetBufferViewState desc) as [view|]; [|split; [done|by eexists]].
    simpl. case_decide as Hsize; split.
    + by intros [in_data ?].
    + intros Hview. by destruct (Hview view).
    + intros _ view' ?. by simplify_eq.
    + by eexists.
  - intros desc. unfold GetInData_Mutable.
    destruct (ActiveClass desc) eqn:Hclass.
    + destruct (GetSharedSamplerState desc); split; try done.
      * by eexists.
      * by intros [in_data ?].
    + split; [done|by eexists].
    + split; [done|by eexists].
    + destruct (GetSharedBufferViewState desc) as [view|]; [|split; [done|by eexists]].
      simpl. case_decide as Hsize; split.
      * by intros [in_data ?].
      * intros Hview. by destruct (Hview view).
      * intros _ view' ?. by simplify_eq.
      * by eexists.
    + destruct (GetSharedBufferState desc); split; try done; by eexists.
    + destruct ndebug; split; try done; [by eexists|by intros [in_data ?]].
    + split; [done|by eexists].
    + destruct ndebug; split; try done; [by eexists|by intros [in_data ?]].
    + destruct ndebug; split; try done; [by eexists|by intros [in_data ?]].
  - intros desc Hclass. unfold GetInData_Mutable. by destruct Hclass as [->|[->| ->]].
Qed.

Lemma GetInData_Mutable_general_buffer_witness :
  GetInData_Mutable 77 false (mutable_descriptor GeneralBuffer (Some example_buffer) None)
  = GetInData_Buffer 77
      {| Buffer_GetBufferState := Some example_buffer; Buffer_GetEffectiveRange := 64 |}
  ↔ wrap32 (Buffer_create_info_size example_buffer) = wrap32 64.
Proof.
  apply (GetInData_Mutable_general_buffer 77 false
           (mutable_descriptor GeneralBuffer (Some example_buffer) None) example_buffer 64);
    reflexivity.
Defined.

Lemma GetCurrentState_defined_witness :
  ∃ snapshot ds' objects',
    GetCurrentState 77 false ∅ 12288 snapshot_example_set = Done (snapshot, ds', objects').
Proof.
  apply (GetCurrentState_defined 77 false ∅ 12288 snapshot_example_set).
  split; [|by vm_compute].
  apply Forall_cons. split; [|apply Forall_nil_2].
  split; [done|]. split_and!; [by vm_compute|by vm_compute|].
  intros [|[|di]] Hdi; simpl in Hdi; simplify_eq. by eexists _, _.
Defined.
